(** * HealthCheck front end: verification history store, fallback clients

    A shallow embedding of the TypeScript sources

      - src/context/VerificationContext.tsx  (reducer, provider effects)
      - src/services/api.ts                  (verifyHealthClaim and its fallback)
      - src/services/newsApi.ts              (fetchTrustedNews and its fallback)
      - src/pages/LandingPage.tsx            (handleSubmit)
      - src/pages/ResultsPage.tsx            (look-up, getVerdictConfig, links)
      - src/pages/HistoryPage.tsx            (getVerdictConfig, the list)
      - src/components/ConfidenceBar.tsx     (colour and label)
      - src/components/CitationCard.tsx      (getSourceIcon)
      - components/TrustedNews.tsx           (loadNews, getSourceColor)
      - src/App.tsx                          (the theme)

    together with the parts of the JavaScript run time they rely on
    (strings, arrays, [JSON.stringify] / [JSON.parse], [localStorage],
    [Math.random], [encodeURIComponent]).

    Modelling conventions.
      - A JavaScript string is the list of its UTF-16 code units.
      - TypeScript types are erased at run time, so the store state holds a
        run-time [value]; typed records are embedded with [*_to_value].
      - Code that can throw returns a [Completion]; [try]/[catch] is a match
        on it.
      - A finite JavaScript number is represented by the decimal expansion
        that [Number.prototype.toString] prints for it. *)

From Stdlib Require Import ZArith NArith List String Ascii Lia Bool.
From Stdlib Require Import QArith Qround Qabs Qpower Lqa Permutation.
From stdpp Require Import gmap.
Import ListNotations.

Local Open Scope N_scope.

(* ===================================================================== *)
(** ** JavaScript strings *)
(* ===================================================================== *)

Module JsString.

(** A string value: its sequence of UTF-16 code units. *)
Definition jsstring : Type := list N.

(** A literal of the source text (all literals of the sources are ASCII
    or Latin-1). *)
Definition lit (s : string) : jsstring :=
  List.map N_of_ascii (list_ascii_of_string s).

Definition eqb (a b : jsstring) : bool := bool_decide (a = b).

(** [String.prototype.toLowerCase], one code unit at a time.  The mapping
    is the Unicode one for every unit below 256: the ASCII capitals and
    the Latin-1 capitals U+00C0..U+00DE, U+00D7 (the multiplication sign)
    excepted, move up by 32.  Units from 256 on are left as they are: the
    case tables of the other scripts are not part of this model. *)
Definition lower_unit (c : N) : N :=
  if (65 <=? c) && (c <=? 90) then c + 32
  else if (192 <=? c) && (c <=? 222) && negb (c =? 215) then c + 32
  else c.

Definition toLowerCase (s : jsstring) : jsstring := List.map lower_unit s.

(** [s.startsWith(p)] *)
Fixpoint startsWith (s p : jsstring) {struct p} : bool :=
  match p, s with
  | [], _ => true
  | _ :: _, [] => false
  | a :: p', b :: s' => (a =? b) && startsWith s' p'
  end.

(** [s.includes(needle)]: [needle] occurs at some position of [s]. *)
Fixpoint includes (s needle : jsstring) : bool :=
  startsWith s needle ||
  match s with
  | [] => false
  | _ :: s' => includes s' needle
  end.

End JsString.
Import JsString.

(* ===================================================================== *)
(** ** Run-time values *)
(* ===================================================================== *)

(** A decimal digit other than zero. *)
Inductive nzdigit : Set := D1 | D2 | D3 | D4 | D5 | D6 | D7 | D8 | D9.

Definition nzdigit_to_N (d : nzdigit) : N :=
  match d with
  | D1 => 1 | D2 => 2 | D3 => 3 | D4 => 4 | D5 => 5
  | D6 => 6 | D7 => 7 | D8 => 8 | D9 => 9
  end.

Definition nzdigit_of_N (n : N) : option nzdigit :=
  match n with
  | 1 => Some D1 | 2 => Some D2 | 3 => Some D3 | 4 => Some D4 | 5 => Some D5
  | 6 => Some D6 | 7 => Some D7 | 8 => Some D8 | 9 => Some D9
  | _ => None
  end.

(** A finite number, by the shortest decimal expansion that identifies it:
    zero, or [(-1)^negative * (10 * high + low) * 10^exp10] with a last digit
    [low] that is not zero.  These are the digits [Number.prototype.toString]
    prints, so two numbers are equal exactly when their records are.  [NaN]
    and the infinities are not values of this type, and [-0] is not told from
    [0] (as [===] does not). *)
Inductive number : Set :=
| Zero
| Dec (negative : bool) (high : N) (low : nzdigit) (exp10 : Z).

(** The values [JSON.parse] can build: the state of the store and the
    payloads of its actions are such values. *)
Unset Elimination Schemes.
Inductive value : Type :=
| JNull
| JBool (b : bool)
| JNum (n : number)
| JStr (s : jsstring)
| JArr (items : list value)
| JObj (props : list (jsstring * value)).
Set Elimination Schemes.

(** The induction principle that reaches the values nested in arrays and
    objects. *)
Fixpoint value_ind' (P : value -> Prop)
  (Hnull : P JNull) (Hbool : forall b, P (JBool b))
  (Hnum : forall n, P (JNum n)) (Hstr : forall s, P (JStr s))
  (Harr : forall items, Forall P items -> P (JArr items))
  (Hobj : forall props, Forall (fun kv => P (snd kv)) props -> P (JObj props))
  (v : value) : P v :=
  let rec := value_ind' P Hnull Hbool Hnum Hstr Harr Hobj in
  match v with
  | JNull => Hnull
  | JBool b => Hbool b
  | JNum n => Hnum n
  | JStr s => Hstr s
  | JArr items =>
      Harr items
        ((fix go (l : list value) : Forall P l :=
            match l with
            | [] => List.Forall_nil P
            | x :: l' => @List.Forall_cons _ _ x l' (rec x) (go l')
            end) items)
  | JObj props =>
      Hobj props
        ((fix go (l : list (jsstring * value)) : Forall (fun kv => P (snd kv)) l :=
            match l with
            | [] => List.Forall_nil _
            | kv :: l' => @List.Forall_cons _ _ kv l' (rec (snd kv)) (go l')
            end) props)
  end.

(** Own-property lookup in an object built by [JSON.parse] or an object
    literal. *)
Fixpoint lookup_prop (k : jsstring) (props : list (jsstring * value)) : option value :=
  match props with
  | [] => None
  | (k', v) :: rest => if eqb k k' then Some v else lookup_prop k rest
  end.

(* ===================================================================== *)
(** ** Decimal digits *)
(* ===================================================================== *)

(** The decimal digits of [n], least significant first; none for zero.
    [fuel] bounds the number of digits. *)
Fixpoint digits_lsf (fuel : nat) (n : N) : list N :=
  match fuel with
  | O => []
  | S fuel' => if n =? 0 then [] else (n mod 10) :: digits_lsf fuel' (n / 10)
  end.

(** The decimal digits of [n], most significant first.  A number has no
    more decimal digits than binary ones. *)
Definition digits (n : N) : list N := rev (digits_lsf (N.to_nat (N.size n)) n).

(** The number a sequence of digits denotes, most significant first. *)
Definition of_digits (ds : list N) : N := fold_left (fun acc d => 10 * acc + d) ds 0.

(** Leading zeros dropped, and how many there were. *)
Fixpoint strip_zeros (ds : list N) : list N * nat :=
  match ds with
  | 0 :: rest => let '(r, k) := strip_zeros rest in (r, S k)
  | _ => (ds, O)
  end.

(** The number [(-1)^negative * ds * 10^e] for decimal digits [ds], most
    significant first, that may begin and end with zeros. *)
Definition number_of_decimal (negative : bool) (ds : list N) (e : Z) : number :=
  let '(significant, zeros) := strip_zeros (rev ds) in
  let m := of_digits (rev significant) in
  match nzdigit_of_N (m mod 10) with
  | Some low => Dec negative (m / 10) low (e + Z.of_nat zeros)
  | None => Zero
  end.

Definition number_of_Z (z : Z) : number :=
  number_of_decimal (z <? 0)%Z (digits (Z.abs_N z)) 0.

(** The digits of the mantissa of a number that is not zero. *)
Definition mantissa_digits (high : N) (low : nzdigit) : list N :=
  digits (10 * high + nzdigit_to_N low).

(* ===================================================================== *)
(** ** Exceptions *)
(* ===================================================================== *)

Inductive ErrorKind : Set :=
| TypeError | SyntaxError | SecurityError | QuotaExceededError | PlainError.

(** An [Error] object: its class and its [message]. *)
Record Error : Type := mkError { kind : ErrorKind; message : jsstring }.

(** [e instanceof TypeError] *)
Definition instanceof_TypeError (e : Error) : bool :=
  match kind e with
  | TypeError => true
  | _ => false
  end.

(** The outcome of running code that may throw. *)
Inductive Completion (A : Type) : Type :=
| Normal (a : A)
| Throw (e : Error).
Arguments Normal {A} a.
Arguments Throw {A} e.

Definition bind {A B} (c : Completion A) (k : A -> Completion B) : Completion B :=
  match c with
  | Normal a => k a
  | Throw e => Throw e
  end.

Notation "'do' x <- c ; k" := (bind c (fun x => k))
  (at level 10, x name, c at level 100, k at level 200).

Definition throwTypeError {A} (msg : string) : Completion A :=
  Throw (mkError TypeError (lit msg)).

(* ===================================================================== *)
(** ** Arrays and property access *)
(* ===================================================================== *)

Definition is_high_surrogate (c : N) : bool := (0xD800 <=? c) && (c <=? 0xDBFF).
Definition is_low_surrogate (c : N) : bool := (0xDC00 <=? c) && (c <=? 0xDFFF).

(** The string iterator: one string per code point, a surrogate pair being
    one code point. *)
Fixpoint code_points (s : jsstring) : list jsstring :=
  match s with
  | [] => []
  | c :: rest =>
      match rest with
      | d :: rest' =>
          if is_high_surrogate c && is_low_surrogate d
          then [c; d] :: code_points rest'
          else [c] :: code_points rest
      | [] => [[c]]
      end
  end.

(** [[...v]]: arrays and strings are iterable, the other values are not. *)
Definition spread (v : value) : Completion (list value) :=
  match v with
  | JArr items => Normal items
  | JStr s => Normal (List.map JStr (code_points s))
  | _ => throwTypeError "value is not iterable"
  end.

(** [v.k] for a property name [k] that is no array index, not [length]
    and no member of a prototype ([id] and [articles] below).  Reading a
    property of [null] throws; an object gives its own property; a string, a
    number, a boolean or an array has no such property and gives
    [undefined] ([None]). *)
Definition Get (k : string) (v : value) : Completion (option value) :=
  match v with
  | JNull => throwTypeError "Cannot read properties of null"
  | JObj props => Normal (lookup_prop (lit k) props)
  | _ => Normal None
  end.

(** [v.id] *)
Definition Get_id (v : value) : Completion (option value) := Get "id" v.

(** [ToBoolean], as the operators [||] and [if] apply it. *)
Definition truthy (v : value) : bool :=
  match v with
  | JNull => false
  | JBool b => b
  | JNum Zero => false
  | JNum _ => true
  | JStr [] => false
  | JStr _ => true
  | JArr _ | JObj _ => true
  end.

(** [x === s] for a string [s]: [x] is a string with the same code units. *)
Definition strict_equals_string (x : option value) (s : jsstring) : bool :=
  match x with
  | Some (JStr t) => eqb t s
  | _ => false
  end.

Fixpoint filterM {A} (f : A -> Completion bool) (l : list A) : Completion (list A) :=
  match l with
  | [] => Normal []
  | x :: rest =>
      do keep <- f x;
      do kept <- filterM f rest;
      Normal (if keep then x :: kept else kept)
  end.

Fixpoint findM {A} (f : A -> Completion bool) (l : list A) : Completion (option A) :=
  match l with
  | [] => Normal None
  | x :: rest =>
      do hit <- f x;
      if hit then Normal (Some x) else findM f rest
  end.

(** [v.filter(f)]: only arrays have the method. *)
Definition Array_filter (f : value -> Completion bool) (v : value) : Completion value :=
  match v with
  | JArr items => do kept <- filterM f items; Normal (JArr kept)
  | JNull => throwTypeError "Cannot read properties of null (reading 'filter')"
  | _ => throwTypeError "filter is not a function"
  end.

(** [v.find(f)] *)
Definition Array_find (f : value -> Completion bool) (v : value) : Completion (option value) :=
  match v with
  | JArr items => findM f items
  | JNull => throwTypeError "Cannot read properties of null (reading 'find')"
  | _ => throwTypeError "find is not a function"
  end.

(* ===================================================================== *)
(** ** src/context/VerificationContext.tsx *)
(* ===================================================================== *)

Module Context.

(** [interface Citation] *)
Record Citation : Type := {
  title : jsstring;
  source : jsstring;
  url : jsstring;
  publishedAt : option jsstring;
  summary : option jsstring
}.

(** [interface VerificationResult] *)
Record VerificationResult : Type := {
  verdict : jsstring;
  confidence : number;
  explanation : jsstring;
  citations : option (list Citation);
  language : option jsstring;
  model : option jsstring;
  processingTime : option jsstring
}.

(** [interface Verification] *)
Record Verification : Type := {
  id : jsstring;
  input : jsstring;
  result : VerificationResult;
  timestamp : jsstring
}.

(** An optional member: present with its value, or absent. *)
Definition optional {A} (k : string) (f : A -> value) (o : option A)
  : list (jsstring * value) :=
  match o with
  | Some a => [(lit k, f a)]
  | None => []
  end.

(** The objects the typed records stand for. *)
Definition Citation_to_value (c : Citation) : value :=
  JObj ([(lit "title", JStr (title c));
         (lit "source", JStr (source c));
         (lit "url", JStr (url c))]
        ++ optional "publishedAt" JStr (publishedAt c)
        ++ optional "summary" JStr (summary c)).

Definition VerificationResult_to_value (r : VerificationResult) : value :=
  JObj ([(lit "verdict", JStr (verdict r));
         (lit "confidence", JNum (confidence r));
         (lit "explanation", JStr (explanation r))]
        ++ optional "citations" (fun cs => JArr (List.map Citation_to_value cs)) (citations r)
        ++ optional "language" JStr (language r)
        ++ optional "model" JStr (model r)
        ++ optional "processingTime" JStr (processingTime r)).

Definition Verification_to_value (v : Verification) : value :=
  JObj [(lit "id", JStr (id v));
        (lit "input", JStr (input v));
        (lit "result", VerificationResult_to_value (result v));
        (lit "timestamp", JStr (timestamp v))].

(** A collection [Verification[]] *)
Definition collection (vs : list Verification) : value :=
  JArr (List.map Verification_to_value vs).

(** [interface VerificationState] *)
Record VerificationState : Type := { verifications : value }.

(** [type VerificationAction] *)
Inductive VerificationAction : Type :=
| ADD_VERIFICATION (payload : value)
| REMOVE_VERIFICATION (payload : jsstring)
| CLEAR_HISTORY
| LOAD_FROM_STORAGE (payload : value).

(** [verificationReducer].  The four constructors are the four cases of the
    [switch]; its [default] branch has no action left to take. *)
Definition verificationReducer (state : VerificationState) (action : VerificationAction)
  : Completion VerificationState :=
  match action with
  | ADD_VERIFICATION payload =>
      do rest <- spread (verifications state);
      Normal {| verifications := JArr (payload :: rest) |}
  | REMOVE_VERIFICATION payload =>
      do kept <- Array_filter
               (fun v => do i <- Get_id v; Normal (negb (strict_equals_string i payload)))
               (verifications state);
      Normal {| verifications := kept |}
  | CLEAR_HISTORY =>
      Normal {| verifications := JArr [] |}
  | LOAD_FROM_STORAGE payload =>
      Normal {| verifications := payload |}
  end.

(** [useReducer(verificationReducer, { verifications: [] })] *)
Definition initialState : VerificationState := {| verifications := JArr [] |}.

(** The callbacks the provider hands out: the action each one dispatches. *)
Definition addVerification (verification : Verification) : VerificationAction :=
  ADD_VERIFICATION (Verification_to_value verification).

Definition removeVerification (i : jsstring) : VerificationAction :=
  REMOVE_VERIFICATION i.

Definition clearHistory : VerificationAction := CLEAR_HISTORY.

(** [getVerification]: [state.verifications.find(v => v.id === id)] *)
Definition getVerification (state : VerificationState) (i : jsstring)
  : Completion (option value) :=
  Array_find (fun v => do x <- Get_id v; Normal (strict_equals_string x i))
             (verifications state).

(** Dispatching a sequence of actions, first to last. *)
Fixpoint dispatch_all (state : VerificationState) (actions : list VerificationAction)
  : Completion VerificationState :=
  match actions with
  | [] => Normal state
  | a :: rest => do state' <- verificationReducer state a; dispatch_all state' rest
  end.

End Context.

(* ===================================================================== *)
(** ** The history store on typed records *)
(* ===================================================================== *)

Module Store.
Import Context.

(** The collection after the first (and, ids being unique, only) record
    whose [id] is [i] has been taken out: the wording of the specification
    for [remove], to be compared with what the reducer computes. *)
Fixpoint remove_first (i : jsstring) (vs : list Verification) : list Verification :=
  match vs with
  | [] => []
  | v :: rest => if eqb (id v) i then rest else v :: remove_first i rest
  end.

(** What the reducer computes for [REMOVE_VERIFICATION], on typed records. *)
Definition remove_all (i : jsstring) (vs : list Verification) : list Verification :=
  List.filter (fun v => negb (eqb (id v) i)) vs.

(** [find] on typed records. *)
Definition find_id (i : jsstring) (vs : list Verification) : option Verification :=
  List.find (fun v => eqb (id v) i) vs.

(** The elements of a collection value (none when it is not an array). *)
Definition records_of (v : value) : list value :=
  match v with
  | JArr items => items
  | _ => []
  end.

(** The records an action brings with it. *)
Definition supplied (a : VerificationAction) : list value :=
  match a with
  | ADD_VERIFICATION payload => [payload]
  | LOAD_FROM_STORAGE payload => records_of payload
  | _ => []
  end.

(** Two records that share the id "1", for the examples below. *)
Definition plain_result (v : string) : VerificationResult :=
  {| verdict := lit v; confidence := number_of_Z 95; explanation := lit "...";
     citations := Some []; language := None; model := None; processingTime := None |}.

Definition record_A : Verification :=
  {| id := lit "1"; input := lit "claim A"; result := plain_result "true";
     timestamp := lit "2024-01-01T00:00:00Z" |}.

Definition record_A' : Verification :=
  {| id := lit "1"; input := lit "claim A again"; result := plain_result "misleading";
     timestamp := lit "2024-01-01T00:00:01Z" |}.

Definition record_B : Verification :=
  {| id := lit "2"; input := lit "claim B"; result := plain_result "needs review";
     timestamp := lit "2024-01-02T00:00:00Z" |}.

End Store.

(* ===================================================================== *)
(** ** src/pages/ResultsPage.tsx *)
(* ===================================================================== *)

Module ResultsPage.

(** The icon components of lucide-react that the page picks from. *)
Inductive Icon : Set := CheckCircle | XCircle | AlertTriangle.

Record VerdictConfig : Type := {
  icon : Icon;
  color : jsstring;
  bgColor : jsstring;
  borderColor : jsstring;
  label : jsstring
}.

(** [getVerdictConfig]: a [switch] on the verdict in lower case. *)
Definition getVerdictConfig (verdict : jsstring) : VerdictConfig :=
  let v := toLowerCase verdict in
  if eqb v (lit "true") then
    {| icon := CheckCircle;
       color := lit "text-green-600 dark:text-green-400";
       bgColor := lit "bg-green-50 dark:bg-green-900/20";
       borderColor := lit "border-green-200 dark:border-green-800";
       label := lit "Verified True" |}
  else if eqb v (lit "misleading") then
    {| icon := XCircle;
       color := lit "text-red-600 dark:text-red-400";
       bgColor := lit "bg-red-50 dark:bg-red-900/20";
       borderColor := lit "border-red-200 dark:border-red-800";
       label := lit "Misleading" |}
  else
    {| icon := AlertTriangle;
       color := lit "text-amber-600 dark:text-amber-400";
       bgColor := lit "bg-amber-50 dark:bg-amber-900/20";
       borderColor := lit "border-amber-200 dark:border-amber-800";
       label := lit "Needs Review" |}.

(** The rendering configuration of the [default] branch. *)
Definition needsReviewConfig : VerdictConfig :=
  {| icon := AlertTriangle;
     color := lit "text-amber-600 dark:text-amber-400";
     bgColor := lit "bg-amber-50 dark:bg-amber-900/20";
     borderColor := lit "border-amber-200 dark:border-amber-800";
     label := lit "Needs Review" |}.

(** [s] is [word] up to the case of its letters. *)
Definition equalsIgnoreCase (s word : jsstring) : Prop :=
  toLowerCase s = toLowerCase word.

End ResultsPage.

(* ===================================================================== *)
(** ** src/pages/HistoryPage.tsx *)
(* ===================================================================== *)

Module HistoryPage.

Record VerdictConfig : Type := {
  icon : ResultsPage.Icon;
  color : jsstring;
  bgColor : jsstring;
  label : jsstring
}.

(** [getVerdictConfig] of the history page: the same [switch], without the
    border colour. *)
Definition getVerdictConfig (verdict : jsstring) : VerdictConfig :=
  let v := toLowerCase verdict in
  if eqb v (lit "true") then
    {| icon := ResultsPage.CheckCircle;
       color := lit "text-green-600 dark:text-green-400";
       bgColor := lit "bg-green-50 dark:bg-green-900/20";
       label := lit "Verified True" |}
  else if eqb v (lit "misleading") then
    {| icon := ResultsPage.XCircle;
       color := lit "text-red-600 dark:text-red-400";
       bgColor := lit "bg-red-50 dark:bg-red-900/20";
       label := lit "Misleading" |}
  else
    {| icon := ResultsPage.AlertTriangle;
       color := lit "text-amber-600 dark:text-amber-400";
       bgColor := lit "bg-amber-50 dark:bg-amber-900/20";
       label := lit "Needs Review" |}.

(** ['all' | 'true' | 'misleading' | 'needs-review'] *)
Inductive Filter : Set := filter_all | filter_true | filter_misleading | filter_needs_review.

Definition Filter_to_string (f : Filter) : jsstring :=
  match f with
  | filter_all => lit "all"
  | filter_true => lit "true"
  | filter_misleading => lit "misleading"
  | filter_needs_review => lit "needs-review"
  end.

(** [s.replace(pattern, replacement)] for a string pattern: the first
    occurrence is replaced. *)
Fixpoint String_replace (pattern replacement s : jsstring) : jsstring :=
  if startsWith s pattern then replacement ++ skipn (length pattern) s
  else
    match s with
    | [] => []
    | c :: rest => c :: String_replace pattern replacement rest
    end.

(** [matchesFilter] in the callback of [filteredVerifications] *)
Definition matchesFilter (filter : Filter) (verdict : jsstring) : bool :=
  match filter with
  | filter_all => true
  | _ => eqb (toLowerCase verdict)
             (String_replace (lit "-") (lit " ") (Filter_to_string filter))
  end.

End HistoryPage.

(* ===================================================================== *)
(** ** [Math.random] and the other numeric helpers of the clients *)
(* ===================================================================== *)

(** One outcome of [Math.random()]: a number of the interval [0, 1), with
    the evidence that it lies there.  The arithmetic done on outcomes is
    exact rational arithmetic; the rounding of binary64 is not modelled. *)
Record sample : Type := {
  outcome : Q;
  outcome_range : Qle_bool 0 outcome && negb (Qle_bool 1 outcome) = true
}.

(** The outcomes of the successive calls, as the generator will deliver
    them. *)
Definition randomness : Type := nat -> sample.

(** Code that draws from the generator: it receives the outcomes still to
    come and hands back the ones it has not used. *)
Definition Rand (A : Type) : Type := randomness -> A * randomness.

Definition rret {A} (a : A) : Rand A := fun s => (a, s).

Definition rbind {A B} (c : Rand A) (k : A -> Rand B) : Rand B :=
  fun s => let '(a, s') := c s in k a s'.

Notation "'draw' x <- c ; k" := (rbind c (fun x => k))
  (at level 10, x name, c at level 100, k at level 200).

(** [Math.random()] *)
Definition Math_random : Rand Q :=
  fun s => (outcome (s O), fun n => s (S n)).

(** [Math.floor] *)
Definition Math_floor (x : Q) : Z := Qfloor x.

(** The characters of a natural number in decimal. *)
Definition decimal_string (n : N) : jsstring :=
  match digits n with
  | [] => [48]
  | ds => List.map (fun d => 48 + d) ds
  end.

(** [x.toFixed(f)] for [|x| < 1e21]: the decimal with [f] digits after the
    point nearest to [x], the larger one when two are as near. *)
Definition Number_toFixed (f : nat) (x : Q) : jsstring :=
  let n := Z.to_N (Qfloor (Qabs x * inject_Z (10 ^ Z.of_nat f) + (1 # 2))) in
  let ds := digits n in
  let padded := repeat 0 (S f - length ds) ++ ds in
  let whole := firstn (length padded - f) padded in
  let fraction := skipn (length padded - f) padded in
  (if Qlt_le_dec x 0 then [45] else []) ++
  List.map (fun d => 48 + d) whole ++
  match f with
  | O => []
  | _ => 46 :: List.map (fun d => 48 + d) fraction
  end.

(** [l.slice(start, end)] *)
Definition Array_slice {A} (start finish : Z) (l : list A) : list A :=
  let len := Z.of_nat (length l) in
  let clamp (i : Z) := if (i <? 0)%Z then Z.max (len + i) 0 else Z.min i len in
  let k := clamp start in
  let final := clamp finish in
  firstn (Z.to_nat (final - k)) (skipn (Z.to_nat k) l).

(* ===================================================================== *)
(** ** src/services/api.ts *)
(* ===================================================================== *)

Module Api.

(** ['true' | 'misleading' | 'needs review'] *)
Inductive Verdict : Set := verdict_true | verdict_misleading | verdict_needs_review.

Definition Verdict_to_string (v : Verdict) : jsstring :=
  match v with
  | verdict_true => lit "true"
  | verdict_misleading => lit "misleading"
  | verdict_needs_review => lit "needs review"
  end.

(** [interface Citation] *)
Record Citation : Type := {
  title : jsstring;
  source : jsstring;
  url : jsstring;
  publishedAt : jsstring;
  summary : jsstring
}.

(** [interface VerificationResult] *)
Record VerificationResult : Type := {
  verdict : Verdict;
  confidence : number;
  explanation : jsstring;
  citations : list Citation;
  language : jsstring;
  model : jsstring;
  processingTime : jsstring
}.

Definition mockCitations : list Citation := [
  {| title := lit "Vaccines and Autism: A Comprehensive Review";
     source := lit "Centers for Disease Control and Prevention";
     url := lit "https://www.cdc.gov/vaccinesafety/concerns/autism.html";
     publishedAt := lit "2024-01-15";
     summary := lit "Comprehensive analysis of vaccine safety data showing no link between vaccines and autism spectrum disorders." |};
  {| title := lit "Global Vaccine Safety Initiative";
     source := lit "World Health Organization";
     url := lit "https://www.who.int/vaccine_safety/initiative/detection/en/";
     publishedAt := lit "2024-02-10";
     summary := lit "WHO's ongoing efforts to monitor vaccine safety globally and address misinformation." |};
  {| title := lit "Nutritional Benefits of Citrus Fruits in Human Health";
     source := lit "PubMed Central";
     url := lit "https://www.ncbi.nlm.nih.gov/pmc/articles/PMC8234135/";
     publishedAt := lit "2023-11-20";
     summary := lit "Research review on the health benefits of citrus fruits including vitamin C content and antioxidant properties." |}
].

Definition vaccineExplanation : jsstring :=
  lit "This claim has been thoroughly debunked by extensive scientific research. Multiple large-scale studies involving millions of children have found no link between vaccines and autism. The original study suggesting this connection was retracted due to fraudulent data manipulation. Vaccines are safe, effective, and crucial for public health.".

Definition lemonExplanation : jsstring :=
  lit "While lemon water can be part of a healthy hydration routine, claims about significant metabolism boosting and weight loss effects are overstated. There's limited scientific evidence supporting dramatic metabolic benefits.".

Definition genericExplanation : jsstring :=
  lit "Based on our analysis of current medical literature and trusted health sources, this claim requires careful consideration. We recommend consulting with healthcare professionals for personalized medical advice.".

(** [getMockVerificationResult].  The promise that delays the answer only
    draws the length of the delay; the answer does not depend on it. *)
Definition getMockVerificationResult (input : jsstring) : Rand VerificationResult :=
  draw r_delay <- Math_random;
  let delay_ms := (2000 + r_delay * 3000)%Q in
  let containsVaccine := includes (toLowerCase input) (lit "vaccine") in
  let containsLemon := includes (toLowerCase input) (lit "lemon") in
  draw chosen <-
    (if containsVaccine && includes (toLowerCase input) (lit "autism") then
       rret (verdict_misleading, number_of_Z 95, vaccineExplanation)
     else if containsLemon then
       rret (verdict_needs_review, number_of_Z 72, lemonExplanation)
     else
       draw r_verdict <- Math_random;
       draw r_confidence <- Math_random;
       rret (if Qlt_le_dec (1 # 2) r_verdict then verdict_true else verdict_needs_review,
             number_of_Z (Math_floor (60 + r_confidence * 35)),
             genericExplanation));
  let '(verdict, confidence, explanation) := chosen in
  draw r_citations <- Math_random;
  draw r_time <- Math_random;
  rret {| verdict := verdict;
          confidence := confidence;
          explanation := explanation;
          citations := Array_slice 0 (Math_floor (1 + r_citations * 3)) mockCitations;
          language := lit "English";
          model := lit "BioBERT + GPT-4";
          processingTime := Number_toFixed 1 (2 + r_time * 2) ++ lit "s" |}.

End Api.

(* ===================================================================== *)
(** ** src/services/newsApi.ts *)
(* ===================================================================== *)

Module NewsApi.

(** [interface NewsArticle] *)
Record NewsArticle : Type := {
  id : jsstring;
  title : jsstring;
  summary : jsstring;
  url : jsstring;
  publishedAt : jsstring;
  source : jsstring
}.

Definition NewsArticle_to_value (a : NewsArticle) : value :=
  JObj [(lit "id", JStr (id a));
        (lit "title", JStr (title a));
        (lit "summary", JStr (summary a));
        (lit "url", JStr (url a));
        (lit "publishedAt", JStr (publishedAt a));
        (lit "source", JStr (source a))].

Definition mockNewsArticles : list NewsArticle := [
  {| id := lit "1";
     title := lit "New WHO Guidelines on Digital Health Interventions";
     summary := lit "The World Health Organization releases updated guidelines for digital health technologies and their implementation in healthcare systems worldwide.";
     url := lit "https://www.who.int/news/item/01-01-2024-new-digital-health-guidelines";
     publishedAt := lit "2024-01-15T10:00:00Z";
     source := lit "WHO" |};
  {| id := lit "2";
     title := lit "CDC Updates Recommendations for Seasonal Flu Vaccination";
     summary := lit "Latest recommendations for the 2024 flu season, including new vaccine formulations and priority groups for vaccination.";
     url := lit "https://www.cdc.gov/flu/season/recommendations-2024.html";
     publishedAt := lit "2024-01-14T14:30:00Z";
     source := lit "CDC" |};
  {| id := lit "3";
     title := lit "Breakthrough in Cancer Immunotherapy Research";
     summary := lit "Recent studies published in major medical journals show promising results for new immunotherapy approaches in treating various cancer types.";
     url := lit "https://pubmed.ncbi.nlm.nih.gov/38234567/";
     publishedAt := lit "2024-01-13T09:15:00Z";
     source := lit "PubMed" |};
  {| id := lit "4";
     title := lit "Global Mental Health Initiative Launched by WHO";
     summary := lit "A comprehensive global initiative aimed at improving mental health services and reducing stigma worldwide.";
     url := lit "https://www.who.int/news/item/12-01-2024-mental-health-initiative";
     publishedAt := lit "2024-01-12T11:45:00Z";
     source := lit "WHO" |};
  {| id := lit "5";
     title := lit "Antibiotic Resistance: New Surveillance Data Released";
     summary := lit "CDC releases latest data on antibiotic resistance patterns and provides updated guidelines for healthcare providers.";
     url := lit "https://www.cdc.gov/drugresistance/surveillance-report-2024.html";
     publishedAt := lit "2024-01-11T16:20:00Z";
     source := lit "CDC" |}
].

(** The ids of the fixture. *)
Definition fixtureIds : list jsstring := List.map id mockNewsArticles.

(** What [fetch] followed by [response.json()] can come to: the request is
    rejected with an error, or a response arrives, with its [ok] flag and
    the outcome of decoding its body. *)
Inductive FetchOutcome : Type :=
| Rejected (e : Error)
| Responded (ok : bool) (json : Completion value).

Section Engine.

(** [Array.prototype.sort(comparefn)].  ECMAScript leaves the sequence of
    calls to the comparison function, and with it the resulting order when
    the function is not a consistent one, to the engine; the algorithm is a
    parameter of the model. *)
Variable Array_sort : forall A : Type, (A -> A -> Rand Q) -> list A -> Rand (list A).

(** [getMockNewsArticles] *)
Definition getMockNewsArticles : Rand (list NewsArticle) :=
  draw r_delay <- Math_random;
  let delay_ms := (1000 + r_delay * 1000)%Q in
  draw shuffled <- Array_sort NewsArticle
                     (fun _ _ => draw r <- Math_random; rret ((1 # 2) - r)%Q)
                     mockNewsArticles;
  draw r_count <- Math_random;
  rret (Array_slice 0 (5 + Math_floor (r_count * 3)) shuffled).

(** The [try] block of [fetchTrustedNews]. *)
Definition fetchTrustedNews_try (outcome : FetchOutcome) : Completion value :=
  match outcome with
  | Rejected e => Throw e
  | Responded ok json =>
      if negb ok then Throw (mkError PlainError (lit "Failed to fetch news"))
      else
        do data <- json;
        do articles <- Get "articles" data;
        match articles with
        | Some a => if truthy a then Normal a else Normal (JArr [])
        | None => Normal (JArr [])
        end
  end.

(** [fetchTrustedNews]: the [try] block, then the [catch] clause. *)
Definition fetchTrustedNews (outcome : FetchOutcome) : Rand value :=
  match fetchTrustedNews_try outcome with
  | Normal articles => rret articles
  | Throw error =>
      if instanceof_TypeError error && includes (message error) (lit "fetch")
      then draw articles <- getMockNewsArticles;
           rret (JArr (List.map NewsArticle_to_value articles))
      else rret (JArr [])
  end.

End Engine.

(** One algorithm an engine may use: insertion sort, where a positive
    result of the comparison puts the first argument after the second. *)
Fixpoint insert_sorted {A} (cmp : A -> A -> Rand Q) (x : A) (sorted : list A)
  : Rand (list A) :=
  match sorted with
  | [] => rret [x]
  | y :: rest =>
      draw c <- cmp x y;
      if Qlt_le_dec 0 c
      then draw placed <- insert_sorted cmp x rest; rret (y :: placed)
      else rret (x :: y :: rest)
  end.

Fixpoint insertion_sort (A : Type) (cmp : A -> A -> Rand Q) (l : list A)
  : Rand (list A) :=
  match l with
  | [] => rret []
  | x :: rest => draw sorted <- insertion_sort A cmp rest; insert_sorted cmp x sorted
  end.

End NewsApi.

(* ===================================================================== *)
(** ** Notions for the fallback clients *)
(* ===================================================================== *)

Module Fallback.

(** Some spelling of [word], in whatever case of its letters, occurs in
    [s]. *)
Definition contains_ignoring_case (s word : jsstring) : Prop :=
  exists w, toLowerCase w = toLowerCase word /\ includes s w = true.

(** Outcomes used in the examples. *)
Definition sample_0 : sample := {| outcome := 0; outcome_range := eq_refl |}.
Definition sample_half : sample := {| outcome := 1 # 2; outcome_range := eq_refl |}.

End Fallback.

(* ===================================================================== *)
(** ** [JSON.stringify] and [JSON.parse] *)
(* ===================================================================== *)

Module Json.

Definition digit_char (d : N) : N := 48 + d.

(** The digits of [Number::toString] for the number [m * 10^e], where [ds]
    are the [k] digits of [m]: with [n = k + e], the position of the decimal
    point, the number prints as an integer, as a decimal fraction, or with
    an exponent. *)
Definition magnitude_toString (ds : list N) (e : Z) : jsstring :=
  let cs := List.map digit_char ds in
  let k := Z.of_nat (length ds) in
  let n := (k + e)%Z in
  if (k <=? n)%Z && (n <=? 21)%Z then
    cs ++ repeat 48 (Z.to_nat (n - k))
  else if (0 <? n)%Z && (n <=? 21)%Z then
    firstn (Z.to_nat n) cs ++ [46] ++ skipn (Z.to_nat n) cs
  else if (-6 <? n)%Z && (n <=? 0)%Z then
    [48; 46] ++ repeat 48 (Z.to_nat (- n)) ++ cs
  else
    match cs with
    | [] => []
    | [c] => [c]
    | c :: more => c :: 46 :: more
    end
    ++ [101; if (n - 1 <? 0)%Z then 45 else 43]
    ++ decimal_string (Z.abs_N (n - 1)).

(** [Number.prototype.toString] (radix 10) of a finite number. *)
Definition Number_toString (x : number) : jsstring :=
  match x with
  | Zero => [48]
  | Dec negative high low e =>
      (if negative then [45] else []) ++ magnitude_toString (mantissa_digits high low) e
  end.

Definition hex_char (n : N) : N := if n <? 10 then 48 + n else 87 + n.

(** The six characters of [\uXXXX] for a code unit. *)
Definition unicode_escape (c : N) : jsstring :=
  [92; 117; hex_char (c / 4096 mod 16); hex_char (c / 256 mod 16);
   hex_char (c / 16 mod 16); hex_char (c mod 16)].

(** A code unit that is no surrogate, as [QuoteJSONString] writes it. *)
Definition quote_unit (c : N) : jsstring :=
  if c =? 8 then [92; 98]
  else if c =? 9 then [92; 116]
  else if c =? 10 then [92; 110]
  else if c =? 12 then [92; 102]
  else if c =? 13 then [92; 114]
  else if c =? 34 then [92; 34]
  else if c =? 92 then [92; 92]
  else if c <? 32 then unicode_escape c
  else [c].

(** The characters of a string between its quotes: a surrogate pair is
    written as it is, a surrogate that stands alone is escaped. *)
Fixpoint quote_units (s : jsstring) : jsstring :=
  match s with
  | [] => []
  | c :: rest =>
      if is_high_surrogate c then
        match rest with
        | d :: rest' =>
            if is_low_surrogate d then c :: d :: quote_units rest'
            else unicode_escape c ++ quote_units rest
        | [] => unicode_escape c
        end
      else if is_low_surrogate c then unicode_escape c ++ quote_units rest
      else quote_unit c ++ quote_units rest
  end.

(** [QuoteJSONString] *)
Definition QuoteJSONString (s : jsstring) : jsstring := [34] ++ quote_units s ++ [34].

Fixpoint join_comma (parts : list jsstring) : jsstring :=
  match parts with
  | [] => []
  | [p] => p
  | p :: rest => p ++ [44] ++ join_comma rest
  end.

(** [JSON.stringify(v)], without replacer and without indentation.  The
    properties of an object are written in the order of its list (the
    insertion order; no record of this program has an array-index key, which
    JavaScript would list first). *)
Fixpoint JSON_stringify (v : value) : jsstring :=
  match v with
  | JNull => lit "null"
  | JBool true => lit "true"
  | JBool false => lit "false"
  | JNum n => Number_toString n
  | JStr s => QuoteJSONString s
  | JArr items => [91] ++ join_comma (List.map JSON_stringify items) ++ [93]
  | JObj props =>
      [123] ++
      join_comma (List.map (fun kv => QuoteJSONString (fst kv) ++ [58] ++ JSON_stringify (snd kv))
                           props)
      ++ [125]
  end.

(** *** Parsing *)

(** JSON white space: space, tab, line feed, carriage return. *)
Definition is_ws (c : N) : bool := (c =? 32) || (c =? 9) || (c =? 10) || (c =? 13).

Fixpoint skip_ws (s : jsstring) : jsstring :=
  match s with
  | c :: rest => if is_ws c then skip_ws rest else s
  | [] => []
  end.

Definition is_digit (c : N) : bool := (48 <=? c) && (c <=? 57).

(** The longest run of digits at the front of [s], as digit values, and
    what follows it. *)
Fixpoint take_digits (s : jsstring) : list N * jsstring :=
  match s with
  | c :: rest =>
      if is_digit c then let '(ds, r) := take_digits rest in ((c - 48) :: ds, r)
      else ([], s)
  | [] => ([], [])
  end.

(** The fraction of a number: a point and at least one digit, or nothing. *)
Definition take_fraction (s : jsstring) : option (list N * jsstring) :=
  match s with
  | c :: r =>
      if c =? 46 then
        match take_digits r with
        | ([], _) => None
        | (fs, r') => Some (fs, r')
        end
      else Some ([], s)
  | [] => Some ([], s)
  end.

(** The exponent of a number: [e] or [E], a sign or none, and at least one
    digit; or nothing. *)
Definition take_exponent (s : jsstring) : option (Z * jsstring) :=
  match s with
  | c :: r =>
      if (c =? 101) || (c =? 69) then
        let '(negative, r1) :=
          match r with
          | sign :: r' =>
              if sign =? 45 then (true, r')
              else if sign =? 43 then (false, r')
              else (false, r)
          | [] => (false, r)
          end in
        match take_digits r1 with
        | ([], _) => None
        | (es, r2) =>
            let e := Z.of_N (of_digits es) in
            Some (if negative then (- e)%Z else e, r2)
        end
      else Some (0%Z, s)
  | [] => Some (0%Z, s)
  end.

(** An integer part that JSON does not allow: no digit at all, or a zero
    followed by further digits. *)
Definition bad_integer (int : list N) : bool :=
  match int with
  | [] => true
  | 0 :: _ :: _ => true
  | _ => false
  end.

(** A JSON number after its sign: an integer part, which is 0 or begins
    with one of 1..9; an optional fraction; an optional exponent. *)
Definition parse_magnitude (negative : bool) (s : jsstring) : option (number * jsstring) :=
  let '(int, s2) := take_digits s in
  if bad_integer int then None
  else
    match take_fraction s2 with
    | None => None
    | Some (fs, s3) =>
        match take_exponent s3 with
        | None => None
        | Some (e, s4) =>
            Some (number_of_decimal negative (int ++ fs) (e - Z.of_nat (length fs)), s4)
        end
    end.

(** A JSON number: an optional minus sign, then the magnitude. *)
Definition parse_number (s : jsstring) : option (number * jsstring) :=
  match s with
  | c :: r => if c =? 45 then parse_magnitude true r else parse_magnitude false s
  | [] => None
  end.

Definition hex_value (c : N) : option N :=
  if is_digit c then Some (c - 48)
  else if (97 <=? c) && (c <=? 102) then Some (c - 87)
  else if (65 <=? c) && (c <=? 70) then Some (c - 55)
  else None.

(** The code unit a one-letter escape stands for. *)
Definition simple_escape (c : N) : option N :=
  if c =? 34 then Some 34
  else if c =? 92 then Some 92
  else if c =? 47 then Some 47
  else if c =? 98 then Some 8
  else if c =? 102 then Some 12
  else if c =? 110 then Some 10
  else if c =? 114 then Some 13
  else if c =? 116 then Some 9
  else None.

(** The code unit four hexadecimal digits stand for. *)
Definition hex4 (h1 h2 h3 h4 : N) : option N :=
  match hex_value h1, hex_value h2, hex_value h3, hex_value h4 with
  | Some a, Some b, Some c, Some d => Some (4096 * a + 256 * b + 16 * c + d)
  | _, _, _, _ => None
  end.

Definition prepend (u : N) (r : option (jsstring * jsstring)) : option (jsstring * jsstring) :=
  match r with
  | Some (str, rest) => Some (u :: str, rest)
  | None => None
  end.

(** The characters of a string up to its closing quote; [s] starts after
    the opening quote.  A control character must be escaped. *)
Fixpoint parse_string (s : jsstring) : option (jsstring * jsstring) :=
  match s with
  | [] => None
  | c :: rest =>
      if c =? 34 then Some ([], rest)
      else if c =? 92 then
        match rest with
        | [] => None
        | e :: r =>
            match simple_escape e with
            | Some u => prepend u (parse_string r)
            | None =>
                if e =? 117 then
                  match r with
                  | h1 :: h2 :: h3 :: h4 :: r' =>
                      match hex4 h1 h2 h3 h4 with
                      | Some u => prepend u (parse_string r')
                      | None => None
                      end
                  | _ => None
                  end
                else None
            end
        end
      else if c <? 32 then None
      else prepend c (parse_string rest)
  end.

(** [CreateDataProperty]: a key that is there already keeps its place and
    takes the new value. *)
Fixpoint set_prop (k : jsstring) (v : value) (props : list (jsstring * value))
  : list (jsstring * value) :=
  match props with
  | [] => [(k, v)]
  | (k', v') :: rest =>
      if eqb k k' then (k', v) :: rest else (k', v') :: set_prop k v rest
  end.

Definition build_object (members : list (jsstring * value)) : value :=
  JObj (fold_left (fun props kv => set_prop (fst kv) (snd kv) props) members []).

(** The outcome of a parser that runs on fuel. *)
Inductive parsed (A : Type) : Type :=
| Parsed (a : A) (rest : jsstring)
| Malformed
| OutOfFuel.
Arguments Parsed {A} a rest.
Arguments Malformed {A}.
Arguments OutOfFuel {A}.

(** A JSON value at the front of [s], after white space; the elements of
    an array up to its closing bracket; the members of an object up to its
    closing brace. *)
Fixpoint parse_value (fuel : nat) (s : jsstring) : parsed value :=
  match fuel with
  | O => OutOfFuel
  | S fuel' =>
      let s := skip_ws s in
      if startsWith s (lit "null") then Parsed JNull (skipn 4 s)
      else if startsWith s (lit "true") then Parsed (JBool true) (skipn 4 s)
      else if startsWith s (lit "false") then Parsed (JBool false) (skipn 5 s)
      else
        match s with
        | [] => Malformed
        | c :: rest =>
            if c =? 34 then
              match parse_string rest with
              | Some (str, r) => Parsed (JStr str) r
              | None => Malformed
              end
            else if c =? 91 then
              match skip_ws rest with
              | c' :: r =>
                  if c' =? 93 then Parsed (JArr []) r
                  else
                    match parse_elements fuel' rest with
                    | Parsed items r' => Parsed (JArr items) r'
                    | Malformed => Malformed
                    | OutOfFuel => OutOfFuel
                    end
              | [] => Malformed
              end
            else if c =? 123 then
              match skip_ws rest with
              | c' :: r =>
                  if c' =? 125 then Parsed (JObj []) r
                  else
                    match parse_members fuel' rest with
                    | Parsed members r' => Parsed (build_object members) r'
                    | Malformed => Malformed
                    | OutOfFuel => OutOfFuel
                    end
              | [] => Malformed
              end
            else
              match parse_number s with
              | Some (n, r) => Parsed (JNum n) r
              | None => Malformed
              end
        end
  end
with parse_elements (fuel : nat) (s : jsstring) : parsed (list value) :=
  match fuel with
  | O => OutOfFuel
  | S fuel' =>
      match parse_value fuel' s with
      | Parsed v rest =>
          match skip_ws rest with
          | c :: r =>
              if c =? 93 then Parsed [v] r
              else if c =? 44 then
                match parse_elements fuel' r with
                | Parsed vs r' => Parsed (v :: vs) r'
                | Malformed => Malformed
                | OutOfFuel => OutOfFuel
                end
              else Malformed
          | [] => Malformed
          end
      | Malformed => Malformed
      | OutOfFuel => OutOfFuel
      end
  end
with parse_members (fuel : nat) (s : jsstring) : parsed (list (jsstring * value)) :=
  match fuel with
  | O => OutOfFuel
  | S fuel' =>
      match skip_ws s with
      | q :: rest =>
          if q =? 34 then
            match parse_string rest with
            | Some (key, r) =>
                match skip_ws r with
                | colon :: r1 =>
                    if colon =? 58 then
                      match parse_value fuel' r1 with
                      | Parsed v r2 =>
                          match skip_ws r2 with
                          | c :: r3 =>
                              if c =? 125 then Parsed [(key, v)] r3
                              else if c =? 44 then
                                match parse_members fuel' r3 with
                                | Parsed ms r4 => Parsed ((key, v) :: ms) r4
                                | Malformed => Malformed
                                | OutOfFuel => OutOfFuel
                                end
                              else Malformed
                          | [] => Malformed
                          end
                      | Malformed => Malformed
                      | OutOfFuel => OutOfFuel
                      end
                    else Malformed
                | [] => Malformed
                end
            | None => Malformed
            end
          else Malformed
      | [] => Malformed
      end
  end.

(** [JSON.parse(text)]: one value, white space around it and nothing else;
    a [SyntaxError] otherwise.  The fuel is more than any text of this
    length can use ([parse_value_fuel] below). *)
Definition JSON_parse (text : jsstring) : Completion value :=
  match parse_value (2 * length text + 2) text with
  | Parsed v rest =>
      match skip_ws rest with
      | [] => Normal v
      | _ :: _ => Throw (mkError SyntaxError (lit "Unexpected non-whitespace character after JSON"))
      end
  | _ => Throw (mkError SyntaxError (lit "Unexpected token in JSON"))
  end.

End Json.

(* ===================================================================== *)
(** ** [localStorage] and the effects of [VerificationProvider] *)
(* ===================================================================== *)

Module Provider.
Import Context.

(** The storage area of the page.  [disabled] stands for a browser that
    refuses access to it (every operation throws); [quota], when set, is
    the longest value the area still accepts. *)
Record Storage : Type := {
  disabled : bool;
  quota : option nat;
  items : gmap jsstring jsstring
}.

Definition healthy (ls : Storage) : Prop := disabled ls = false /\ quota ls = None.

(** [localStorage.getItem(key)]: the stored string, or [null] ([None]). *)
Definition getItem (key : jsstring) (ls : Storage) : Completion (option jsstring) :=
  if disabled ls then Throw (mkError SecurityError (lit "The operation is insecure."))
  else Normal (items ls !! key).

(** [localStorage.setItem(key, text)] *)
Definition setItem (key text : jsstring) (ls : Storage) : Completion Storage :=
  if disabled ls then Throw (mkError SecurityError (lit "The operation is insecure."))
  else
    match quota ls with
    | Some room =>
        if (room <? length text)%nat
        then Throw (mkError QuotaExceededError (lit "The quota has been exceeded."))
        else Normal {| disabled := false; quota := quota ls;
                       items := <[key := text]> (items ls) |}
    | None => Normal {| disabled := false; quota := None;
                        items := <[key := text]> (items ls) |}
    end.

Definition storageKey : jsstring := lit "healthcheck-verifications".

(** The [try] block of the first effect: read the key, and when a
    non-empty string is stored, parse it and dispatch the result. *)
Definition loadEffect_try (ls : Storage) : Completion (option VerificationAction) :=
  do stored <- getItem storageKey ls;
  match stored with
  | Some ((_ :: _) as text) =>
      do verifications <- Json.JSON_parse text;
      Normal (Some (LOAD_FROM_STORAGE verifications))
  | _ => Normal None
  end.

(** The first effect: what it dispatches.  Its [catch] clause logs the
    error and dispatches nothing. *)
Definition loadEffect (ls : Storage) : option VerificationAction :=
  match loadEffect_try ls with
  | Normal dispatched => dispatched
  | Throw error => None
  end.

(** The second effect: the storage it leaves.  Its [catch] clause logs the
    error and leaves the storage as it is. *)
Definition saveEffect (state : VerificationState) (ls : Storage) : Storage :=
  match setItem storageKey (Json.JSON_stringify (verifications state)) ls with
  | Normal ls' => ls'
  | Throw error => ls
  end.

(** The provider at rest: the state of the reducer and the storage. *)
Record Session : Type := {
  state : VerificationState;
  localStorage : Storage
}.

(** Mounting the provider.  After the first render, with the initial state,
    the first effect reads the storage and may dispatch, then the second
    effect saves the initial state; a dispatched action is reduced, and the
    second effect saves the new state. *)
Definition mount (ls : Storage) : Completion Session :=
  let dispatched := loadEffect ls in
  let ls1 := saveEffect initialState ls in
  match dispatched with
  | None => Normal {| state := initialState; localStorage := ls1 |}
  | Some action =>
      do state' <- verificationReducer initialState action;
      Normal {| state := state'; localStorage := saveEffect state' ls1 |}
  end.

(** Dispatching an action on a mounted provider. *)
Definition dispatch (action : VerificationAction) (session : Session) : Completion Session :=
  do state' <- verificationReducer (state session) action;
  Normal {| state := state'; localStorage := saveEffect state' (localStorage session) |}.

(** *** The schema of a stored collection

    The typed reading of a value, member by member, after the data model
    of the specification: what it takes for a parsed payload to be a
    collection of verification records. *)

Definition as_string (v : option value) : option jsstring :=
  match v with
  | Some (JStr s) => Some s
  | _ => None
  end.

Definition as_number (v : option value) : option number :=
  match v with
  | Some (JNum n) => Some n
  | _ => None
  end.

(** An optional member: absent, or present with a value of the type. *)
Definition as_optional {A} (read : option value -> option A) (v : option value)
  : option (option A) :=
  match v with
  | None => Some None
  | Some _ => match read v with Some a => Some (Some a) | None => None end
  end.

Fixpoint read_all {A} (read : value -> option A) (l : list value) : option (list A) :=
  match l with
  | [] => Some []
  | x :: rest =>
      match read x, read_all read rest with
      | Some a, Some others => Some (a :: others)
      | _, _ => None
      end
  end.

Definition as_array {A} (read : value -> option A) (v : option value) : option (list A) :=
  match v with
  | Some (JArr l) => read_all read l
  | _ => None
  end.

Definition Citation_of_value (v : value) : option Citation :=
  match v with
  | JObj props =>
      match as_string (lookup_prop (lit "title") props),
            as_string (lookup_prop (lit "source") props),
            as_string (lookup_prop (lit "url") props),
            as_optional as_string (lookup_prop (lit "publishedAt") props),
            as_optional as_string (lookup_prop (lit "summary") props) with
      | Some t, Some s, Some u, Some p, Some m =>
          Some {| title := t; source := s; url := u; publishedAt := p; summary := m |}
      | _, _, _, _, _ => None
      end
  | _ => None
  end.

Definition VerificationResult_of_value (v : value) : option VerificationResult :=
  match v with
  | JObj props =>
      match as_string (lookup_prop (lit "verdict") props),
            as_number (lookup_prop (lit "confidence") props),
            as_string (lookup_prop (lit "explanation") props),
            as_optional (as_array Citation_of_value) (lookup_prop (lit "citations") props),
            as_optional as_string (lookup_prop (lit "language") props),
            as_optional as_string (lookup_prop (lit "model") props),
            as_optional as_string (lookup_prop (lit "processingTime") props) with
      | Some vd, Some c, Some e, Some cs, Some l, Some m, Some p =>
          Some {| verdict := vd; confidence := c; explanation := e; citations := cs;
                  language := l; model := m; processingTime := p |}
      | _, _, _, _, _, _, _ => None
      end
  | _ => None
  end.

Definition Verification_of_value (v : value) : option Verification :=
  match v with
  | JObj props =>
      match as_string (lookup_prop (lit "id") props),
            as_string (lookup_prop (lit "input") props),
            match lookup_prop (lit "result") props with
            | Some r => VerificationResult_of_value r
            | None => None
            end,
            as_string (lookup_prop (lit "timestamp") props) with
      | Some i, Some inp, Some r, Some t =>
          Some {| id := i; input := inp; result := r; timestamp := t |}
      | _, _, _, _ => None
      end
  | _ => None
  end.

(** The collection a value is, if it is one. *)
Definition as_collection (v : value) : option (list Verification) :=
  as_array Verification_of_value (Some v).

End Provider.

(* ===================================================================== *)
(** ** Notions for the round trip through JSON *)
(* ===================================================================== *)

Module JsonRoundTrip.
Import Json.

(** What may follow a number in a text: no character that would continue
    it. *)
Definition number_end (rest : jsstring) : Prop :=
  match rest with
  | [] => True
  | c :: _ => is_digit c = false /\ c <> 46 /\ c <> 101 /\ c <> 69
  end.

Definition not_digit_start (rest : jsstring) : Prop :=
  match rest with
  | [] => True
  | c :: _ => is_digit c = false
  end.

(** The names of a list are pairwise different. *)
Fixpoint distinct (ks : list jsstring) : bool :=
  match ks with
  | [] => true
  | k :: rest => negb (existsb (eqb k) rest) && distinct rest
  end.

(** No object of the value has two properties of one name: what every
    object of JavaScript satisfies. *)
Fixpoint unique_keys (v : value) : bool :=
  match v with
  | JArr items => forallb unique_keys items
  | JObj props =>
      distinct (List.map fst props) && forallb (fun kv => unique_keys (snd kv)) props
  | _ => true
  end.

(** The fuel that parsing the text of a value takes at most. *)
Fixpoint weight (v : value) : nat :=
  match v with
  | JArr items => S (list_sum (List.map (fun x => S (weight x)) items))
  | JObj props => S (list_sum (List.map (fun kv => S (weight (snd kv))) props))
  | _ => 1
  end.

(** What may follow a value in a text. *)
Definition value_end (rest : jsstring) : Prop :=
  match rest with
  | [] => True
  | c :: _ => c = 44 \/ c = 93 \/ c = 125
  end.

Ltac decide_eqb :=
  repeat match goal with
         | |- context [?a =? ?b] =>
             first [ replace (a =? b) with false by (symmetry; apply N.eqb_neq; lia)
                   | replace (a =? b) with true by (symmetry; apply N.eqb_eq; lia) ]
         end.

(** What the induction on a value provides for each value nested in it. *)
Definition parses_back (v : value) : Prop :=
  unique_keys v = true ->
  forall fuel rest, value_end rest -> (weight v <= fuel)%nat ->
    parse_value fuel (JSON_stringify v ++ rest) = Parsed v rest.

End JsonRoundTrip.

(* ===================================================================== *)
(** ** Storages for the examples, and the claim on loading as stated *)
(* ===================================================================== *)

Module Persistence.
Import Context Provider Json JsonRoundTrip.

(** A healthy storage that holds nothing, and one that refuses access. *)
Definition emptyStorage : Storage := {| disabled := false; quota := None; items := ∅ |}.
Definition deniedStorage : Storage := {| disabled := true; quota := None; items := ∅ |}.

(** A storage that holds [text] under the key of the provider. *)
Definition storageWith (text : string) : Storage :=
  {| disabled := false; quota := None; items := {[ storageKey := lit text ]} |}.

(** C3, as stated: what the first effect makes of a stored payload that is
    no valid collection is the empty collection. *)
Definition loads_empty_when_invalid : Prop :=
  forall (ls : Storage) (text : jsstring),
    disabled ls = false ->
    items ls !! storageKey = Some text ->
    (forall v, JSON_parse text = Normal v -> as_collection v = None) ->
    exists session, mount ls = Normal session /\ verifications (state session) = JArr [].

End Persistence.

(* ===================================================================== *)
(** ** More of the run time: conversions and string methods *)
(* ===================================================================== *)

(** The rational a number is. *)
Definition Number_value (n : number) : Q :=
  match n with
  | Zero => 0
  | Dec negative high low e =>
      let magnitude :=
        (inject_Z (Z.of_N (10 * high + nzdigit_to_N low)) * Qpower 10 e)%Q in
      if negative then (- magnitude)%Q else magnitude
  end.

(** [x >= k] for a number [x] and a whole literal [k]. *)
Definition Number_ge (x : number) (k : Z) : bool := Qle_bool (inject_Z k) (Number_value x).

(** [v.k] where [v] may be [undefined]: reading a property of [undefined]
    throws as reading one of [null] does. *)
Definition GetV (k : string) (v : option value) : Completion (option value) :=
  match v with
  | None => throwTypeError "Cannot read properties of undefined"
  | Some x => Get k x
  end.

(** [ToString] of a value that [JSON.parse] built.  An array prints its
    elements between commas, [null] as nothing.  An object prints as
    [[object Object]], unless a property of its own hides
    [Object.prototype.toString]: the property is no function, [valueOf]
    gives no primitive, and the conversion throws. *)
Fixpoint ToString (v : value) : Completion jsstring :=
  match v with
  | JNull => Normal (lit "null")
  | JBool b => Normal (if b then lit "true" else lit "false")
  | JNum n => Normal (Json.Number_toString n)
  | JStr s => Normal s
  | JArr items =>
      (fix join (l : list value) : Completion jsstring :=
         match l with
         | [] => Normal []
         | x :: rest =>
             do first <- match x with
                         | JNull => Normal []
                         | _ => ToString x
                         end;
             match rest with
             | [] => Normal first
             | _ :: _ => do others <- join rest; Normal (first ++ 44 :: others)
             end
         end) items
  | JObj props =>
      match lookup_prop (lit "toString") props with
      | Some _ => throwTypeError "Cannot convert object to primitive value"
      | None => Normal (lit "[object Object]")
      end
  end.

(** [WhiteSpace] and [LineTerminator] of ECMAScript: what [trim] removes. *)
Definition is_white_space (c : N) : bool :=
  (c =? 9) || (c =? 10) || (c =? 11) || (c =? 12) || (c =? 13) || (c =? 32)
  || (c =? 160) || (c =? 0x1680) || ((0x2000 <=? c) && (c <=? 0x200A))
  || (c =? 0x2028) || (c =? 0x2029) || (c =? 0x202F) || (c =? 0x205F)
  || (c =? 0x3000) || (c =? 0xFEFF).

Fixpoint String_trimStart (s : jsstring) : jsstring :=
  match s with
  | [] => []
  | c :: rest => if is_white_space c then String_trimStart rest else s
  end.

Definition String_trimEnd (s : jsstring) : jsstring := rev (String_trimStart (rev s)).

(** [s.trim()] *)
Definition String_trim (s : jsstring) : jsstring := String_trimEnd (String_trimStart s).

(** [s.substring(start, end)] for arguments that are whole and not
    negative: both are clamped to the length, and swapped when the first is
    the larger. *)
Definition String_substring (start finish : nat) (s : jsstring) : jsstring :=
  let a := Nat.min start (length s) in
  let b := Nat.min finish (length s) in
  firstn (Nat.max a b - Nat.min a b) (skipn (Nat.min a b) s).

(* ===================================================================== *)
(** ** src/services/api.ts: the client *)
(* ===================================================================== *)

Module ApiClient.
Import NewsApi.

(** The objects the answers of the fallback are: the object literals of
    [getMockVerificationResult], member by member. *)
Definition Citation_to_value (c : Api.Citation) : value :=
  JObj [(lit "title", JStr (Api.title c));
        (lit "source", JStr (Api.source c));
        (lit "url", JStr (Api.url c));
        (lit "publishedAt", JStr (Api.publishedAt c));
        (lit "summary", JStr (Api.summary c))].

Definition VerificationResult_to_value (r : Api.VerificationResult) : value :=
  JObj [(lit "verdict", JStr (Api.Verdict_to_string (Api.verdict r)));
        (lit "confidence", JNum (Api.confidence r));
        (lit "explanation", JStr (Api.explanation r));
        (lit "citations", JArr (List.map Citation_to_value (Api.citations r)));
        (lit "language", JStr (Api.language r));
        (lit "model", JStr (Api.model r));
        (lit "processingTime", JStr (Api.processingTime r))].

(** The body of the request: [JSON.stringify({ input: input, language:
    'auto' })]. *)
Definition requestBody (input : jsstring) : jsstring :=
  Json.JSON_stringify (JObj [(lit "input", JStr input); (lit "language", JStr (lit "auto"))]).

(** The [try] block of [verifyHealthClaim].  A response that is not [ok]
    is turned into an [Error] that carries the [error] member of its body,
    or the words Verification failed when that member is missing or
    falsy; the body of a response that is [ok] is the result, as it is. *)
Definition verifyHealthClaim_try (outcome : FetchOutcome) : Completion value :=
  match outcome with
  | Rejected e => Throw e
  | Responded ok json =>
      if negb ok then
        do errorData <- json;
        do error <- Get "error" errorData;
        do text <- match error with
                   | Some v => if truthy v then ToString v
                               else Normal (lit "Verification failed")
                   | None => Normal (lit "Verification failed")
                   end;
        Throw (mkError PlainError text)
      else json
  end.

(** [verifyHealthClaim]: the [try] block, then the [catch] clause, which
    answers from the fallback when the error is a [TypeError] that
    mentions "fetch" and throws the error again otherwise. *)
Definition verifyHealthClaim (input : jsstring) (outcome : FetchOutcome)
  : Rand (Completion value) :=
  match verifyHealthClaim_try outcome with
  | Normal result => rret (Normal result)
  | Throw error =>
      if instanceof_TypeError error && includes (message error) (lit "fetch")
      then draw result <- Api.getMockVerificationResult input;
           rret (Normal (VerificationResult_to_value result))
      else rret (Throw error)
  end.

(** The error is the connectivity failure the clients fall back on. *)
Definition isConnectivityFailure (e : Error) : bool :=
  instanceof_TypeError e && includes (message e) (lit "fetch").

(** The answer of the fallback as a record of the store. *)
Definition asStored (r : Api.VerificationResult) : Context.VerificationResult :=
  {| Context.verdict := Api.Verdict_to_string (Api.verdict r);
     Context.confidence := Api.confidence r;
     Context.explanation := Api.explanation r;
     Context.citations :=
       Some (List.map (fun c => {| Context.title := Api.title c;
                                   Context.source := Api.source c;
                                   Context.url := Api.url c;
                                   Context.publishedAt := Some (Api.publishedAt c);
                                   Context.summary := Some (Api.summary c) |})
                      (Api.citations r));
     Context.language := Some (Api.language r);
     Context.model := Some (Api.model r);
     Context.processingTime := Some (Api.processingTime r) |}.

End ApiClient.

(* ===================================================================== *)
(** ** src/components/ConfidenceBar.tsx *)
(* ===================================================================== *)

Module ConfidenceBar.

(** [getConfidenceColor] *)
Definition getConfidenceColor (confidence : number) (verdict : jsstring) : jsstring :=
  if Number_ge confidence 80 then
    if eqb (toLowerCase verdict) (lit "true") then lit "bg-green-500"
    else if eqb (toLowerCase verdict) (lit "misleading") then lit "bg-red-500"
    else lit "bg-amber-500"
  else if Number_ge confidence 60 then lit "bg-yellow-500"
  else lit "bg-gray-500".

(** [getConfidenceLabel] *)
Definition getConfidenceLabel (confidence : number) : jsstring :=
  if Number_ge confidence 90 then lit "Very High"
  else if Number_ge confidence 80 then lit "High"
  else if Number_ge confidence 70 then lit "Moderate"
  else if Number_ge confidence 60 then lit "Low"
  else lit "Very Low".

End ConfidenceBar.

(* ===================================================================== *)
(** ** What the pages do besides rendering *)
(* ===================================================================== *)

(** A call of react-hot-toast. *)
Inductive Toast : Type :=
| toast_error (text : jsstring)
| toast_success (text : jsstring).

(** [x.toLowerCase()] for whatever [x] is at run time: a string has the
    method, [undefined] and [null] have no properties, and no other value
    that [JSON.parse] builds has a method of this name. *)
Definition call_toLowerCase (x : option value) : Completion jsstring :=
  match x with
  | Some (JStr s) => Normal (toLowerCase s)
  | None => throwTypeError "Cannot read properties of undefined (reading 'toLowerCase')"
  | Some JNull => throwTypeError "Cannot read properties of null (reading 'toLowerCase')"
  | Some _ => throwTypeError "toLowerCase is not a function"
  end.

(** The provider after the actions of a handler, first to last. *)
Fixpoint dispatch_each (actions : list Context.VerificationAction)
    (session : Provider.Session) : Completion Provider.Session :=
  match actions with
  | [] => Normal session
  | a :: rest => do session' <- Provider.dispatch a session; dispatch_each rest session'
  end.

(* ===================================================================== *)
(** ** src/pages/HistoryPage.tsx: the list *)
(* ===================================================================== *)

Module HistoryList.
Import Context HistoryPage.

(** The callback of [filteredVerifications], on whatever the collection
    holds.  Both constants are computed, the first before the second; each
    [||] stops at its first true operand. *)
Definition keeps (filter : Filter) (searchTerm : jsstring) (verification : value)
  : Completion bool :=
  do matchesFilter <-
    match filter with
    | filter_all => Normal true
    | _ =>
        do result <- Get "result" verification;
        do verdict <- GetV "verdict" result;
        do lower <- call_toLowerCase verdict;
        Normal (eqb lower (String_replace (lit "-") (lit " ") (Filter_to_string filter)))
    end;
  do matchesSearch <-
    (if eqb searchTerm [] then Normal true
     else
       do input <- Get "input" verification;
       do lowerInput <- call_toLowerCase input;
       if includes lowerInput (toLowerCase searchTerm) then Normal true
       else
         do result <- Get "result" verification;
         do explanation <- GetV "explanation" result;
         do lowerExplanation <- call_toLowerCase explanation;
         Normal (includes lowerExplanation (toLowerCase searchTerm)));
  Normal (matchesFilter && matchesSearch).

(** [filteredVerifications] *)
Definition filteredVerifications (filter : Filter) (searchTerm : jsstring)
    (verifications : value) : Completion value :=
  Array_filter (keeps filter searchTerm) verifications.

(** The same test on a record of the declared type. *)
Definition matches (filter : Filter) (searchTerm : jsstring) (v : Verification) : bool :=
  matchesFilter filter (verdict (result v))
  && (eqb searchTerm []
      || includes (toLowerCase (input v)) (toLowerCase searchTerm)
      || includes (toLowerCase (explanation (result v))) (toLowerCase searchTerm)).

(** The text of a card: the whole text up to [limit] code units, its first
    [limit] code units and three dots beyond. *)
Definition excerpt (limit : nat) (text : jsstring) : jsstring :=
  if (limit <? length text)%nat
  then String_substring 0 limit text ++ lit "..."
  else text.

(** The claim and the explanation of a card. *)
Definition claimExcerpt (v : Verification) : jsstring := excerpt 200 (input v).
Definition explanationExcerpt (v : Verification) : jsstring :=
  excerpt 300 (explanation (result v)).

(** [handleClearHistory]: the action dispatched and the toast shown, given
    the answer to the [confirm] dialogue. *)
Definition handleClearHistory (confirmed : bool) : list VerificationAction * list Toast :=
  if confirmed
  then ([clearHistory], [toast_success (lit "History cleared successfully")])
  else ([], []).

End HistoryList.

(* ===================================================================== *)
(** ** [encodeURIComponent] *)
(* ===================================================================== *)

(** What [encodeURIComponent] comes to: the encoded text, or a
    [URIError]. *)
Inductive UriResult : Type :=
| Encoded (text : jsstring)
| URIError.

(** The characters [encodeURIComponent] leaves as they are: the letters
    and digits of ASCII and [- _ . ! ~ * ' ( )]. *)
Definition is_unreserved (c : N) : bool :=
  ((65 <=? c) && (c <=? 90)) || ((97 <=? c) && (c <=? 122)) || ((48 <=? c) && (c <=? 57))
  || (c =? 45) || (c =? 95) || (c =? 46) || (c =? 33) || (c =? 126) || (c =? 42)
  || (c =? 39) || (c =? 40) || (c =? 41).

Definition hex_upper (n : N) : N := if n <? 10 then 48 + n else 55 + n.

(** One octet as [%XX]. *)
Definition percent (octet : N) : jsstring := [37; hex_upper (octet / 16); hex_upper (octet mod 16)].

(** The octets of a code point in UTF-8. *)
Definition utf8 (cp : N) : list N :=
  if cp <? 0x80 then [cp]
  else if cp <? 0x800 then [0xC0 + cp / 64; 0x80 + cp mod 64]
  else if cp <? 0x10000 then [0xE0 + cp / 4096; 0x80 + (cp / 64) mod 64; 0x80 + cp mod 64]
  else [0xF0 + cp / 262144; 0x80 + (cp / 4096) mod 64; 0x80 + (cp / 64) mod 64;
        0x80 + cp mod 64].

Definition escape (cp : N) : jsstring := List.concat (List.map percent (utf8 cp)).

Definition uri_prepend (front : jsstring) (r : UriResult) : UriResult :=
  match r with
  | Encoded text => Encoded (front ++ text)
  | URIError => URIError
  end.

(** [encodeURIComponent(s)]: code point by code point; a surrogate that
    is not half of a pair throws. *)
Fixpoint encodeURIComponent (s : jsstring) : UriResult :=
  match s with
  | [] => Encoded []
  | c :: rest =>
      if is_unreserved c then uri_prepend [c] (encodeURIComponent rest)
      else if is_low_surrogate c then URIError
      else if is_high_surrogate c then
        match rest with
        | d :: rest' =>
            if is_low_surrogate d
            then uri_prepend (escape (0x10000 + (c - 0xD800) * 0x400 + (d - 0xDC00)))
                             (encodeURIComponent rest')
            else URIError
        | [] => URIError
        end
      else uri_prepend (escape c) (encodeURIComponent rest)
  end.

(** [s.isWellFormed()]: no surrogate of [s] stands alone. *)
Fixpoint isWellFormed (s : jsstring) : bool :=
  match s with
  | [] => true
  | c :: rest =>
      if is_low_surrogate c then false
      else if is_high_surrogate c then
        match rest with
        | d :: rest' => is_low_surrogate d && isWellFormed rest'
        | [] => false
        end
      else isWellFormed rest
  end.

(** A character of an encoded text: one that needs no escape, or the
    per cent sign. *)
Definition is_encoded_char (c : N) : Prop := is_unreserved c = true \/ c = 37.

(** The strings of 16-bit code units: the strings of JavaScript. *)
Definition code_units (s : jsstring) : Prop := Forall (fun c => c < 65536) s.

(* ===================================================================== *)
(** ** src/pages/ResultsPage.tsx: the look-up and the links *)
(* ===================================================================== *)

Module ResultsPageView.
Import Context.

(** The effect of the page: [if (id) { setVerification(getVerification(id)) }],
    for the [id] of the route, on a [verification] that starts as [null]. *)
Definition lookupEffect (id : option jsstring) (state : VerificationState)
  : Completion (option value) :=
  match id with
  | Some ((_ :: _) as i) => getVerification state i
  | _ => Normal None
  end.

(** What the page renders. *)
Inductive Screen : Type :=
| NotFound
| Details (verification : value).

(** [if (!verification)] *)
Definition screen (verification : option value) : Screen :=
  match verification with
  | Some v => if truthy v then Details v else NotFound
  | None => NotFound
  end.

(** The [href] of the WhatsApp link, for the verdict of the record and
    [window.location.href]. *)
Definition whatsAppLink (verdict href : jsstring) : UriResult :=
  uri_prepend (lit "https://wa.me/?text=")
    (encodeURIComponent (lit "Health Fact Check: " ++ verdict ++ lit " - " ++ href)).

End ResultsPageView.

(* ===================================================================== *)
(** ** src/pages/LandingPage.tsx *)
(* ===================================================================== *)

Module LandingPage.
Import Context NewsApi ApiClient.

(** The clock, as [handleSubmit] reads it once the answer has arrived:
    [Date.now()] and [new Date().toISOString()]. *)
Record Clock : Type := {
  now : Z;
  isoString : jsstring
}.

(** What a submission does to the rest of the application: the actions it
    dispatches to the store, the paths it navigates to, the toasts it
    shows, and its calls of [setIsProcessing], each list first to last. *)
Record Submission : Type := {
  dispatched : list VerificationAction;
  navigated : list jsstring;
  toasts : list Toast;
  processing : list bool
}.

(** The record [handleSubmit] builds from an answer. *)
Definition newVerification (input : jsstring) (result : value) (clock : Clock) : value :=
  JObj [(lit "id", JStr (Json.Number_toString (number_of_Z (now clock))));
        (lit "input", JStr input);
        (lit "result", result);
        (lit "timestamp", JStr (isoString clock))].

(** [handleSubmit] *)
Definition handleSubmit (input : jsstring) (outcome : FetchOutcome) (clock : Clock)
  : Rand Submission :=
  match String_trim input with
  | [] =>
      rret {| dispatched := []; navigated := [];
              toasts := [toast_error (lit "Please enter a health claim or article URL")];
              processing := [] |}
  | _ :: _ =>
      draw answer <- verifyHealthClaim input outcome;
      match answer with
      | Normal result =>
          let verification := newVerification input result clock in
          rret {| dispatched := [ADD_VERIFICATION verification];
                  navigated :=
                    [lit "/results/" ++ Json.Number_toString (number_of_Z (now clock))];
                  toasts := [toast_success (lit "Analysis completed successfully!")];
                  processing := [true; false] |}
      | Throw error =>
          rret {| dispatched := []; navigated := [];
                  toasts := [toast_error (lit "Failed to analyze the claim. Please try again.")];
                  processing := [true; false] |}
      end
  end.

End LandingPage.

(* ===================================================================== *)
(** ** src/App.tsx: the theme *)
(* ===================================================================== *)

Module App.
Import Provider.

Definition themeKey : jsstring := lit "theme".

(** The first effect: the theme it sets.  A saved theme, when one is
    stored and not empty, is taken as it is; otherwise the preference of
    the system decides. *)
Definition loadThemeEffect (prefersDark : bool) (ls : Storage) : Completion jsstring :=
  do savedTheme <- getItem themeKey ls;
  match savedTheme with
  | Some ((_ :: _) as theme) => Normal theme
  | _ => Normal (if prefersDark then lit "dark" else lit "light")
  end.

(** The application at rest: the theme of the state, whether the
    document carries the class [dark], and the storage. *)
Record Page : Type := {
  theme : jsstring;
  darkClass : bool;
  localStorage : Storage
}.

(** The second effect, for a theme: it sets or removes the class and saves
    the theme.  Neither effect has a [try]: what the storage throws, the
    effect throws. *)
Definition applyThemeEffect (theme : jsstring) (ls : Storage) : Completion Page :=
  do ls' <- setItem themeKey theme ls;
  Normal {| theme := theme; darkClass := eqb theme (lit "dark"); localStorage := ls' |}.

(** Mounting the application.  After the first render, with the theme
    light, the first effect reads the storage and sets the theme, and the
    second effect applies the theme light; when the theme set is another
    one, the application renders again and the second effect applies it. *)
Definition mount (prefersDark : bool) (ls : Storage) : Completion Page :=
  do loaded <- loadThemeEffect prefersDark ls;
  do first <- applyThemeEffect (lit "light") ls;
  if eqb loaded (lit "light") then Normal first
  else applyThemeEffect loaded (localStorage first).

(** [toggleTheme], and the second effect that follows the change. *)
Definition toggleTheme (page : Page) : Completion Page :=
  applyThemeEffect (if eqb (theme page) (lit "light") then lit "dark" else lit "light")
                   (localStorage page).

End App.

(* ===================================================================== *)
(** ** src/components/CitationCard.tsx *)
(* ===================================================================== *)

Module CitationCard.

(** The icons, as the strings of the source: a hospital, a classical
    building (with its variation selector), books, a graduation cap and a
    page. *)
Definition hospital : jsstring := [0xD83C; 0xDFE5].
Definition classicalBuilding : jsstring := [0xD83C; 0xDFDB; 0xFE0F].
Definition books : jsstring := [0xD83D; 0xDCDA].
Definition graduationCap : jsstring := [0xD83C; 0xDF93].
Definition page : jsstring := [0xD83D; 0xDCC4].

(** [getSourceIcon] *)
Definition getSourceIcon (source : jsstring) : jsstring :=
  let lowerSource := toLowerCase source in
  if includes lowerSource (lit "who") then hospital
  else if includes lowerSource (lit "cdc") then classicalBuilding
  else if includes lowerSource (lit "pubmed") || includes lowerSource (lit "ncbi") then books
  else if includes lowerSource (lit "mayo") then hospital
  else if includes lowerSource (lit "harvard") || includes lowerSource (lit "medical")
  then graduationCap
  else page.

End CitationCard.

(* ===================================================================== *)
(** ** The news panel (components/TrustedNews.tsx) *)
(* ===================================================================== *)

Module TrustedNews.

(** [getSourceColor]: a [switch] on the source in lower case. *)
Definition getSourceColor (source : jsstring) : jsstring :=
  let s := toLowerCase source in
  if eqb s (lit "who") then lit "bg-blue-100 text-blue-800 dark:bg-blue-900/30 dark:text-blue-300"
  else if eqb s (lit "cdc")
  then lit "bg-green-100 text-green-800 dark:bg-green-900/30 dark:text-green-300"
  else if eqb s (lit "pubmed")
  then lit "bg-purple-100 text-purple-800 dark:bg-purple-900/30 dark:text-purple-300"
  else lit "bg-gray-100 text-gray-800 dark:bg-gray-900/30 dark:text-gray-300".

(** The state of the panel: [news], [isLoading], and the time of
    [lastUpdated] ([null] at first). *)
Record Panel : Type := {
  news : value;
  isLoading : bool;
  lastUpdated : option Z
}.

(** [useState([])], [useState(true)], [useState(null)] *)
Definition initialPanel : Panel :=
  {| news := JArr []; isLoading := true; lastUpdated := None |}.

Section Engine.

Variable Array_sort : forall A : Type, (A -> A -> Rand Q) -> list A -> Rand (list A).


End Engine.

End TrustedNews.

(* ##################################################################### *)
(** * Theorems *)
(* ##################################################################### *)

(* ===================================================================== *)
(** ** Facts. Strings *)
(* ===================================================================== *)

Module JsStringFacts.

Lemma eqb_eq a b : eqb a b = true <-> a = b.
Proof. unfold eqb. apply bool_decide_eq_true. Qed.

Lemma eqb_neq a b : eqb a b = false <-> a <> b.
Proof. unfold eqb. apply bool_decide_eq_false. Qed.

Lemma eqb_refl a : eqb a a = true.
Proof. now apply eqb_eq. Qed.

Lemma startsWith_spec s p :
  startsWith s p = true <-> exists rest, s = p ++ rest.
Proof.
  revert s; induction p as [|a p IH]; intros s; simpl.
  - split; [intros _; now exists s | reflexivity].
  - destruct s as [|b s]; simpl.
    + split; [discriminate | intros [r Hr]; discriminate].
    + rewrite andb_true_iff, N.eqb_eq, IH. split.
      * intros [-> [r ->]]. now exists r.
      * intros [r Hr]. injection Hr as -> ->. split; [reflexivity | now exists r].
Qed.

Lemma includes_spec s needle :
  includes s needle = true <-> exists before rest, s = before ++ needle ++ rest.
Proof.
  induction s as [|c s IH]; simpl.
  - rewrite orb_false_r, startsWith_spec. split.
    + intros [r Hr]. now exists [], r.
    + intros [b [r Hr]]. destruct b; simpl in Hr.
      * now exists r.
      * discriminate.
  - rewrite orb_true_iff, startsWith_spec, IH. split.
    + intros [[r Hr] | [b [r Hr]]].
      * now exists [], r.
      * exists (c :: b), r. simpl. now rewrite Hr.
    + intros [b [r Hr]]. destruct b as [|c' b]; simpl in Hr.
      * left. now exists r.
      * right. injection Hr as -> ->. now exists b, r.
Qed.

End JsStringFacts.
Import JsStringFacts.

(* ===================================================================== *)
(** ** Facts. The history store: reducer and lookup *)
(* ===================================================================== *)

Module StoreFacts.
Import Context Store.

Lemma Get_id_record (v : Verification) :
  Get_id (Verification_to_value v) = Normal (Some (JStr (id v))).
Proof. reflexivity. Qed.

Lemma filterM_records (i : jsstring) (vs : list Verification) :
  filterM (fun v => do x <- Get_id v; Normal (negb (strict_equals_string x i)))
          (List.map Verification_to_value vs)
  = Normal (List.map Verification_to_value (remove_all i vs)).
Proof.
  induction vs as [|v vs IH]; [reflexivity|].
  cbn [List.map filterM]. rewrite Get_id_record. cbn [bind strict_equals_string].
  rewrite IH. cbn [bind remove_all List.filter].
  now destruct (eqb (id v) i).
Qed.

Lemma findM_records (i : jsstring) (vs : list Verification) :
  findM (fun v => do x <- Get_id v; Normal (strict_equals_string x i))
        (List.map Verification_to_value vs)
  = Normal (option_map Verification_to_value (find_id i vs)).
Proof.
  induction vs as [|v vs IH]; [reflexivity|].
  cbn [List.map findM]. rewrite Get_id_record. cbn [bind strict_equals_string find_id List.find].
  now destruct (eqb (id v) i).
Qed.

Lemma getVerification_collection (i : jsstring) (vs : list Verification) :
  getVerification {| verifications := collection vs |} i
  = Normal (option_map Verification_to_value (find_id i vs)).
Proof. apply findM_records. Qed.

Lemma reducer_remove_collection (i : jsstring) (vs : list Verification) :
  verificationReducer {| verifications := collection vs |} (removeVerification i)
  = Normal {| verifications := collection (remove_all i vs) |}.
Proof.
  unfold verificationReducer, removeVerification, collection; cbn [verifications Array_filter].
  now rewrite filterM_records.
Qed.

Lemma dispatch_adds (vs : list Verification) (items : list value) :
  dispatch_all {| verifications := JArr items |} (List.map addVerification vs)
  = Normal {| verifications := JArr (List.map Verification_to_value (rev vs) ++ items) |}.
Proof.
  revert items; induction vs as [|v vs IH]; intros items; [reflexivity|].
  cbn [List.map dispatch_all addVerification verificationReducer verifications spread bind].
  fold (addVerification). rewrite IH.
  cbn [rev]. now rewrite List.map_app, <- List.app_assoc.
Qed.

Lemma find_id_app (i : jsstring) (front back : list Verification) :
  (forall x, In x front -> id x <> i) ->
  find_id i (front ++ back) = find_id i back.
Proof.
  induction front as [|x front IH]; intros Hno; [reflexivity|].
  cbn [app find_id List.find].
  destruct (eqb (id x) i) eqn:E.
  - apply eqb_eq in E. exfalso. apply (Hno x); [now left | exact E].
  - apply IH. intros y Hy. apply Hno. now right.
Qed.

Lemma find_id_head (v : Verification) (back : list Verification) :
  find_id (id v) (v :: back) = Some v.
Proof. cbn [find_id List.find]. now rewrite eqb_refl. Qed.

Lemma find_id_unique (v : Verification) (vs : list Verification) :
  List.NoDup (List.map id vs) -> In v vs -> find_id (id v) vs = Some v.
Proof.
  induction vs as [|x vs IH]; intros Hnd Hin; [destruct Hin|].
  cbn [List.map] in Hnd. apply List.NoDup_cons_iff in Hnd as [Hx Hnd].
  destruct Hin as [-> | Hin]; [apply find_id_head|].
  cbn [find_id List.find]. destruct (eqb (id x) (id v)) eqn:E.
  - apply eqb_eq in E. exfalso. apply Hx. rewrite E. now apply List.in_map.
  - now apply IH.
Qed.

Lemma find_id_remove_all (i : jsstring) (vs : list Verification) :
  find_id i (remove_all i vs) = None.
Proof.
  induction vs as [|v vs IH]; [reflexivity|].
  cbn [remove_all List.filter]. destruct (eqb (id v) i) eqn:E; cbn [negb].
  - exact IH.
  - cbn [find_id List.find]. rewrite E. exact IH.
Qed.

Lemma remove_all_absent (i : jsstring) (vs : list Verification) :
  ~ In i (List.map id vs) -> remove_all i vs = vs.
Proof.
  induction vs as [|v vs IH]; intros Hno; [reflexivity|].
  cbn [remove_all List.filter]. destruct (eqb (id v) i) eqn:E; cbn [negb].
  - apply eqb_eq in E. exfalso. apply Hno. now left.
  - f_equal. apply IH. intros Hin. apply Hno. now right.
Qed.

Lemma remove_all_unique (i : jsstring) (vs : list Verification) :
  List.NoDup (List.map id vs) -> remove_all i vs = remove_first i vs.
Proof.
  induction vs as [|v vs IH]; intros Hnd; [reflexivity|].
  cbn [List.map] in Hnd. apply List.NoDup_cons_iff in Hnd as [Hv Hnd].
  cbn [remove_all List.filter remove_first]. destruct (eqb (id v) i) eqn:E; cbn [negb].
  - apply eqb_eq in E. subst i. now apply remove_all_absent.
  - f_equal. now apply IH.
Qed.

Lemma filterM_sublist {A} (f : A -> Completion bool) (l kept : list A) :
  filterM f l = Normal kept -> sublist kept l.
Proof.
  revert kept; induction l as [|x l IH]; intros kept; cbn [filterM].
  - intros [= <-]. constructor.
  - destruct (f x) as [keep|e]; cbn [bind]; [|discriminate].
    destruct (filterM f l) as [kept'|e]; cbn [bind]; [|discriminate].
    intros [= <-]. destruct keep; [apply sublist_skip | apply sublist_cons]; now apply IH.
Qed.

(** C1.  After any sequence of [add] calls whose record ids are pairwise
    distinct, issued on the fresh store, the collection lists the records
    most recently added first (each [add] put its record in front), and
    [get(id)] of every added record returns exactly that record. *)
Theorem add_sequence_then_get (vs : list Verification) :
  List.NoDup (List.map id vs) ->
  exists state',
    dispatch_all initialState (List.map addVerification vs) = Normal state' /\
    verifications state' = collection (rev vs) /\
    forall v, In v vs ->
      getVerification state' (id v) = Normal (Some (Verification_to_value v)).
Proof.
  intros Hnd. eexists. split; [apply dispatch_adds|]. rewrite List.app_nil_r.
  split; [reflexivity|]. intros v Hin.
  change (JArr (List.map Verification_to_value (rev vs))) with (collection (rev vs)).
  rewrite getVerification_collection, find_id_unique; [reflexivity | | now apply List.in_rev in Hin].
  rewrite List.map_rev. now apply List.NoDup_rev.
Qed.

Lemma add_sequence_then_get_witness :
  exists state',
    dispatch_all initialState (List.map addVerification [record_A; record_B]) = Normal state' /\
    verifications state' = collection [record_B; record_A] /\
    forall v, In v [record_A; record_B] ->
      getVerification state' (id v) = Normal (Some (Verification_to_value v)).
Proof.
  apply (add_sequence_then_get [record_A; record_B]).
  repeat constructor; cbn; intros H; repeat destruct H as [H|H]; try discriminate H; exact H.
Defined.

(** C2, as stated: [remove(id)] takes out the first record whose id is the
    argument, whatever the collection.  It fails on a collection that holds
    two records of one id: the reducer's [filter] takes out both, where
    removing the first would leave the second. *)
Lemma remove_first_only_counterexample :
  verificationReducer {| verifications := collection [record_A; record_A'] |}
                      (removeVerification (lit "1"))
    = Normal {| verifications := collection [] |} /\
  remove_first (lit "1") [record_A; record_A'] = [record_A'] /\
  collection [] <> collection (remove_first (lit "1") [record_A; record_A']).
Proof.
  split; [reflexivity|]. split; [reflexivity|]. discriminate.
Qed.

(** C2, amended.  [remove(id)] takes out every record whose id is the
    argument, which is the first and only one when ids are unique; it raises
    no error, leaves the collection as it was when no record has that id,
    and afterwards [get(id)] finds nothing. *)
Theorem remove_then_get_absent (vs : list Verification) (i : jsstring) :
  exists state',
    verificationReducer {| verifications := collection vs |} (removeVerification i)
      = Normal state' /\
    verifications state' = collection (remove_all i vs) /\
    (forall v, In v (remove_all i vs) <-> In v vs /\ id v <> i) /\
    (List.NoDup (List.map id vs) -> remove_all i vs = remove_first i vs) /\
    (~ In i (List.map id vs) -> verifications state' = collection vs) /\
    getVerification state' i = Normal None.
Proof.
  eexists. split; [apply reducer_remove_collection|]. cbn [verifications].
  split; [reflexivity|]. split; [|split; [|split]].
  - intros v. unfold remove_all. rewrite List.filter_In, negb_true_iff, eqb_neq. reflexivity.
  - apply remove_all_unique.
  - intros Hno. now rewrite remove_all_absent.
  - now rewrite getVerification_collection, find_id_remove_all.
Qed.

(** C8.  Whatever the action, the records of the new collection are records
    the action supplied (the payload of an [add], the elements of a load)
    followed by records of the old collection, each one identical to what
    it was and in the old order: the reducer drops or keeps a record and
    never builds a changed one. *)
Theorem records_kept_or_removed
  (items : list value) (action : VerificationAction) (state' : VerificationState) :
  verificationReducer {| verifications := JArr items |} action = Normal state' ->
  exists fresh kept,
    records_of (verifications state') = fresh ++ kept /\
    sublist kept items /\
    (forall r, In r fresh -> In r (supplied action)).
Proof.
  destruct action as [payload|payload| |payload];
    cbn [verificationReducer verifications spread bind Array_filter].
  - intros [= <-]. exists [payload], items. cbn. repeat split; [reflexivity|]. auto.
  - destruct (filterM _ items) as [kept|e] eqn:E; cbn [bind]; [|discriminate].
    intros [= <-]. exists [], kept. cbn. repeat split.
    + now apply filterM_sublist in E.
    + intros r [].
  - intros [= <-]. exists [], []. cbn. repeat split; [apply sublist_nil_l | intros r []].
  - intros [= <-]. exists (records_of payload), []. cbn. rewrite List.app_nil_r.
    repeat split; [apply sublist_nil_l | auto].
Qed.

Lemma records_kept_or_removed_witness :
  exists fresh kept,
    records_of (collection [record_B]) = fresh ++ kept /\
    sublist kept (List.map Verification_to_value [record_B; record_A]) /\
    (forall r, In r fresh -> In r (supplied (removeVerification (lit "1")))).
Proof.
  apply (records_kept_or_removed (List.map Verification_to_value [record_B; record_A])
           (removeVerification (lit "1")) {| verifications := collection [record_B] |}).
  reflexivity.
Defined.

(** C10.  When several records of the sequence of [add] calls carry one id,
    [get(id)] returns the one added last: it is the first match from the
    front of the collection, which holds the most recent record first. *)
Theorem get_returns_most_recent (earlier later : list Verification) (v : Verification) :
  (forall x, In x later -> id x <> id v) ->
  exists state',
    dispatch_all initialState (List.map addVerification (earlier ++ v :: later))
      = Normal state' /\
    verifications state' = collection (rev later ++ v :: rev earlier) /\
    getVerification state' (id v) = Normal (Some (Verification_to_value v)).
Proof.
  intros Hlater. eexists. split; [apply dispatch_adds|].
  rewrite List.app_nil_r, List.rev_app_distr. cbn [rev]. rewrite <- List.app_assoc. cbn [app].
  split; [reflexivity|].
  change (JArr (List.map Verification_to_value ?l)) with (collection l).
  rewrite getVerification_collection, find_id_app, find_id_head; [reflexivity|].
  intros x Hx. apply Hlater. now apply List.in_rev.
Qed.

Lemma get_returns_most_recent_witness :
  exists state',
    dispatch_all initialState (List.map addVerification ([record_A] ++ record_A' :: [record_B]))
      = Normal state' /\
    verifications state' = collection (rev [record_B] ++ record_A' :: rev [record_A]) /\
    getVerification state' (id record_A') = Normal (Some (Verification_to_value record_A')).
Proof.
  apply (get_returns_most_recent [record_A] [record_B] record_A').
  intros x [<- | []]. discriminate.
Defined.

(** After [clear], whatever the state was, the collection is empty, and an
    [add] that follows works as on a fresh store. *)
Theorem clear_then_add (state : VerificationState) (v : Verification) :
  verificationReducer state clearHistory = Normal initialState /\
  dispatch_all state [clearHistory; addVerification v]
    = Normal {| verifications := collection [v] |}.
Proof. split; reflexivity. Qed.

(** The scenario of the specification: [add] of the record with id "1",
    then of the record with id "2"; [get("1")] returns the first record and
    the collection lists the ids "2", "1". *)
Theorem add_two_scenario :
  exists state',
    dispatch_all initialState [addVerification record_A; addVerification record_B]
      = Normal state' /\
    getVerification state' (lit "1") = Normal (Some (Verification_to_value record_A)) /\
    verifications state' = collection [record_B; record_A] /\
    List.map id [record_B; record_A] = [lit "2"; lit "1"].
Proof. eexists. repeat split. Qed.

End StoreFacts.

(* ===================================================================== *)
(** ** Facts. The rendering configuration of a verdict *)
(* ===================================================================== *)

Module ResultsPageFacts.
Import ResultsPage.

(** C9.  A verdict that is neither "true" nor "misleading", whatever the
    case of its letters, gets the Needs Review configuration, on the
    results page and on the history page: any string outside the taxonomy
    included. *)
Theorem other_verdicts_need_review (verdict : jsstring) :
  ~ equalsIgnoreCase verdict (lit "true") ->
  ~ equalsIgnoreCase verdict (lit "misleading") ->
  getVerdictConfig verdict = needsReviewConfig /\
  label (getVerdictConfig verdict) = lit "Needs Review" /\
  icon (getVerdictConfig verdict) = AlertTriangle /\
  HistoryPage.label (HistoryPage.getVerdictConfig verdict) = lit "Needs Review" /\
  HistoryPage.icon (HistoryPage.getVerdictConfig verdict) = AlertTriangle.
Proof.
  unfold equalsIgnoreCase, getVerdictConfig, HistoryPage.getVerdictConfig. intros Htrue Hmis.
  change (toLowerCase (lit "true")) with (lit "true") in Htrue.
  change (toLowerCase (lit "misleading")) with (lit "misleading") in Hmis.
  apply eqb_neq in Htrue, Hmis. rewrite Htrue, Hmis. repeat split; reflexivity.
Qed.

Lemma other_verdicts_need_review_witness :
  getVerdictConfig (lit "Unverified") = needsReviewConfig /\
  label (getVerdictConfig (lit "Unverified")) = lit "Needs Review" /\
  icon (getVerdictConfig (lit "Unverified")) = AlertTriangle /\
  HistoryPage.label (HistoryPage.getVerdictConfig (lit "Unverified")) = lit "Needs Review" /\
  HistoryPage.icon (HistoryPage.getVerdictConfig (lit "Unverified")) = AlertTriangle.
Proof.
  apply (other_verdicts_need_review (lit "Unverified")); unfold equalsIgnoreCase;
    vm_compute; discriminate.
Defined.

(** The two verdicts of the taxonomy that have a configuration of their
    own, in any case of their letters. *)
Theorem taxonomy_verdicts_configured (verdict : jsstring) :
  (equalsIgnoreCase verdict (lit "true") ->
   label (getVerdictConfig verdict) = lit "Verified True" /\
   icon (getVerdictConfig verdict) = CheckCircle) /\
  (equalsIgnoreCase verdict (lit "misleading") ->
   label (getVerdictConfig verdict) = lit "Misleading" /\
   icon (getVerdictConfig verdict) = XCircle).
Proof.
  unfold equalsIgnoreCase, getVerdictConfig. split; intros ->.
  - split; reflexivity.
  - split; reflexivity.
Qed.

(** The filter of the history page is stricter than the rendering: under
    "needs-review" it keeps the verdicts that read "needs review" up to the
    case of their letters, so a record whose verdict lies outside the
    taxonomy is drawn as Needs Review and listed under "all" only. *)
Theorem needs_review_filter_is_exact (verdict : jsstring) :
  (HistoryPage.matchesFilter HistoryPage.filter_needs_review verdict = true
   <-> equalsIgnoreCase verdict (lit "needs review")) /\
  HistoryPage.matchesFilter HistoryPage.filter_all verdict = true /\
  HistoryPage.matchesFilter HistoryPage.filter_needs_review (lit "Unverified") = false.
Proof.
  unfold HistoryPage.matchesFilter, equalsIgnoreCase. split; [|split; reflexivity].
  change (HistoryPage.String_replace (lit "-") (lit " ")
            (HistoryPage.Filter_to_string HistoryPage.filter_needs_review))
    with (lit "needs review").
  change (toLowerCase (lit "needs review")) with (lit "needs review").
  apply eqb_eq.
Qed.

End ResultsPageFacts.

(* ===================================================================== *)
(** ** Facts. The fallback clients *)
(* ===================================================================== *)

Module FallbackFacts.
Import Fallback.

Lemma sample_in_range (u : sample) : (0 <= outcome u < 1)%Q.
Proof.
  destruct u as [q Hq]; cbn. apply andb_true_iff in Hq as [H0 H1].
  apply Qle_bool_iff in H0. split; [exact H0|].
  apply negb_true_iff in H1. apply Qnot_le_lt. intros Hle.
  apply Qle_bool_iff in Hle. congruence.
Qed.

(** [Math.floor(a + Math.random() * n)] is one of [a], ..., [a + n - 1]. *)
Lemma floor_of_scaled_sample (u : sample) (a n : Z) :
  (0 < n)%Z ->
  (a <= Math_floor (inject_Z a + outcome u * inject_Z n) <= a + n - 1)%Z.
Proof.
  intros Hn. pose proof (sample_in_range u) as [H0 H1]. unfold Math_floor.
  assert (Hn' : (inject_Z 0 < inject_Z n)%Q) by (rewrite <- Zlt_Qlt; exact Hn).
  change (inject_Z 0) with 0%Q in Hn'.
  set (x := (inject_Z a + outcome u * inject_Z n)%Q).
  assert (Hlo : (inject_Z a <= x)%Q) by (unfold x; nra).
  assert (Hhi : (x < inject_Z (a + n))%Q) by (unfold x; rewrite inject_Z_plus; nra).
  split.
  - rewrite <- (Qfloor_Z a). now apply Qfloor_resp_le.
  - enough (Qfloor x < a + n)%Z by lia.
    rewrite Zlt_Qlt. eapply Qle_lt_trans; [apply Qfloor_le | exact Hhi].
Qed.

Lemma includes_toLowerCase (s word : jsstring) :
  includes (toLowerCase s) (toLowerCase word) = true <-> contains_ignoring_case s word.
Proof.
  unfold contains_ignoring_case, toLowerCase. rewrite includes_spec. split.
  - intros (before & rest & H).
    apply List.map_eq_app in H as (b' & x & -> & Hb & Hx).
    apply List.map_eq_app in Hx as (w & r' & -> & Hw & Hr).
    exists w. split; [exact Hw|]. apply includes_spec. now exists b', r'.
  - intros (w & Hw & Hin). apply includes_spec in Hin as (b & r & ->).
    exists (List.map lower_unit b), (List.map lower_unit r).
    now rewrite !List.map_app, Hw.
Qed.

(** The citations of every answer: the first one, two or three of the
    fixed list, as the draw decides. *)
Lemma citations_drawn (u : sample) :
  exists k, (1 <= k <= 3)%nat /\
    Array_slice 0 (Math_floor (1 + outcome u * 3)) Api.mockCitations
    = firstn k Api.mockCitations.
Proof.
  pose proof (floor_of_scaled_sample u 1 3 eq_refl) as H.
  change (inject_Z 1) with 1%Q in H. change (inject_Z 3) with 3%Q in H.
  remember (Math_floor (1 + outcome u * 3)) as k eqn:Ek. clear Ek.
  assert (Hk : k = 1%Z \/ k = 2%Z \/ k = 3%Z) by lia.
  destruct Hk as [-> | [-> | ->]];
    [exists 1%nat | exists 2%nat | exists 3%nat]; (split; [lia | reflexivity]).
Qed.

Lemma mock_vaccine_autism (input : jsstring) (s : randomness) :
  includes (toLowerCase input) (lit "vaccine") = true ->
  includes (toLowerCase input) (lit "autism") = true ->
  fst (Api.getMockVerificationResult input s)
  = {| Api.verdict := Api.verdict_misleading;
       Api.confidence := number_of_Z 95;
       Api.explanation := Api.vaccineExplanation;
       Api.citations :=
         Array_slice 0 (Math_floor (1 + outcome (s 1%nat) * 3)) Api.mockCitations;
       Api.language := lit "English";
       Api.model := lit "BioBERT + GPT-4";
       Api.processingTime := Number_toFixed 1 (2 + outcome (s 2%nat) * 2) ++ lit "s" |}.
Proof.
  intros Hv Ha. unfold Api.getMockVerificationResult, rbind, Math_random, rret.
  rewrite Hv, Ha. reflexivity.
Qed.

Lemma mock_lemon (input : jsstring) (s : randomness) :
  includes (toLowerCase input) (lit "vaccine")
    && includes (toLowerCase input) (lit "autism") = false ->
  includes (toLowerCase input) (lit "lemon") = true ->
  fst (Api.getMockVerificationResult input s)
  = {| Api.verdict := Api.verdict_needs_review;
       Api.confidence := number_of_Z 72;
       Api.explanation := Api.lemonExplanation;
       Api.citations :=
         Array_slice 0 (Math_floor (1 + outcome (s 1%nat) * 3)) Api.mockCitations;
       Api.language := lit "English";
       Api.model := lit "BioBERT + GPT-4";
       Api.processingTime := Number_toFixed 1 (2 + outcome (s 2%nat) * 2) ++ lit "s" |}.
Proof.
  intros Hv Hl. unfold Api.getMockVerificationResult, rbind, Math_random, rret.
  rewrite Hv, Hl. reflexivity.
Qed.

(** C5, as stated: two fixed citations for every outcome of the randomness.
    On the input "Vaccines cause autism", when the generator delivers 0 the
    answer carries one citation. *)
Lemma vaccine_autism_two_citations_counterexample :
  contains_ignoring_case (lit "Vaccines cause autism") (lit "vaccine") /\
  contains_ignoring_case (lit "Vaccines cause autism") (lit "autism") /\
  length (Api.citations
            (fst (Api.getMockVerificationResult (lit "Vaccines cause autism")
                    (fun _ => sample_0)))) = 1%nat.
Proof.
  split; [|split].
  - apply (includes_toLowerCase _ (lit "vaccine")). reflexivity.
  - apply (includes_toLowerCase _ (lit "autism")). reflexivity.
  - reflexivity.
Qed.

(** C5, amended.  For an input that contains both "vaccine" and "autism" in
    any letter case, and for every outcome of the randomness, the fallback
    returns the verdict misleading with confidence 95 and the canned
    explanation; its citations are the first one, two or three of the three
    fixed citations, the count being drawn at random. *)
Theorem vaccine_autism_is_misleading_95 (input : jsstring) (s : randomness) :
  contains_ignoring_case input (lit "vaccine") ->
  contains_ignoring_case input (lit "autism") ->
  let answer := fst (Api.getMockVerificationResult input s) in
  Api.verdict answer = Api.verdict_misleading /\
  Api.confidence answer = number_of_Z 95 /\
  Api.explanation answer = Api.vaccineExplanation /\
  exists k, (1 <= k <= 3)%nat /\ Api.citations answer = firstn k Api.mockCitations.
Proof.
  intros Hv Ha answer. subst answer.
  apply (includes_toLowerCase _ (lit "vaccine")) in Hv.
  apply (includes_toLowerCase _ (lit "autism")) in Ha.
  change (toLowerCase (lit "vaccine")) with (lit "vaccine") in Hv.
  change (toLowerCase (lit "autism")) with (lit "autism") in Ha.
  rewrite (mock_vaccine_autism input s Hv Ha). cbn [Api.verdict Api.confidence Api.explanation Api.citations].
  repeat split. apply citations_drawn.
Qed.

Lemma vaccine_autism_is_misleading_95_witness :
  let answer :=
    fst (Api.getMockVerificationResult (lit "Do VACCINES cause Autism?") (fun _ => sample_half)) in
  Api.verdict answer = Api.verdict_misleading /\
  Api.confidence answer = number_of_Z 95 /\
  Api.explanation answer = Api.vaccineExplanation /\
  exists k, (1 <= k <= 3)%nat /\ Api.citations answer = firstn k Api.mockCitations.
Proof.
  apply (vaccine_autism_is_misleading_95 (lit "Do VACCINES cause Autism?") (fun _ => sample_half)).
  - apply (includes_toLowerCase _ (lit "vaccine")). reflexivity.
  - apply (includes_toLowerCase _ (lit "autism")). reflexivity.
Defined.

(** C6, as stated: one canned citation for every outcome of the randomness.
    On the input "Lemon water boosts metabolism", when the generator
    delivers 1/2 the answer carries two citations. *)
Lemma lemon_one_citation_counterexample :
  contains_ignoring_case (lit "Lemon water boosts metabolism") (lit "lemon") /\
  ~ (contains_ignoring_case (lit "Lemon water boosts metabolism") (lit "vaccine") /\
     contains_ignoring_case (lit "Lemon water boosts metabolism") (lit "autism")) /\
  length (Api.citations
            (fst (Api.getMockVerificationResult (lit "Lemon water boosts metabolism")
                    (fun _ => sample_half)))) = 2%nat.
Proof.
  split; [|split].
  - apply (includes_toLowerCase _ (lit "lemon")). reflexivity.
  - intros [Hv _]. apply (includes_toLowerCase _ (lit "vaccine")) in Hv. discriminate Hv.
  - reflexivity.
Qed.

(** C6, amended.  For an input that contains "lemon" in any letter case and
    does not contain both "vaccine" and "autism", and for every outcome of
    the randomness, the fallback returns the verdict needs review with
    confidence 72 and the canned explanation; its citations are the first
    one, two or three of the three fixed citations, the count being drawn
    at random. *)
Theorem lemon_needs_review_72 (input : jsstring) (s : randomness) :
  contains_ignoring_case input (lit "lemon") ->
  ~ (contains_ignoring_case input (lit "vaccine") /\
     contains_ignoring_case input (lit "autism")) ->
  let answer := fst (Api.getMockVerificationResult input s) in
  Api.verdict answer = Api.verdict_needs_review /\
  Api.confidence answer = number_of_Z 72 /\
  Api.explanation answer = Api.lemonExplanation /\
  exists k, (1 <= k <= 3)%nat /\ Api.citations answer = firstn k Api.mockCitations.
Proof.
  intros Hl Hnot answer. subst answer.
  apply (includes_toLowerCase _ (lit "lemon")) in Hl.
  change (toLowerCase (lit "lemon")) with (lit "lemon") in Hl.
  assert (Hboth : includes (toLowerCase input) (lit "vaccine")
                  && includes (toLowerCase input) (lit "autism") = false).
  { apply not_true_is_false. intros H. apply andb_true_iff in H as [Hv Ha]. apply Hnot.
    split; [apply (includes_toLowerCase _ (lit "vaccine")) | apply (includes_toLowerCase _ (lit "autism"))];
      assumption. }
  rewrite (mock_lemon input s Hboth Hl). cbn [Api.verdict Api.confidence Api.explanation Api.citations].
  repeat split. apply citations_drawn.
Qed.

Lemma lemon_needs_review_72_witness :
  let answer :=
    fst (Api.getMockVerificationResult (lit "LEMON juice cures colds; the vaccine is unneeded")
           (fun _ => sample_0)) in
  Api.verdict answer = Api.verdict_needs_review /\
  Api.confidence answer = number_of_Z 72 /\
  Api.explanation answer = Api.lemonExplanation /\
  exists k, (1 <= k <= 3)%nat /\ Api.citations answer = firstn k Api.mockCitations.
Proof.
  apply (lemon_needs_review_72 (lit "LEMON juice cures colds; the vaccine is unneeded")
           (fun _ => sample_0)).
  - apply (includes_toLowerCase _ (lit "lemon")). reflexivity.
  - intros [_ Ha]. apply (includes_toLowerCase _ (lit "autism")) in Ha. discriminate Ha.
Defined.

Lemma Array_slice_whole {A} (finish : Z) (l : list A) :
  (Z.of_nat (length l) <= finish)%Z -> Array_slice 0 finish l = l.
Proof.
  intros Hlen. unfold Array_slice. cbn [Z.ltb Z.compare].
  assert (Hneg : (finish <? 0)%Z = false) by (apply Z.ltb_ge; lia).
  rewrite Hneg. rewrite (Z.min_r finish) by lia. rewrite Z.min_l by lia.
  rewrite Z.sub_0_r, Nat2Z.id. cbn [Z.to_nat skipn]. apply List.firstn_all.
Qed.

Lemma insert_sorted_permutes {A} (cmp : A -> A -> Rand Q) (x : A) (l : list A)
    (s : randomness) :
  Permutation (x :: l) (fst (NewsApi.insert_sorted cmp x l s)).
Proof.
  revert s; induction l as [|y l IH]; intros s; cbn [NewsApi.insert_sorted].
  - reflexivity.
  - unfold rbind. destruct (cmp x y s) as [c s1].
    destruct (Qlt_le_dec 0 c); [|reflexivity].
    specialize (IH s1). destruct (NewsApi.insert_sorted cmp x l s1) as [placed s2].
    cbn [fst rret] in *. rewrite perm_swap. now apply perm_skip.
Qed.

Lemma insertion_sort_permutes (A : Type) (cmp : A -> A -> Rand Q) (l : list A)
    (s : randomness) :
  Permutation l (fst (NewsApi.insertion_sort A cmp l s)).
Proof.
  revert s; induction l as [|x l IH]; intros s; cbn [NewsApi.insertion_sort].
  - reflexivity.
  - unfold rbind. specialize (IH s).
    destruct (NewsApi.insertion_sort A cmp l s) as [sorted s1]. cbn [fst] in IH.
    rewrite <- insert_sorted_permutes. now apply perm_skip.
Qed.

Section News.

Variable Array_sort : forall A : Type, (A -> A -> Rand Q) -> list A -> Rand (list A).

(** What ECMAScript promises of [sort] whatever the comparison function:
    the result holds the elements of the array, each as often as before. *)
Hypothesis Array_sort_permutes :
  forall (A : Type) (cmp : A -> A -> Rand Q) (l : list A) (s : randomness),
    Permutation l (fst (Array_sort A cmp l s)).

(** The fallback returns the whole fixture, shuffled: the count drawn for
    [slice] is never below the five articles there are. *)
Lemma mock_news_is_shuffled_fixture (s : randomness) :
  Permutation NewsApi.mockNewsArticles (fst (NewsApi.getMockNewsArticles Array_sort s)).
Proof using Array_sort_permutes.
  unfold NewsApi.getMockNewsArticles, rbind, Math_random, rret.
  match goal with |- context [Array_sort ?A ?cmp ?l ?s'] =>
    pose proof (Array_sort_permutes A cmp l s') as Hperm;
    destruct (Array_sort A cmp l s') as [shuffled s2] end.
  cbn [fst] in *. rewrite Array_slice_whole; [exact Hperm|].
  apply Permutation_length in Hperm. rewrite <- Hperm. cbn [length NewsApi.mockNewsArticles].
  pose proof (floor_of_scaled_sample (s2 O) 0 3 eq_refl) as H.
  change (inject_Z 0 + outcome (s2 O) * inject_Z 3)%Q with (0 + outcome (s2 O) * 3)%Q in H.
  assert (E : (0 + outcome (s2 O) * 3 == outcome (s2 O) * 3)%Q) by ring.
  unfold Math_floor in *. rewrite E in H. lia.
Qed.

(** C7.  When the request fails with a [TypeError] whose message mentions
    "fetch" (the connectivity failure the client falls back on), then for
    every outcome of the randomness the client returns between 5 and 7
    articles, and the id of each is one of the ids "1" to "5" of the
    fixture. *)
Theorem news_fallback_is_fixture (e : Error) (s : randomness) :
  instanceof_TypeError e = true ->
  includes (message e) (lit "fetch") = true ->
  exists articles,
    fst (NewsApi.fetchTrustedNews Array_sort (NewsApi.Rejected e) s)
      = JArr (List.map NewsApi.NewsArticle_to_value articles) /\
    (5 <= length articles <= 7)%nat /\
    forall a, In a articles ->
      In (NewsApi.id a) [lit "1"; lit "2"; lit "3"; lit "4"; lit "5"].
Proof using Array_sort_permutes.
  intros Hkind Hmsg.
  unfold NewsApi.fetchTrustedNews, NewsApi.fetchTrustedNews_try. rewrite Hkind, Hmsg.
  cbn [andb]. unfold rbind at 1.
  pose proof (mock_news_is_shuffled_fixture s) as Hperm.
  destruct (NewsApi.getMockNewsArticles Array_sort s) as [articles s']. cbn [fst rret] in *.
  exists articles. split; [reflexivity|]. split.
  - apply Permutation_length in Hperm. rewrite <- Hperm. cbn. lia.
  - intros a Ha. apply (Permutation_in _ (Permutation_sym Hperm)) in Ha.
    change [lit "1"; lit "2"; lit "3"; lit "4"; lit "5"] with NewsApi.fixtureIds.
    now apply List.in_map.
Qed.

(** The fallback never truncates: it returns the five articles of the
    fixture, in the order the sort left them. *)
Theorem news_fallback_has_five (s : randomness) :
  Permutation NewsApi.mockNewsArticles (fst (NewsApi.getMockNewsArticles Array_sort s)) /\
  length (fst (NewsApi.getMockNewsArticles Array_sort s)) = 5%nat.
Proof using Array_sort_permutes.
  pose proof (mock_news_is_shuffled_fixture s) as H. split; [exact H|].
  apply Permutation_length in H. now rewrite <- H.
Qed.

(** Any failure other than the connectivity failure gives the empty
    sequence: a response that is not [ok], and an error that is no
    [TypeError] or whose message does not mention "fetch". *)
Theorem news_other_failures_are_empty (s : randomness) :
  (forall json, fst (NewsApi.fetchTrustedNews Array_sort (NewsApi.Responded false json) s)
                = JArr []) /\
  (forall e,
     instanceof_TypeError e && includes (message e) (lit "fetch") = false ->
     fst (NewsApi.fetchTrustedNews Array_sort (NewsApi.Rejected e) s) = JArr []).
Proof using Type.
  split.
  - intros json. reflexivity.
  - intros e He. unfold NewsApi.fetchTrustedNews, NewsApi.fetchTrustedNews_try.
    now rewrite He.
Qed.

End News.

Lemma news_fallback_is_fixture_witness :
  exists articles,
    fst (NewsApi.fetchTrustedNews NewsApi.insertion_sort
           (NewsApi.Rejected (mkError TypeError (lit "Failed to fetch")))
           (fun _ => sample_half))
      = JArr (List.map NewsApi.NewsArticle_to_value articles) /\
    (5 <= length articles <= 7)%nat /\
    forall a, In a articles ->
      In (NewsApi.id a) [lit "1"; lit "2"; lit "3"; lit "4"; lit "5"].
Proof.
  apply (news_fallback_is_fixture NewsApi.insertion_sort insertion_sort_permutes
           (mkError TypeError (lit "Failed to fetch")) (fun _ => sample_half));
    reflexivity.
Defined.

Lemma news_fallback_has_five_witness :
  Permutation NewsApi.mockNewsArticles
    (fst (NewsApi.getMockNewsArticles NewsApi.insertion_sort (fun _ => sample_half))) /\
  length (fst (NewsApi.getMockNewsArticles NewsApi.insertion_sort (fun _ => sample_half)))
  = 5%nat.
Proof.
  apply (news_fallback_has_five NewsApi.insertion_sort insertion_sort_permutes).
Defined.



End FallbackFacts.

(* ===================================================================== *)
(** ** Facts. [JSON.parse] undoes [JSON.stringify] *)
(* ===================================================================== *)

Module JsonRoundTripFacts.
Import Json JsonRoundTrip.

(** *** Decimal digits *)

Lemma digits_lsf_fuel (f1 f2 : nat) (n : N) :
  n < 2 ^ N.of_nat f1 -> n < 2 ^ N.of_nat f2 -> digits_lsf f1 n = digits_lsf f2 n.
Proof.
  revert f2 n; induction f1 as [|f1 IH]; intros f2 n H1 H2.
  - cbn in H1. assert (n = 0) by lia. subst n. now destruct f2.
  - destruct f2 as [|f2].
    + cbn in H2. assert (n = 0) by lia. subst n. reflexivity.
    + cbn [digits_lsf]. destruct (n =? 0); [reflexivity|]. f_equal.
      rewrite Nat2N.inj_succ, N.pow_succ_r' in H1, H2.
      apply IH; apply N.Div0.div_lt_upper_bound; lia.
Qed.

Lemma digits_0 : digits 0 = [].
Proof. reflexivity. Qed.

(** The digits of [10 * h + l] are the digits of [h], then [l]. *)
Lemma digits_snoc (h l : N) :
  l < 10 -> 10 * h + l <> 0 -> digits (10 * h + l) = digits h ++ [l].
Proof.
  intros Hl Hne. unfold digits.
  set (n := 10 * h + l).
  assert (Hbits : n < 2 ^ N.size n) by apply N.size_gt.
  destruct (N.to_nat (N.size n)) as [|f] eqn:Ef.
  - assert (N.size n = 0) by lia. rewrite H in Hbits. cbn in Hbits. lia.
  - cbn [digits_lsf]. apply N.eqb_neq in Hne. fold n in Hne. rewrite Hne. cbn [rev].
    assert (Hmod : n mod 10 = l).
    { unfold n. rewrite N.add_comm, N.mul_comm, N.Div0.mod_add. now apply N.mod_small. }
    assert (Hdiv : n / 10 = h).
    { unfold n. rewrite N.add_comm, N.mul_comm, N.div_add by discriminate.
      rewrite N.div_small by exact Hl. reflexivity. }
    rewrite Hmod, Hdiv. f_equal. f_equal. apply digits_lsf_fuel.
    + assert (N.size n = N.succ (N.of_nat f)) by lia.
      rewrite H, N.pow_succ_r' in Hbits. unfold n in Hbits. lia.
    + rewrite N2Nat.id. apply N.size_gt.
Qed.

(** Induction on a number by its decimal digits. *)
Lemma decimal_ind (P : N -> Prop) :
  P 0 ->
  (forall h l, l < 10 -> 10 * h + l <> 0 -> P h -> P (10 * h + l)) ->
  forall n, P n.
Proof.
  intros H0 Hstep n. induction n as [n IH] using (well_founded_induction N.lt_wf_0).
  destruct (N.eq_dec n 0) as [->|Hn]; [exact H0|].
  pose proof (N.div_mod n 10 ltac:(discriminate)) as E.
  pose proof (N.mod_lt n 10 ltac:(discriminate)) as Hlt.
  rewrite E. apply Hstep; [exact Hlt | lia |]. apply IH.
  apply N.div_lt; lia.
Qed.

Lemma of_digits_snoc (ds : list N) (l : N) : of_digits (ds ++ [l]) = 10 * of_digits ds + l.
Proof. unfold of_digits. now rewrite List.fold_left_app. Qed.

Lemma of_digits_digits (n : N) : of_digits (digits n) = n.
Proof.
  induction n as [|h l Hl Hne IH] using decimal_ind; [reflexivity|].
  now rewrite digits_snoc, of_digits_snoc, IH.
Qed.

Lemma digits_lt_10 (n : N) : List.Forall (fun d => d < 10) (digits n).
Proof.
  induction n as [|h l Hl Hne IH] using decimal_ind; [constructor|].
  rewrite digits_snoc by assumption. apply List.Forall_app. split; [exact IH|].
  now constructor.
Qed.

(** No leading zero, and no digit at all only for zero. *)
Lemma digits_head (n : N) :
  match digits n with
  | [] => n = 0
  | d :: _ => d <> 0
  end.
Proof.
  induction n as [|h l Hl Hne IH] using decimal_ind; [reflexivity|].
  rewrite digits_snoc by assumption.
  destruct (digits h) as [|d ds]; cbn [app]; [|exact IH].
  subst h. lia.
Qed.

Lemma of_digits_zeros (a : nat) (ds : list N) :
  of_digits (repeat 0 a ++ ds) = of_digits ds.
Proof.
  unfold of_digits. rewrite List.fold_left_app. f_equal.
  induction a as [|a IH]; [reflexivity | exact IH].
Qed.

Lemma rev_repeat {A} (x : A) (n : nat) : rev (repeat x n) = repeat x n.
Proof.
  induction n as [|n IH]; [reflexivity|].
  cbn [repeat rev]. rewrite IH. symmetry. apply List.repeat_cons.
Qed.

Lemma strip_zeros_repeat (t : nat) (ds : list N) :
  strip_zeros (repeat 0 t ++ ds)
  = (fst (strip_zeros ds), (t + snd (strip_zeros ds))%nat).
Proof.
  induction t as [|t IH]; cbn [repeat app strip_zeros].
  - now destruct (strip_zeros ds).
  - rewrite IH. reflexivity.
Qed.

Lemma nzdigit_to_N_range (low : nzdigit) : 0 < nzdigit_to_N low < 10.
Proof. destruct low; cbn; lia. Qed.

Lemma nzdigit_of_to_N (low : nzdigit) : nzdigit_of_N (nzdigit_to_N low) = Some low.
Proof. now destruct low. Qed.

Lemma mantissa_digits_snoc (high : N) (low : nzdigit) :
  mantissa_digits high low = digits high ++ [nzdigit_to_N low].
Proof.
  pose proof (nzdigit_to_N_range low). unfold mantissa_digits. apply digits_snoc; lia.
Qed.

Lemma strip_zeros_nonzero (d : N) (ds : list N) : d <> 0 -> strip_zeros (d :: ds) = (d :: ds, O).
Proof. intros Hd. destruct d; [contradiction | reflexivity]. Qed.

(** Zeros before and after the digits of a mantissa change the exponent
    and nothing else. *)
Lemma number_of_decimal_mantissa
    (negative : bool) (high : N) (low : nzdigit) (a t : nat) (e : Z) :
  number_of_decimal negative (repeat 0 a ++ mantissa_digits high low ++ repeat 0 t) e
  = Dec negative high low (e + Z.of_nat t).
Proof.
  pose proof (nzdigit_to_N_range low) as Hlow.
  unfold number_of_decimal. rewrite mantissa_digits_snoc.
  rewrite !List.rev_app_distr, !rev_repeat. cbn [rev app].
  rewrite <- !List.app_assoc, strip_zeros_repeat. cbn [app].
  rewrite strip_zeros_nonzero by lia. cbn [fst snd].
  cbn [rev]. rewrite List.rev_app_distr, List.rev_involutive, rev_repeat.
  rewrite <- List.app_assoc, of_digits_zeros, of_digits_snoc, of_digits_digits.
  assert (Hmod : (10 * high + nzdigit_to_N low) mod 10 = nzdigit_to_N low).
  { rewrite N.add_comm, N.mul_comm, N.Div0.mod_add. apply N.mod_small; lia. }
  assert (Hdiv : (10 * high + nzdigit_to_N low) / 10 = high).
  { rewrite N.add_comm, N.mul_comm, N.div_add by discriminate.
    rewrite N.div_small by lia. reflexivity. }
  rewrite Hmod, Hdiv, nzdigit_of_to_N. f_equal. lia.
Qed.

(** *** Strings *)

Lemma list_ind2 {A} (P : list A -> Prop) :
  P [] -> (forall a, P [a]) ->
  (forall a b l, P l -> P (b :: l) -> P (a :: b :: l)) ->
  forall l, P l.
Proof.
  intros Hnil Hone Hstep l.
  enough (H : P l /\ forall a, P (a :: l)) by apply H.
  induction l as [|b l [IH1 IH2]]; split; auto.
Qed.

Lemma hex_value_hex_char (n : N) : n < 16 -> hex_value (hex_char n) = Some n.
Proof.
  intros Hn. unfold hex_char, hex_value, is_digit.
  destruct (N.ltb_spec n 10).
  - replace (48 <=? 48 + n) with true by (symmetry; apply N.leb_le; lia).
    replace (48 + n <=? 57) with true by (symmetry; apply N.leb_le; lia).
    cbn [andb]. f_equal. lia.
  - replace (87 + n <=? 57) with false by (symmetry; apply N.leb_gt; lia).
    rewrite andb_false_r.
    replace (97 <=? 87 + n) with true by (symmetry; apply N.leb_le; lia).
    replace (87 + n <=? 102) with true by (symmetry; apply N.leb_le; lia).
    cbn [andb]. f_equal. lia.
Qed.

Lemma hex4_of_unit (c : N) :
  c < 65536 ->
  hex4 (hex_char (c / 4096 mod 16)) (hex_char (c / 256 mod 16))
       (hex_char (c / 16 mod 16)) (hex_char (c mod 16)) = Some c.
Proof.
  intros Hc. unfold hex4.
  rewrite !hex_value_hex_char by (apply N.mod_lt; discriminate).
  f_equal.
  pose proof (N.div_mod c 16 ltac:(discriminate)) as H1.
  pose proof (N.div_mod (c / 16) 16 ltac:(discriminate)) as H2.
  pose proof (N.div_mod (c / 256) 16 ltac:(discriminate)) as H3.
  rewrite N.Div0.div_div in H2, H3.
  change (16 * 16) with 256 in H2. change (256 * 16) with 4096 in H3.
  assert (H4 : c / 4096 < 16) by (apply N.Div0.div_lt_upper_bound; exact Hc).
  rewrite (N.mod_small (c / 4096)) by exact H4. lia.
Qed.

Lemma parse_unicode_escape (c : N) (tail : jsstring) :
  c < 65536 ->
  parse_string (unicode_escape c ++ tail) = prepend c (parse_string tail).
Proof.
  intros Hc. unfold unicode_escape. cbn [app parse_string N.eqb Pos.eqb simple_escape].
  now rewrite hex4_of_unit.
Qed.

Lemma parse_raw_unit (c : N) (tail : jsstring) :
  c <> 34 -> c <> 92 -> 32 <= c ->
  parse_string (c :: tail) = prepend c (parse_string tail).
Proof.
  intros H34 H92 H32. cbn [parse_string].
  apply N.eqb_neq in H34, H92. rewrite H34, H92.
  now replace (c <? 32) with false by (symmetry; apply N.ltb_ge; exact H32).
Qed.

Lemma parse_quote_unit (c : N) (tail : jsstring) :
  parse_string (quote_unit c ++ tail) = prepend c (parse_string tail).
Proof.
  unfold quote_unit.
  destruct (N.eqb_spec c 8) as [->|H8]; [reflexivity|].
  destruct (N.eqb_spec c 9) as [->|H9]; [reflexivity|].
  destruct (N.eqb_spec c 10) as [->|H10]; [reflexivity|].
  destruct (N.eqb_spec c 12) as [->|H12]; [reflexivity|].
  destruct (N.eqb_spec c 13) as [->|H13]; [reflexivity|].
  destruct (N.eqb_spec c 34) as [->|H34]; [reflexivity|].
  destruct (N.eqb_spec c 92) as [->|H92]; [reflexivity|].
  destruct (N.ltb_spec c 32) as [Hlt|Hge].
  - apply parse_unicode_escape. lia.
  - now apply parse_raw_unit.
Qed.

Lemma surrogate_is_raw (c : N) :
  is_high_surrogate c || is_low_surrogate c = true -> c <> 34 /\ c <> 92 /\ 32 <= c /\ c < 65536.
Proof.
  unfold is_high_surrogate, is_low_surrogate. intros H.
  apply orb_true_iff in H as [H|H]; apply andb_true_iff in H as [H1 H2];
    apply N.leb_le in H1, H2; lia.
Qed.

Lemma quote_units_cons (c : N) (rest : jsstring) :
  quote_units (c :: rest)
  = if is_high_surrogate c then
      match rest with
      | d :: rest' =>
          if is_low_surrogate d then c :: d :: quote_units rest'
          else unicode_escape c ++ quote_units rest
      | [] => unicode_escape c
      end
    else if is_low_surrogate c then unicode_escape c ++ quote_units rest
    else quote_unit c ++ quote_units rest.
Proof. reflexivity. Qed.

(** The characters between the quotes parse back to the string. *)
Lemma parse_quote_units (s : jsstring) (rest : jsstring) :
  parse_string (quote_units s ++ 34 :: rest) = Some (s, rest).
Proof.
  induction s as [| c | c d s IH IHd] using list_ind2.
  - reflexivity.
  - cbn [quote_units].
    destruct (is_high_surrogate c) eqn:Eh; [|destruct (is_low_surrogate c) eqn:El].
    + destruct (surrogate_is_raw c) as (_ & _ & _ & Hc); [now rewrite Eh|].
      now rewrite parse_unicode_escape.
    + destruct (surrogate_is_raw c) as (_ & _ & _ & Hc); [now rewrite El, orb_true_r|].
      rewrite <- List.app_assoc, parse_unicode_escape by exact Hc. reflexivity.
    + rewrite <- List.app_assoc, parse_quote_unit. reflexivity.
  - rewrite quote_units_cons. cbv beta iota.
    destruct (is_high_surrogate c) eqn:Eh; [destruct (is_low_surrogate d) eqn:Eld|
                                            destruct (is_low_surrogate c) eqn:El].
    + destruct (surrogate_is_raw c) as (Hc1 & Hc2 & Hc3 & _); [now rewrite Eh|].
      destruct (surrogate_is_raw d) as (Hd1 & Hd2 & Hd3 & _); [now rewrite Eld, orb_true_r|].
      cbn [app]. rewrite parse_raw_unit, parse_raw_unit, IH by assumption. reflexivity.
    + destruct (surrogate_is_raw c) as (_ & _ & _ & Hc); [now rewrite Eh|].
      rewrite <- List.app_assoc, parse_unicode_escape, IHd by exact Hc. reflexivity.
    + destruct (surrogate_is_raw c) as (_ & _ & _ & Hc); [now rewrite El, orb_true_r|].
      rewrite <- List.app_assoc, parse_unicode_escape, IHd by exact Hc. reflexivity.
    + rewrite <- List.app_assoc, parse_quote_unit, IHd. reflexivity.
Qed.

(** *** Numbers *)

Lemma number_end_not_digit (rest : jsstring) : number_end rest -> not_digit_start rest.
Proof. destruct rest; cbn; tauto. Qed.

Lemma is_digit_char (d : N) : d < 10 -> is_digit (digit_char d) = true.
Proof.
  intros Hd. unfold is_digit, digit_char. apply andb_true_iff.
  split; apply N.leb_le; lia.
Qed.

Lemma take_digits_chars (ds : list N) (rest : jsstring) :
  List.Forall (fun d => d < 10) ds -> not_digit_start rest ->
  take_digits (List.map digit_char ds ++ rest) = (ds, rest).
Proof.
  intros Hds Hrest. induction Hds as [|d ds Hd Hds IH]; cbn [List.map app].
  - destruct rest as [|c rest]; [reflexivity|]. cbn in *. now rewrite Hrest.
  - cbn [take_digits]. rewrite is_digit_char, IH by exact Hd.
    f_equal. f_equal. unfold digit_char. lia.
Qed.

Lemma repeat_zero_chars (t : nat) : repeat 48 t = List.map digit_char (repeat 0 t).
Proof. induction t as [|t IH]; [reflexivity|]. cbn [repeat List.map]. now rewrite IH. Qed.

Lemma Forall_repeat_zero (t : nat) : List.Forall (fun d => d < 10) (repeat 0 t).
Proof. induction t; constructor; [lia | assumption]. Qed.

Lemma take_fraction_none (rest : jsstring) :
  number_end rest -> take_fraction rest = Some ([], rest).
Proof.
  destruct rest as [|c rest]; [reflexivity|]. cbn. intros (_ & H46 & _).
  apply N.eqb_neq in H46. now rewrite H46.
Qed.

Lemma take_exponent_none (rest : jsstring) :
  number_end rest -> take_exponent rest = Some (0%Z, rest).
Proof.
  destruct rest as [|c rest]; [reflexivity|]. cbn. intros (_ & _ & H101 & H69).
  apply N.eqb_neq in H101, H69. now rewrite H101, H69.
Qed.

Lemma take_fraction_digits (fs : list N) (rest : jsstring) :
  fs <> [] -> List.Forall (fun d => d < 10) fs -> not_digit_start rest ->
  take_fraction (46 :: List.map digit_char fs ++ rest) = Some (fs, rest).
Proof.
  intros Hne Hfs Hrest. cbn [take_fraction N.eqb Pos.eqb].
  rewrite take_digits_chars by assumption. now destruct fs.
Qed.

Lemma decimal_string_digits (n : N) (rest : jsstring) :
  not_digit_start rest ->
  exists ds, take_digits (decimal_string n ++ rest) = (ds, rest) /\
             ds <> [] /\ of_digits ds = n.
Proof.
  intros Hrest. unfold decimal_string.
  pose proof (digits_lt_10 n) as Hlt. pose proof (of_digits_digits n) as Hof.
  pose proof (digits_head n) as Hhead.
  destruct (digits n) as [|d ds] eqn:E.
  - exists [0]. subst n. split; [|split; [discriminate | reflexivity]].
    change [48] with (List.map digit_char [0]).
    apply take_digits_chars; [repeat constructor; lia | exact Hrest].
  - exists (d :: ds). split; [|split; [discriminate | exact Hof]].
    now apply take_digits_chars.
Qed.

Lemma take_exponent_digits (ex : Z) (rest : jsstring) :
  not_digit_start rest ->
  take_exponent (101 :: (if (ex <? 0)%Z then 45 else 43)
                     :: decimal_string (Z.abs_N ex) ++ rest)
  = Some (ex, rest).
Proof.
  intros Hrest.
  destruct (decimal_string_digits (Z.abs_N ex) rest Hrest) as (ds & Htake & Hne & Hof).
  cbn [take_exponent N.eqb Pos.eqb orb].
  destruct (Z.ltb_spec ex 0) as [Hneg|Hpos]; cbn [N.eqb Pos.eqb];
    rewrite Htake; (destruct ds as [|d ds]; [contradiction|]); rewrite Hof;
    f_equal; f_equal; lia.
Qed.

(** The facts about the digits of a mantissa that the layouts rely on. *)
Lemma mantissa_digits_shape (high : N) (low : nzdigit) :
  let ds := mantissa_digits high low in
  List.Forall (fun d => d < 10) ds /\
  exists d0 more, ds = d0 :: more /\ d0 <> 0.
Proof.
  pose proof (nzdigit_to_N_range low) as Hlow. cbn zeta. unfold mantissa_digits.
  split; [apply digits_lt_10|].
  pose proof (digits_head (10 * high + nzdigit_to_N low)) as Hhead.
  destruct (digits (10 * high + nzdigit_to_N low)) as [|d0 more]; [lia|].
  now exists d0, more.
Qed.

Lemma number_of_decimal_trailing
    (negative : bool) (high : N) (low : nzdigit) (t : nat) (e : Z) :
  number_of_decimal negative (mantissa_digits high low ++ repeat 0 t) e
  = Dec negative high low (e + Z.of_nat t).
Proof. exact (number_of_decimal_mantissa negative high low 0 t e). Qed.

Lemma number_of_decimal_leading
    (negative : bool) (high : N) (low : nzdigit) (a : nat) (e : Z) :
  number_of_decimal negative (repeat 0 a ++ mantissa_digits high low) e
  = Dec negative high low e.
Proof.
  pose proof (number_of_decimal_mantissa negative high low a 0 e) as H.
  change (repeat 0 0) with (@nil N) in H. rewrite List.app_nil_r in H.
  rewrite H. f_equal. lia.
Qed.

Lemma number_of_decimal_plain (negative : bool) (high : N) (low : nzdigit) (e : Z) :
  number_of_decimal negative (mantissa_digits high low) e = Dec negative high low e.
Proof. exact (number_of_decimal_leading negative high low 0 e). Qed.

(** The four layouts of [magnitude_toString]. *)
Lemma magnitude_toString_cases (ds : list N) (e : Z) :
  let cs := List.map digit_char ds in
  let k := Z.of_nat (length ds) in
  let n := (k + e)%Z in
  ((0 <= e)%Z /\ (n <= 21)%Z /\
   magnitude_toString ds e = cs ++ repeat 48 (Z.to_nat e)) \/
  ((0 < n)%Z /\ (e < 0)%Z /\ (n <= 21)%Z /\
   magnitude_toString ds e = firstn (Z.to_nat n) cs ++ [46] ++ skipn (Z.to_nat n) cs) \/
  ((-6 < n)%Z /\ (n <= 0)%Z /\
   magnitude_toString ds e = [48; 46] ++ repeat 48 (Z.to_nat (- n)) ++ cs) \/
  (((n <= -6)%Z \/ (21 < n)%Z) /\
   magnitude_toString ds e
   = match cs with
     | [] => []
     | [c] => [c]
     | c :: more => c :: 46 :: more
     end ++ [101; if (n - 1 <? 0)%Z then 45 else 43] ++ decimal_string (Z.abs_N (n - 1))).
Proof.
  cbn zeta. unfold magnitude_toString.
  set (k := Z.of_nat (length ds)).
  destruct (Z.leb_spec k (k + e)); destruct (Z.leb_spec (k + e) 21);
    destruct (Z.ltb_spec 0 (k + e)); destruct (Z.ltb_spec (-6) (k + e));
    destruct (Z.leb_spec (k + e) 0); cbn [andb];
    try (left; split; [lia | split; [lia |]]; do 2 f_equal; lia);
    try (right; left; split; [lia | split; [lia | split; [lia | reflexivity]]]);
    try (right; right; left; split; [lia | split; [lia | reflexivity]]);
    try (right; right; right; split; [lia | reflexivity]);
    lia.
Qed.

(** The magnitude of a number that is not zero parses back. *)
Lemma parse_magnitude_toString
    (negative : bool) (high : N) (low : nzdigit) (e : Z) (rest : jsstring) :
  number_end rest ->
  parse_magnitude negative (magnitude_toString (mantissa_digits high low) e ++ rest)
  = Some (Dec negative high low e, rest).
Proof.
  intros Hrest. pose proof (number_end_not_digit rest Hrest) as Hnd.
  destruct (mantissa_digits_shape high low) as (Hlt & d0 & more & Eds & Hd0).
  pose proof (magnitude_toString_cases (mantissa_digits high low) e) as Hcases.
  cbn zeta in Hcases. unfold parse_magnitude.
  set (ds := mantissa_digits high low) in *.
  set (k := Z.of_nat (length ds)) in *.
  assert (Hk : (1 <= k)%Z) by (unfold k; rewrite Eds; cbn [length]; lia).
  assert (Hd0lt : d0 < 10) by (rewrite Eds in Hlt; now inversion Hlt).
  assert (Hmore : List.Forall (fun d => d < 10) more) by (rewrite Eds in Hlt; now inversion Hlt).
  assert (Hbad : bad_integer [d0] = false) by now destruct d0.
  destruct Hcases as [(He & Hn & ->) | [(Hn & He & Hn21 & ->) | [(Hn6 & Hn0 & ->) | (Hn & ->)]]].
  - (* an integer *)
    rewrite repeat_zero_chars, <- List.map_app, take_digits_chars;
      [| apply List.Forall_app; split; [exact Hlt | apply Forall_repeat_zero] | exact Hnd].
    replace (bad_integer (ds ++ repeat 0 (Z.to_nat e))) with false
      by (rewrite Eds; cbn; now destruct d0).
    rewrite take_fraction_none, take_exponent_none by exact Hrest.
    rewrite List.app_nil_r. f_equal. f_equal.
    unfold ds. rewrite number_of_decimal_trailing. f_equal. cbn [length]. lia.
  - (* a fraction, the point between two digits *)
    rewrite List.firstn_map, List.skipn_map. rewrite <- !List.app_assoc.
    set (n := Z.to_nat (k + e)).
    assert (Hn1 : (1 <= n)%nat) by (unfold n; lia).
    assert (Hn2 : (n < length ds)%nat) by (unfold n, k in *; lia).
    rewrite take_digits_chars; [| now apply Forall_take | reflexivity].
    replace (bad_integer (firstn n ds)) with false
      by (rewrite Eds; destruct n as [|n']; [lia | cbn; now destruct d0]).
    cbn [app]. rewrite take_fraction_digits;
      [ | intros E; apply (f_equal (@length N)) in E; rewrite List.length_skipn in E;
          cbn in E; lia
        | now apply Forall_drop | exact Hnd].
    rewrite take_exponent_none by exact Hrest.
    rewrite List.firstn_skipn. unfold ds. rewrite number_of_decimal_plain. fold ds.
    f_equal. f_equal. f_equal.
    rewrite List.length_skipn. unfold n, k in *. lia.
  - (* a fraction, zeros between the point and the digits *)
    cbn [app]. change (48 :: 46 :: ?l) with (List.map digit_char [0] ++ 46 :: l).
    rewrite take_digits_chars; [| repeat constructor; lia | reflexivity].
    change (bad_integer [0]) with false. cbv iota.
    rewrite repeat_zero_chars, <- List.map_app.
    rewrite take_fraction_digits;
      [ | rewrite Eds; now destruct (repeat 0 (Z.to_nat (- (k + e))))
        | apply List.Forall_app; split; [apply Forall_repeat_zero | exact Hlt]
        | exact Hnd].
    rewrite take_exponent_none by exact Hrest. f_equal. f_equal.
    change ([0] ++ repeat 0 ?a ++ ds) with (repeat 0 (S a) ++ mantissa_digits high low).
    rewrite number_of_decimal_leading. f_equal.
    rewrite List.length_app, List.repeat_length. unfold k in *. lia.
  - (* an exponent *)
    rewrite Eds. destruct more as [|d1 more].
    + cbn [List.map app].
      change (digit_char d0 :: ?l) with (List.map digit_char [d0] ++ l).
      rewrite take_digits_chars; [| now repeat constructor | reflexivity].
      rewrite Hbad. cbn [take_fraction N.eqb Pos.eqb].
      rewrite take_exponent_digits by exact Hnd.
      cbn [app length]. f_equal. f_equal.
      rewrite <- (number_of_decimal_plain negative high low e). fold ds. rewrite Eds.
      f_equal. unfold k. rewrite Eds. cbn [length]. lia.
    + cbn [List.map app].
      change (digit_char d0 :: 46 :: ?l) with (List.map digit_char [d0] ++ 46 :: l).
      rewrite take_digits_chars; [| now repeat constructor | reflexivity].
      rewrite Hbad. rewrite <- List.app_assoc. cbn [app].
      change (digit_char d1 :: List.map digit_char more ++ ?l)
        with (List.map digit_char (d1 :: more) ++ l).
      rewrite take_fraction_digits; [| discriminate | exact Hmore | reflexivity].
      rewrite take_exponent_digits by exact Hnd.
      f_equal. f_equal.
      rewrite <- (number_of_decimal_plain negative high low e). fold ds. rewrite Eds.
      f_equal. unfold k. rewrite Eds. cbn [length]. lia.
Qed.

Lemma magnitude_toString_head (high : N) (low : nzdigit) (e : Z) :
  exists c tail, magnitude_toString (mantissa_digits high low) e = c :: tail /\
                 is_digit c = true.
Proof.
  destruct (mantissa_digits_shape high low) as (Hlt & d0 & more & Eds & Hd0).
  pose proof (magnitude_toString_cases (mantissa_digits high low) e) as Hcases.
  cbn zeta in Hcases. rewrite Eds in *. cbn [List.map length] in Hcases.
  assert (Hc : is_digit (digit_char d0) = true) by (apply is_digit_char; now inversion Hlt).
  destruct Hcases as [(He & Hn & ->) | [(Hn & He & Hn21 & ->) | [(Hn6 & Hn0 & ->) | (Hn & ->)]]].
  - now eexists _, _.
  - destruct (Z.to_nat (Z.of_nat (S (length more)) + e)) as [|n] eqn:En; [lia|].
    cbn [firstn app]. now eexists _, _.
  - now eexists _, _.
  - destruct (List.map digit_char more); now eexists _, _.
Qed.

(** A number parses back, whatever follows it that is no part of a number. *)
Lemma parse_number_toString (x : number) (rest : jsstring) :
  number_end rest -> parse_number (Number_toString x ++ rest) = Some (x, rest).
Proof.
  intros Hrest. destruct x as [|negative high low e].
  - cbn [Number_toString app parse_number N.eqb Pos.eqb]. unfold parse_magnitude.
    change (48 :: rest) with (List.map digit_char [0] ++ rest).
    rewrite take_digits_chars;
      [| repeat constructor; lia | now apply number_end_not_digit].
    change (bad_integer [0]) with false. cbv iota.
    now rewrite take_fraction_none, take_exponent_none.
  - cbn [Number_toString]. destruct negative; cbn [app].
    + cbn [parse_number N.eqb Pos.eqb]. now apply parse_magnitude_toString.
    + destruct (magnitude_toString_head high low e) as (c & tail & E & Hc).
      pose proof (parse_magnitude_toString false high low e rest Hrest) as H.
      rewrite E in *. cbn [app parse_number] in *.
      replace (c =? 45) with false; [exact H|].
      symmetry. apply N.eqb_neq. intros ->. discriminate Hc.
Qed.

Lemma Number_toString_head (x : number) :
  exists c tail, Number_toString x = c :: tail /\ (c = 45 \/ is_digit c = true).
Proof.
  destruct x as [|negative high low e]; cbn [Number_toString].
  - exists 48, []. split; [reflexivity | now right].
  - destruct negative; cbn [app].
    + eexists _, _. split; [reflexivity | now left].
    + destruct (magnitude_toString_head high low e) as (c & tail & E & Hc).
      exists c, tail. split; [exact E | now right].
Qed.

(** *** Values *)

Lemma value_end_number_end (rest : jsstring) : value_end rest -> number_end rest.
Proof.
  destruct rest as [|c rest]; [trivial|]. cbn.
  intros [-> | [-> | ->]]; repeat split; discriminate.
Qed.

Lemma parse_value_S (fuel : nat) (s0 : jsstring) :
  parse_value (S fuel) s0
  = let s := skip_ws s0 in
    if startsWith s (lit "null") then Parsed JNull (skipn 4 s)
    else if startsWith s (lit "true") then Parsed (JBool true) (skipn 4 s)
    else if startsWith s (lit "false") then Parsed (JBool false) (skipn 5 s)
    else
      match s with
      | [] => Malformed
      | c :: rest =>
          if c =? 34 then
            match parse_string rest with
            | Some (str, r) => Parsed (JStr str) r
            | None => Malformed
            end
          else if c =? 91 then
            match skip_ws rest with
            | c' :: r =>
                if c' =? 93 then Parsed (JArr []) r
                else
                  match parse_elements fuel rest with
                  | Parsed items r' => Parsed (JArr items) r'
                  | Malformed => Malformed
                  | OutOfFuel => OutOfFuel
                  end
            | [] => Malformed
            end
          else if c =? 123 then
            match skip_ws rest with
            | c' :: r =>
                if c' =? 125 then Parsed (JObj []) r
                else
                  match parse_members fuel rest with
                  | Parsed members r' => Parsed (build_object members) r'
                  | Malformed => Malformed
                  | OutOfFuel => OutOfFuel
                  end
            | [] => Malformed
            end
          else
            match parse_number s with
            | Some (n, r) => Parsed (JNum n) r
            | None => Malformed
            end
      end.
Proof. reflexivity. Qed.

Lemma parse_elements_S (fuel : nat) (s : jsstring) :
  parse_elements (S fuel) s
  = match parse_value fuel s with
    | Parsed v rest =>
        match skip_ws rest with
        | c :: r =>
            if c =? 93 then Parsed [v] r
            else if c =? 44 then
              match parse_elements fuel r with
              | Parsed vs r' => Parsed (v :: vs) r'
              | Malformed => Malformed
              | OutOfFuel => OutOfFuel
              end
            else Malformed
        | [] => Malformed
        end
    | Malformed => Malformed
    | OutOfFuel => OutOfFuel
    end.
Proof. reflexivity. Qed.

Lemma parse_members_S (fuel : nat) (s : jsstring) :
  parse_members (S fuel) s
  = match skip_ws s with
    | q :: rest =>
        if q =? 34 then
          match parse_string rest with
          | Some (key, r) =>
              match skip_ws r with
              | colon :: r1 =>
                  if colon =? 58 then
                    match parse_value fuel r1 with
                    | Parsed v r2 =>
                        match skip_ws r2 with
                        | c :: r3 =>
                            if c =? 125 then Parsed [(key, v)] r3
                            else if c =? 44 then
                              match parse_members fuel r3 with
                              | Parsed ms r4 => Parsed ((key, v) :: ms) r4
                              | Malformed => Malformed
                              | OutOfFuel => OutOfFuel
                              end
                            else Malformed
                        | [] => Malformed
                        end
                    | Malformed => Malformed
                    | OutOfFuel => OutOfFuel
                    end
                  else Malformed
              | [] => Malformed
              end
          | None => Malformed
          end
        else Malformed
    | [] => Malformed
    end.
Proof. reflexivity. Qed.

Lemma skip_ws_head (c : N) (l : jsstring) : is_ws c = false -> skip_ws (c :: l) = c :: l.
Proof. intros H. cbn [skip_ws]. now rewrite H. Qed.

(** A value that starts with none of the letters n, t, f is a string, an
    array, an object or a number, by its first character. *)
Lemma parse_value_by_head (fuel : nat) (c : N) (rest : jsstring) :
  is_ws c = false -> c <> 110 -> c <> 116 -> c <> 102 ->
  parse_value (S fuel) (c :: rest)
  = if c =? 34 then
      match parse_string rest with
      | Some (str, r) => Parsed (JStr str) r
      | None => Malformed
      end
    else if c =? 91 then
      match skip_ws rest with
      | c' :: r =>
          if c' =? 93 then Parsed (JArr []) r
          else
            match parse_elements fuel rest with
            | Parsed items r' => Parsed (JArr items) r'
            | Malformed => Malformed
            | OutOfFuel => OutOfFuel
            end
      | [] => Malformed
      end
    else if c =? 123 then
      match skip_ws rest with
      | c' :: r =>
          if c' =? 125 then Parsed (JObj []) r
          else
            match parse_members fuel rest with
            | Parsed members r' => Parsed (build_object members) r'
            | Malformed => Malformed
            | OutOfFuel => OutOfFuel
            end
      | [] => Malformed
      end
    else
      match parse_number (c :: rest) with
      | Some (n, r) => Parsed (JNum n) r
      | None => Malformed
      end.
Proof.
  intros Hws Hn Ht Hf. rewrite parse_value_S, skip_ws_head by exact Hws. cbv zeta.
  change (lit "null") with [110; 117; 108; 108].
  change (lit "true") with [116; 114; 117; 101].
  change (lit "false") with [102; 97; 108; 115; 101].
  cbn [startsWith].
  replace (110 =? c) with false by (symmetry; apply N.eqb_neq; congruence).
  replace (116 =? c) with false by (symmetry; apply N.eqb_neq; congruence).
  replace (102 =? c) with false by (symmetry; apply N.eqb_neq; congruence).
  reflexivity.
Qed.

Lemma number_head_facts (c : N) :
  c = 45 \/ is_digit c = true ->
  is_ws c = false /\ c <> 110 /\ c <> 116 /\ c <> 102 /\
  c <> 34 /\ c <> 91 /\ c <> 123 /\ c <> 93.
Proof.
  intros [-> | H]; [repeat split; discriminate|].
  unfold is_digit in H. apply andb_true_iff in H as [H1 H2]. apply N.leb_le in H1, H2.
  unfold is_ws. repeat split; try lia. decide_eqb. reflexivity.
Qed.

(** The text of a value begins with a character that is no white space
    and does not close an array. *)
Lemma JSON_stringify_head (v : value) :
  exists c tail, JSON_stringify v = c :: tail /\ is_ws c = false /\ c <> 93.
Proof.
  destruct v as [|[]|n|s|items|props].
  - now exists 110, (lit "ull").
  - now exists 116, (lit "rue").
  - now exists 102, (lit "alse").
  - destruct (Number_toString_head n) as (c & tail & E & Hc).
    exists c, tail. split; [exact E|]. apply number_head_facts in Hc. tauto.
  - cbn [JSON_stringify QuoteJSONString app]. now eexists _, _.
  - cbn [JSON_stringify app]. now eexists _, _.
  - cbn [JSON_stringify app]. now eexists _, _.
Qed.

Lemma set_prop_fresh (k : jsstring) (v : value) (props : list (jsstring * value)) :
  existsb (eqb k) (List.map fst props) = false -> set_prop k v props = props ++ [(k, v)].
Proof.
  induction props as [|[k' v'] props IH]; [reflexivity|].
  cbn [List.map fst existsb set_prop app]. intros H.
  apply orb_false_iff in H as [H1 H2]. rewrite H1. f_equal. now apply IH.
Qed.

Lemma existsb_eqb_app (k : jsstring) (l1 l2 : list jsstring) :
  existsb (eqb k) (l1 ++ l2) = existsb (eqb k) l1 || existsb (eqb k) l2.
Proof. apply List.existsb_app. Qed.

Lemma eqb_sym (a b : jsstring) : eqb a b = eqb b a.
Proof.
  destruct (eqb a b) eqn:E.
  - apply eqb_eq in E. subst. symmetry. apply eqb_refl.
  - symmetry. apply eqb_neq. apply eqb_neq in E. congruence.
Qed.

Lemma fold_set_prop (members acc : list (jsstring * value)) :
  distinct (List.map fst members) = true ->
  (forall k, In k (List.map fst members) -> existsb (eqb k) (List.map fst acc) = false) ->
  fold_left (fun props kv => set_prop (fst kv) (snd kv) props) members acc = acc ++ members.
Proof.
  revert acc; induction members as [|[k v] members IH]; intros acc Hd Hacc.
  - now rewrite List.app_nil_r.
  - cbn [List.map fst distinct] in Hd. apply andb_true_iff in Hd as [Hk Hd].
    apply negb_true_iff in Hk.
    cbn [fold_left fst snd]. rewrite set_prop_fresh by (apply Hacc; now left).
    rewrite IH; [now rewrite <- List.app_assoc | exact Hd |].
    intros k' Hk'. rewrite List.map_app, existsb_eqb_app. cbn [List.map fst existsb].
    rewrite Hacc by (now right). rewrite orb_false_r. cbn [orb].
    rewrite eqb_sym. apply not_true_is_false. intros E. apply eqb_eq in E. subst k'.
    apply (List.existsb_exists) in Hk' as Hex || idtac.
    assert (Hex : existsb (eqb k) (List.map fst members) = true).
    { apply List.existsb_exists. exists k. split; [exact Hk' | apply eqb_refl]. }
    congruence.
Qed.

Lemma build_object_distinct (members : list (jsstring * value)) :
  distinct (List.map fst members) = true -> build_object members = JObj members.
Proof.
  intros Hd. unfold build_object. f_equal.
  rewrite fold_set_prop; [reflexivity | exact Hd | reflexivity].
Qed.

Lemma parse_elements_stringify (x : value) (items : list value) :
  List.Forall parses_back (x :: items) ->
  forallb unique_keys (x :: items) = true ->
  forall fuel rest,
    (list_sum (List.map (fun y => S (weight y)) (x :: items)) <= fuel)%nat ->
    parse_elements fuel (join_comma (List.map JSON_stringify (x :: items)) ++ 93 :: rest)
    = Parsed (x :: items) rest.
Proof.
  revert x; induction items as [|y items IH]; intros x Hall Hkeys fuel rest Hfuel.
  - apply List.Forall_inv in Hall. cbn [forallb] in Hkeys. rewrite andb_true_r in Hkeys.
    cbn [List.map list_sum fold_right] in Hfuel. destruct fuel as [|fuel]; [lia|].
    cbn [List.map join_comma]. rewrite parse_elements_S.
    rewrite (Hall Hkeys fuel (93 :: rest)); [reflexivity | cbn; tauto | lia].
  - pose proof (List.Forall_inv Hall) as Hx. apply List.Forall_inv_tail in Hall.
    cbn [forallb] in Hkeys. apply andb_true_iff in Hkeys as [Hkx Hkeys].
    change (list_sum (List.map (fun y => S (weight y)) (x :: y :: items)))
      with (S (weight x) + list_sum (List.map (fun y => S (weight y)) (y :: items)))%nat in Hfuel.
    destruct fuel as [|fuel]; [lia|].
    change (join_comma (List.map JSON_stringify (x :: y :: items)))
      with (JSON_stringify x ++ [44] ++ join_comma (List.map JSON_stringify (y :: items))).
    rewrite <- !List.app_assoc. cbn [app]. rewrite parse_elements_S.
    rewrite (Hx Hkx fuel); [| cbn; tauto | lia].
    cbn [skip_ws is_ws N.eqb Pos.eqb orb].
    rewrite (IH y Hall Hkeys fuel rest) by (cbn [List.map list_sum fold_right] in *; lia).
    reflexivity.
Qed.

Lemma parse_members_stringify (kv : jsstring * value) (props : list (jsstring * value)) :
  List.Forall (fun p => parses_back (snd p)) (kv :: props) ->
  forallb (fun p => unique_keys (snd p)) (kv :: props) = true ->
  forall fuel rest,
    (list_sum (List.map (fun p => S (weight (snd p))) (kv :: props)) <= fuel)%nat ->
    parse_members fuel
      (join_comma (List.map (fun p => QuoteJSONString (fst p) ++ 58 :: JSON_stringify (snd p))
                            (kv :: props)) ++ 125 :: rest)
    = Parsed (kv :: props) rest.
Proof.
  revert kv; induction props as [|kv' props IH]; intros [k v] Hall Hkeys fuel rest Hfuel.
  - apply List.Forall_inv in Hall. cbn [forallb snd] in Hkeys, Hall.
    rewrite andb_true_r in Hkeys.
    cbn [List.map list_sum fold_right snd] in Hfuel. destruct fuel as [|fuel]; [lia|].
    cbn [List.map join_comma fst snd]. unfold QuoteJSONString.
    rewrite <- !List.app_assoc. cbn [app]. rewrite parse_members_S.
    cbn [skip_ws is_ws N.eqb Pos.eqb orb]. rewrite parse_quote_units.
    cbn [skip_ws is_ws N.eqb Pos.eqb orb].
    rewrite (Hall Hkeys fuel (125 :: rest)); [reflexivity | cbn; tauto | lia].
  - pose proof (List.Forall_inv Hall) as Hx. apply List.Forall_inv_tail in Hall.
    cbn [forallb snd] in Hkeys, Hx. apply andb_true_iff in Hkeys as [Hkx Hkeys].
    change (list_sum (List.map (fun p => S (weight (snd p))) ((k, v) :: kv' :: props)))
      with (S (weight v) + list_sum (List.map (fun p => S (weight (snd p))) (kv' :: props)))%nat
      in Hfuel.
    destruct fuel as [|fuel]; [lia|].
    change (join_comma (List.map (fun p => QuoteJSONString (fst p) ++ 58 :: JSON_stringify (snd p))
                                 ((k, v) :: kv' :: props)))
      with ((QuoteJSONString k ++ 58 :: JSON_stringify v) ++ [44] ++
            join_comma (List.map (fun p => QuoteJSONString (fst p) ++ 58 :: JSON_stringify (snd p))
                                 (kv' :: props))).
    unfold QuoteJSONString at 1. rewrite <- !List.app_assoc. cbn [app].
    rewrite parse_members_S.
    cbn [skip_ws is_ws N.eqb Pos.eqb orb]. rewrite parse_quote_units.
    cbn [skip_ws is_ws N.eqb Pos.eqb orb].
    rewrite (Hx Hkx fuel); [| cbn; tauto | lia].
    cbn [skip_ws is_ws N.eqb Pos.eqb orb].
    rewrite (IH kv' Hall Hkeys fuel rest) by (cbn [List.map list_sum fold_right] in *; lia).
    reflexivity.
Qed.

(** The text of a value parses back to the value, whatever follows it that
    may follow a value, on any fuel from the weight of the value up. *)
Lemma parse_value_stringify (v : value) : parses_back v.
Proof.
  induction v as [|b|n|s|items IH|props IH] using value_ind';
    intros Hkeys fuel rest Hrest Hfuel; (destruct fuel as [|fuel]; [cbn in Hfuel; lia|]).
  - reflexivity.
  - destruct b; reflexivity.
  - destruct (Number_toString_head n) as (c & tail & E & Hc).
    pose proof (parse_number_toString n rest (value_end_number_end rest Hrest)) as Hn.
    cbn [JSON_stringify]. rewrite E in *. cbn [app] in *.
    destruct (number_head_facts c Hc) as (Hws & H1 & H2 & H3 & H4 & H5 & H6 & _).
    rewrite parse_value_by_head by assumption.
    apply N.eqb_neq in H4, H5, H6. now rewrite H4, H5, H6, Hn.
  - cbn [JSON_stringify]. unfold QuoteJSONString. rewrite <- ?List.app_assoc. cbn [app].
    rewrite parse_value_by_head by (reflexivity || discriminate).
    cbn [N.eqb Pos.eqb]. now rewrite parse_quote_units.
  - cbn [JSON_stringify]. rewrite <- ?List.app_assoc. cbn [app].
    rewrite parse_value_by_head by (reflexivity || discriminate).
    cbn [N.eqb Pos.eqb]. destruct items as [|x items]; [reflexivity|].
    destruct (JSON_stringify_head x) as (c & tail & E & Hws & H93).
    assert (Hskip : exists r,
      skip_ws (join_comma (List.map JSON_stringify (x :: items)) ++ 93 :: rest) = c :: r).
    { destruct items; cbn [List.map join_comma]; rewrite E; cbn [app];
        rewrite skip_ws_head by exact Hws; now eexists. }
    destruct Hskip as (r & ->). apply N.eqb_neq in H93. rewrite H93.
    cbn [unique_keys] in Hkeys. cbn [weight] in Hfuel.
    rewrite (parse_elements_stringify x items IH Hkeys fuel rest) by lia. reflexivity.
  - cbn [JSON_stringify]. rewrite <- ?List.app_assoc. cbn [app].
    rewrite parse_value_by_head by (reflexivity || discriminate).
    cbn [N.eqb Pos.eqb]. destruct props as [|kv props]; [reflexivity|].
    assert (Hskip : exists r,
      skip_ws (join_comma (List.map (fun p => QuoteJSONString (fst p) ++ 58 :: JSON_stringify (snd p))
                                    (kv :: props)) ++ 125 :: rest) = 34 :: r).
    { destruct props; cbn [List.map join_comma]; unfold QuoteJSONString; cbn [app];
        rewrite skip_ws_head by reflexivity; now eexists. }
    destruct Hskip as (r & ->). cbn [N.eqb Pos.eqb].
    cbn [unique_keys] in Hkeys. apply andb_true_iff in Hkeys as [Hd Hkeys].
    cbn [weight] in Hfuel.
    rewrite (parse_members_stringify kv props IH Hkeys fuel rest) by lia.
    now rewrite build_object_distinct.
Qed.

(** The text of a value has at least as many characters as parsing it
    takes fuel. *)
Lemma weight_elements (items : list value) :
  List.Forall (fun v => (weight v <= length (JSON_stringify v))%nat) items ->
  (list_sum (List.map (fun x => S (weight x)) items)
   <= S (length (join_comma (List.map JSON_stringify items))))%nat.
Proof.
  induction 1 as [|x items Hx Hall IH]; cbn [List.map list_sum fold_right join_comma length].
  - lia.
  - fold (list_sum (List.map (fun x => S (weight x)) items)).
    destruct items as [|y items].
    + cbn [List.map list_sum fold_right]. lia.
    + change (List.map JSON_stringify (y :: items))
        with (JSON_stringify y :: List.map JSON_stringify items) in *.
      cbv iota. rewrite !List.length_app. cbn [length]. lia.
Qed.

Lemma weight_members (props : list (jsstring * value)) :
  List.Forall (fun kv => (weight (snd kv) <= length (JSON_stringify (snd kv)))%nat) props ->
  (list_sum (List.map (fun kv => S (weight (snd kv))) props)
   <= S (length (join_comma
                   (List.map (fun kv => QuoteJSONString (fst kv) ++ 58%N :: JSON_stringify (snd kv))
                             props))))%nat.
Proof.
  induction 1 as [|x props Hx Hall IH]; cbn [List.map list_sum fold_right join_comma length].
  - lia.
  - fold (list_sum (List.map (fun kv => S (weight (snd kv))) props)).
    destruct props as [|y props].
    + cbn [List.map list_sum fold_right]. cbv iota. rewrite !List.length_app.
      cbn [length]. lia.
    + change (List.map ?f (y :: props)) with (f y :: List.map f props) in *.
      cbv iota. rewrite !List.length_app. cbn [length] in *. lia.
Qed.

Lemma weight_le_length (v : value) : (weight v <= length (JSON_stringify v))%nat.
Proof.
  induction v as [|b|n|s|items IH|props IH] using value_ind'.
  - cbn. lia.
  - destruct b; cbn; lia.
  - destruct (Number_toString_head n) as (c & tail & E & _).
    cbn [weight JSON_stringify]. rewrite E. cbn [length]. lia.
  - cbn [weight JSON_stringify]. unfold QuoteJSONString. cbn [app length]. lia.
  - apply weight_elements in IH. cbn [weight JSON_stringify app length].
    rewrite List.length_app. cbn [length]. lia.
  - apply weight_members in IH. cbn [weight JSON_stringify app length].
    rewrite List.length_app. cbn [length]. lia.
Qed.

(** [JSON.parse(JSON.stringify(v))] is [v]. *)
Lemma JSON_parse_stringify (v : value) :
  unique_keys v = true -> JSON_parse (JSON_stringify v) = Normal v.
Proof.
  intros Hkeys. unfold JSON_parse.
  pose proof (weight_le_length v) as Hw.
  pose proof (parse_value_stringify v Hkeys (2 * length (JSON_stringify v) + 2)%nat [] I) as H.
  rewrite List.app_nil_r in H. rewrite H by lia. reflexivity.
Qed.

(** *** The fuel of [JSON.parse] is enough

    Parsing never gives up for lack of fuel on the fuel [JSON_parse]
    provides, so a text it rejects is a text that is not JSON. *)

Lemma skip_ws_length (s : jsstring) : (length (skip_ws s) <= length s)%nat.
Proof.
  induction s as [|c s IH]; cbn [skip_ws length]; [lia|].
  destruct (is_ws c); cbn [length]; lia.
Qed.

Lemma prepend_Some (u : N) (r : option (jsstring * jsstring)) (str rest : jsstring) :
  prepend u r = Some (str, rest) -> exists str', r = Some (str', rest).
Proof.
  destruct r as [[str' rest']|]; cbn [prepend]; [|discriminate].
  intros [= <- <-]. now exists str'.
Qed.

Lemma parse_string_length (s str rest : jsstring) :
  parse_string s = Some (str, rest) -> (length rest <= length s)%nat.
Proof.
  revert str rest.
  induction s as [s IH] using (induction_ltof1 _ (@length N)); unfold ltof in IH.
  intros str rest. destruct s as [|c s]; cbn [parse_string]; [discriminate|].
  destruct (c =? 34); [intros [= <- <-]; cbn [length]; lia|].
  destruct (c =? 92).
  - destruct s as [|e r]; [discriminate|].
    destruct (simple_escape e).
    + intros H. apply prepend_Some in H as (str' & Hr).
      apply IH in Hr; cbn [length] in *; lia.
    + destruct (e =? 117); [|discriminate].
      destruct r as [|h1 [|h2 [|h3 [|h4 r']]]]; try discriminate.
      destruct (hex4 h1 h2 h3 h4); [|discriminate].
      intros H. apply prepend_Some in H as (str' & Hr).
      apply IH in Hr; cbn [length] in *; lia.
  - destruct (c <? 32); [discriminate|].
    intros H. apply prepend_Some in H as (str' & Hr).
    apply IH in Hr; cbn [length] in *; lia.
Qed.

Lemma take_digits_length (s : jsstring) : (length (snd (take_digits s)) <= length s)%nat.
Proof.
  induction s as [|c s IH]; cbn [take_digits snd length]; [lia|].
  destruct (is_digit c); [|cbn [snd length]; lia].
  destruct (take_digits s) as [ds r]. cbn [snd] in *. lia.
Qed.

Lemma take_fraction_length (s fs rest : jsstring) :
  take_fraction s = Some (fs, rest) -> (length rest <= length s)%nat.
Proof.
  destruct s as [|c s]; cbn [take_fraction]; [intros [= <- <-]; lia|].
  destruct (c =? 46); [|intros [= <- <-]; lia].
  pose proof (take_digits_length s) as H. destruct (take_digits s) as [[|d ds] r];
    [discriminate|]. intros [= <- <-]. cbn [snd length] in *. lia.
Qed.

Lemma take_exponent_length (s : jsstring) (e : Z) (rest : jsstring) :
  take_exponent s = Some (e, rest) -> (length rest <= length s)%nat.
Proof.
  destruct s as [|c s]; cbn [take_exponent]; [intros [= <- <-]; lia|].
  destruct ((c =? 101) || (c =? 69)); [|intros [= <- <-]; lia].
  assert (H : forall r1, (length r1 <= length s)%nat ->
            match take_digits r1 with
            | ([], _) => None
            | (d :: ds, r2) => Some (e, r2)
            end = Some (e, rest) -> (length rest <= length (c :: s))%nat).
  { intros r1 Hr1. pose proof (take_digits_length r1) as H.
    destruct (take_digits r1) as [[|d ds] r2]; [discriminate|].
    intros [= <-]. cbn [snd length] in *. lia. }
  destruct s as [|sign s'].
  - cbn [take_digits]. discriminate.
  - destruct (sign =? 45); [|destruct (sign =? 43)];
      match goal with
      | |- match take_digits ?r1 with _ => _ end = _ -> _ =>
          pose proof (take_digits_length r1) as Hlen;
          destruct (take_digits r1) as [[|d ds] r2]; [discriminate|];
          intros [= _ <-]; cbn [snd length] in *; lia
      end.
Qed.

Lemma parse_magnitude_length (negative : bool) (s : jsstring) (n : number) (rest : jsstring) :
  parse_magnitude negative s = Some (n, rest) -> (length rest <= length s)%nat.
Proof.
  unfold parse_magnitude. pose proof (take_digits_length s) as H1.
  destruct (take_digits s) as [int s2]. cbn [snd] in H1.
  destruct (bad_integer int); [discriminate|].
  destruct (take_fraction s2) as [[fs s3]|] eqn:E2; [|discriminate].
  apply take_fraction_length in E2.
  destruct (take_exponent s3) as [[e s4]|] eqn:E3; [|discriminate].
  apply take_exponent_length in E3. intros [= _ <-]. lia.
Qed.

Lemma parse_number_length (s : jsstring) (n : number) (rest : jsstring) :
  parse_number s = Some (n, rest) -> (length rest <= length s)%nat.
Proof.
  destruct s as [|c s]; cbn [parse_number]; [discriminate|].
  destruct (c =? 45); intros H; apply parse_magnitude_length in H; cbn [length] in *; lia.
Qed.

(** What is left after a value, its elements or its members is no longer
    than the text. *)
Lemma parse_lengths (fuel : nat) :
  (forall s v rest, parse_value fuel s = Parsed v rest -> (length rest <= length s)%nat) /\
  (forall s vs rest, parse_elements fuel s = Parsed vs rest -> (length rest <= length s)%nat) /\
  (forall s ms rest, parse_members fuel s = Parsed ms rest -> (length rest <= length s)%nat).
Proof.
  induction fuel as [|fuel (IHv & IHe & IHm)]; [repeat split; discriminate|].
  split; [|split]; intros s.
  - intros v rest. rewrite parse_value_S. cbv zeta.
    pose proof (skip_ws_length s) as Hws.
    destruct (startsWith (skip_ws s) (lit "null"));
      [intros [= _ <-]; rewrite List.length_skipn; lia|].
    destruct (startsWith (skip_ws s) (lit "true"));
      [intros [= _ <-]; rewrite List.length_skipn; lia|].
    destruct (startsWith (skip_ws s) (lit "false"));
      [intros [= _ <-]; rewrite List.length_skipn; lia|].
    destruct (skip_ws s) as [|c r0] eqn:Es; [discriminate|]. cbn [length] in Hws.
    destruct (c =? 34).
    { destruct (parse_string r0) as [[str r]|] eqn:E; [|discriminate].
      apply parse_string_length in E. intros [= _ <-]. lia. }
    destruct (c =? 91).
    { pose proof (skip_ws_length r0) as Hws'.
      destruct (skip_ws r0) as [|c' r]; [discriminate|]. cbn [length] in Hws'.
      destruct (c' =? 93); [intros [= _ <-]; lia|].
      destruct (parse_elements fuel r0) as [items r'| |] eqn:E; try discriminate.
      apply IHe in E. intros [= _ <-]. lia. }
    destruct (c =? 123).
    { pose proof (skip_ws_length r0) as Hws'.
      destruct (skip_ws r0) as [|c' r]; [discriminate|]. cbn [length] in Hws'.
      destruct (c' =? 125); [intros [= _ <-]; lia|].
      destruct (parse_members fuel r0) as [members r'| |] eqn:E; try discriminate.
      apply IHm in E. intros [= _ <-]. lia. }
    destruct (parse_number (c :: r0)) as [[n r]|] eqn:E; [|discriminate].
    apply parse_number_length in E. intros [= _ <-]. cbn [length] in E. lia.
  - intros vs rest. rewrite parse_elements_S.
    destruct (parse_value fuel s) as [v r| |] eqn:E; try discriminate.
    apply IHv in E. pose proof (skip_ws_length r) as Hws.
    destruct (skip_ws r) as [|c r1]; [discriminate|]. cbn [length] in Hws.
    destruct (c =? 93); [intros [= _ <-]; lia|].
    destruct (c =? 44); [|discriminate].
    destruct (parse_elements fuel r1) as [vs' r'| |] eqn:E'; try discriminate.
    apply IHe in E'. intros [= _ <-]. lia.
  - intros ms rest. rewrite parse_members_S.
    pose proof (skip_ws_length s) as Hws.
    destruct (skip_ws s) as [|q r0]; [discriminate|]. cbn [length] in Hws.
    destruct (q =? 34); [|discriminate].
    destruct (parse_string r0) as [[key r]|] eqn:Ek; [|discriminate].
    apply parse_string_length in Ek. pose proof (skip_ws_length r) as Hws1.
    destruct (skip_ws r) as [|colon r1]; [discriminate|]. cbn [length] in Hws1.
    destruct (colon =? 58); [|discriminate].
    destruct (parse_value fuel r1) as [v r2| |] eqn:Ev; try discriminate.
    apply IHv in Ev. pose proof (skip_ws_length r2) as Hws2.
    destruct (skip_ws r2) as [|c r3]; [discriminate|]. cbn [length] in Hws2.
    destruct (c =? 125); [intros [= _ <-]; lia|].
    destruct (c =? 44); [|discriminate].
    destruct (parse_members fuel r3) as [ms' r4| |] eqn:Em; try discriminate.
    apply IHm in Em. intros [= _ <-]. lia.
Qed.

(** Fuel for twice the characters of the text, and a little, is enough for
    each of the three parsers. *)
Lemma parse_fuel (fuel : nat) :
  (forall s, (2 * length s + 1 <= fuel)%nat -> parse_value fuel s <> OutOfFuel) /\
  (forall s, (2 * length s + 2 <= fuel)%nat -> parse_elements fuel s <> OutOfFuel) /\
  (forall s, (2 * length s + 2 <= fuel)%nat -> parse_members fuel s <> OutOfFuel).
Proof.
  induction fuel as [|fuel (IHv & IHe & IHm)]; [repeat split; intros; lia|].
  split; [|split]; intros s Hfuel.
  - rewrite parse_value_S. cbv zeta. pose proof (skip_ws_length s) as Hws.
    destruct (startsWith (skip_ws s) (lit "null")); [discriminate|].
    destruct (startsWith (skip_ws s) (lit "true")); [discriminate|].
    destruct (startsWith (skip_ws s) (lit "false")); [discriminate|].
    destruct (skip_ws s) as [|c r0] eqn:Es; [discriminate|]. cbn [length] in Hws.
    destruct (c =? 34); [destruct (parse_string r0) as [[? ?]|]; discriminate|].
    destruct (c =? 91).
    { destruct (skip_ws r0) as [|c' r]; [discriminate|].
      destruct (c' =? 93); [discriminate|].
      specialize (IHe r0 ltac:(lia)).
      destruct (parse_elements fuel r0); [discriminate | discriminate | contradiction]. }
    destruct (c =? 123).
    { destruct (skip_ws r0) as [|c' r]; [discriminate|].
      destruct (c' =? 125); [discriminate|].
      specialize (IHm r0 ltac:(lia)).
      destruct (parse_members fuel r0); [discriminate | discriminate | contradiction]. }
    destruct (parse_number (c :: r0)) as [[? ?]|]; discriminate.
  - rewrite parse_elements_S. specialize (IHv s ltac:(lia)).
    destruct (parse_value fuel s) as [v r| |] eqn:E; [|discriminate|contradiction].
    apply (proj1 (parse_lengths fuel)) in E. pose proof (skip_ws_length r) as Hws.
    destruct (skip_ws r) as [|c r1]; [discriminate|]. cbn [length] in Hws.
    destruct (c =? 93); [discriminate|]. destruct (c =? 44); [|discriminate].
    specialize (IHe r1 ltac:(lia)).
    destruct (parse_elements fuel r1); [discriminate | discriminate | contradiction].
  - rewrite parse_members_S. pose proof (skip_ws_length s) as Hws.
    destruct (skip_ws s) as [|q r0]; [discriminate|]. cbn [length] in Hws.
    destruct (q =? 34); [|discriminate].
    destruct (parse_string r0) as [[key r]|] eqn:Ek; [|discriminate].
    apply parse_string_length in Ek. pose proof (skip_ws_length r) as Hws1.
    destruct (skip_ws r) as [|colon r1]; [discriminate|]. cbn [length] in Hws1.
    destruct (colon =? 58); [|discriminate].
    specialize (IHv r1 ltac:(lia)).
    destruct (parse_value fuel r1) as [v r2| |] eqn:Ev; [|discriminate|contradiction].
    apply (proj1 (parse_lengths fuel)) in Ev. pose proof (skip_ws_length r2) as Hws2.
    destruct (skip_ws r2) as [|c r3]; [discriminate|]. cbn [length] in Hws2.
    destruct (c =? 125); [discriminate|]. destruct (c =? 44); [|discriminate].
    specialize (IHm r3 ltac:(lia)).
    destruct (parse_members fuel r3); [discriminate | discriminate | contradiction].
Qed.

(** [JSON_parse] never runs out of fuel. *)
Lemma JSON_parse_fuel (text : jsstring) :
  parse_value (2 * length text + 2) text <> OutOfFuel.
Proof. apply (proj1 (parse_fuel _)). lia. Qed.

End JsonRoundTripFacts.

(* ===================================================================== *)
(** ** Facts. Persistence: saving and loading the collection *)
(* ===================================================================== *)

Module PersistenceFacts.
Import Context Provider Json JsonRoundTrip JsonRoundTripFacts Persistence.

Lemma unique_keys_obj (props : list (jsstring * value)) :
  unique_keys (JObj props)
  = distinct (List.map fst props) && forallb (fun kv => unique_keys (snd kv)) props.
Proof. reflexivity. Qed.

Lemma unique_keys_Citation (c : Citation) : unique_keys (Citation_to_value c) = true.
Proof. destruct c as [t s u [p|] [m|]]; reflexivity. Qed.

Lemma unique_keys_citations (cs : list Citation) :
  forallb unique_keys (List.map Citation_to_value cs) = true.
Proof.
  induction cs as [|c cs IH]; [reflexivity|].
  cbn [List.map forallb]. now rewrite unique_keys_Citation, IH.
Qed.

Lemma unique_keys_VerificationResult (r : VerificationResult) :
  unique_keys (VerificationResult_to_value r) = true.
Proof.
  destruct r as [vd c e [cs|] [l|] [m|] [p|]];
    unfold VerificationResult_to_value; cbn [optional app verdict confidence explanation
      citations language model processingTime];
    rewrite unique_keys_obj; (apply andb_true_iff; split; [vm_compute; reflexivity|]);
    cbn [forallb snd unique_keys]; rewrite ?unique_keys_citations; reflexivity.
Qed.

Lemma unique_keys_Verification (v : Verification) :
  unique_keys (Verification_to_value v) = true.
Proof.
  unfold Verification_to_value. rewrite unique_keys_obj.
  apply andb_true_iff; split; [vm_compute; reflexivity|].
  cbn [forallb snd]. rewrite unique_keys_VerificationResult. reflexivity.
Qed.

Lemma unique_keys_collection (vs : list Verification) : unique_keys (collection vs) = true.
Proof.
  unfold collection. cbn [unique_keys].
  induction vs as [|v vs IH]; [reflexivity|].
  cbn [List.map forallb]. now rewrite unique_keys_Verification, IH.
Qed.

(** The typed reading of the value of a typed record is the record. *)
Lemma Citation_of_to_value (c : Citation) : Citation_of_value (Citation_to_value c) = Some c.
Proof. destruct c as [t s u [p|] [m|]]; reflexivity. Qed.

Lemma read_all_map {A} (read : value -> option A) (write : A -> value) (l : list A) :
  (forall a, read (write a) = Some a) -> read_all read (List.map write l) = Some l.
Proof.
  intros H. induction l as [|a l IH]; [reflexivity|].
  cbn [List.map read_all]. now rewrite H, IH.
Qed.

Lemma VerificationResult_of_to_value (r : VerificationResult) :
  VerificationResult_of_value (VerificationResult_to_value r) = Some r.
Proof.
  destruct r as [vd c e [cs|] [l|] [m|] [p|]];
    unfold VerificationResult_to_value, VerificationResult_of_value;
    cbn [optional app verdict confidence explanation citations language model processingTime];
    try reflexivity;
    change (lookup_prop (lit "citations") ?props)
      with (Some (JArr (List.map Citation_to_value cs)));
    cbn [as_optional as_array];
    rewrite (read_all_map _ _ cs Citation_of_to_value); reflexivity.
Qed.

Lemma Verification_of_to_value (v : Verification) :
  Verification_of_value (Verification_to_value v) = Some v.
Proof.
  destruct v as [i inp r t]. unfold Verification_to_value, Verification_of_value.
  cbn [id input result timestamp].
  change (lookup_prop (lit "result") ?props) with (Some (VerificationResult_to_value r)).
  cbv iota. rewrite VerificationResult_of_to_value. reflexivity.
Qed.

Lemma as_collection_collection (vs : list Verification) : as_collection (collection vs) = Some vs.
Proof. apply read_all_map, Verification_of_to_value. Qed.

(** Two typed collections with one value are one collection. *)
Lemma collection_inj (vs ws : list Verification) : collection vs = collection ws -> vs = ws.
Proof.
  intros H. apply (f_equal as_collection) in H.
  rewrite !as_collection_collection in H. now injection H.
Qed.

Lemma stringify_collection_nonempty (vs : list Verification) :
  exists c text, JSON_stringify (collection vs) = c :: text.
Proof. cbn [collection JSON_stringify app]. now eexists _, _. Qed.

Lemma saveEffect_healthy (st : VerificationState) (ls : Storage) :
  healthy ls ->
  saveEffect st ls
  = {| disabled := false; quota := None;
       items := <[storageKey := JSON_stringify (verifications st)]> (items ls) |}.
Proof.
  intros [Hd Hq]. unfold saveEffect, setItem. now rewrite Hd, Hq.
Qed.

Lemma loadEffect_stored (ls : Storage) (v : value) :
  disabled ls = false ->
  items ls !! storageKey = Some (JSON_stringify v) ->
  unique_keys v = true ->
  loadEffect ls = Some (LOAD_FROM_STORAGE v).
Proof.
  intros Hd Hget Hkeys. unfold loadEffect, loadEffect_try, getItem.
  rewrite Hd. cbn [bind]. rewrite Hget.
  destruct (JSON_stringify_head v) as (c & text & E & _).
  pose proof (JSON_parse_stringify v Hkeys) as Hparse. rewrite E in *.
  now rewrite Hparse.
Qed.

(** C3, as stated, fails: the text [[1]] parses, to an array that is no
    collection of verification records, and the first effect loads it as it
    is; the collection is then the array of the number 1 and not empty. *)
Lemma wrong_schema_is_loaded_counterexample :
  JSON_parse (lit "[1]") = Normal (JArr [JNum (number_of_Z 1)]) /\
  as_collection (JArr [JNum (number_of_Z 1)]) = None /\
  (exists session,
     mount (storageWith "[1]") = Normal session /\
     verifications (state session) = JArr [JNum (number_of_Z 1)]) /\
  ~ loads_empty_when_invalid.
Proof.
  assert (Hmount : exists session,
     mount (storageWith "[1]") = Normal session /\
     verifications (state session) = JArr [JNum (number_of_Z 1)]).
  { eexists. split; [vm_compute; reflexivity | reflexivity]. }
  split; [reflexivity|]. split; [reflexivity|]. split; [exact Hmount|].
  intros Hclaim.
  destruct (Hclaim (storageWith "[1]") (lit "[1]")) as (session & Hm & Hempty).
  - reflexivity.
  - reflexivity.
  - intros v Hv. vm_compute in Hv. injection Hv as <-. reflexivity.
  - destruct Hmount as (session' & Hm' & Hv'). rewrite Hm in Hm'. injection Hm' as <-.
    rewrite Hempty in Hv'. discriminate Hv'.
Qed.

(** C3, amended.  Mounting the provider never raises, whatever the storage.
    When the storage refuses access, holds nothing or the empty string
    under the key, or holds a text that [JSON.parse] rejects, the collection
    stays empty.  A text that parses is loaded as it is: the effect checks
    no schema. *)
Theorem load_fails_soft (ls : Storage) :
  exists session,
    mount ls = Normal session /\
    ((disabled ls = true \/
      items ls !! storageKey = None \/
      items ls !! storageKey = Some [] \/
      (exists text e, items ls !! storageKey = Some text /\ JSON_parse text = Throw e)) ->
     verifications (state session) = JArr []) /\
    (forall text v,
       disabled ls = false ->
       items ls !! storageKey = Some text ->
       text <> [] ->
       JSON_parse text = Normal v ->
       verifications (state session) = v).
Proof.
  unfold mount, loadEffect, loadEffect_try, getItem.
  destruct (disabled ls) eqn:Hd; cbn [bind].
  - eexists. split; [reflexivity|]. split; [reflexivity|]. intros; discriminate.
  - destruct (items ls !! storageKey) as [[|c text]|] eqn:Hget.
    + eexists. split; [reflexivity|]. split; [reflexivity|].
      intros text v _ [= <-] Hne. contradiction.
    + destruct (JSON_parse (c :: text)) as [v|e] eqn:Hparse; cbn [bind verificationReducer].
      * eexists. split; [reflexivity|]. cbn [state verifications]. split.
        -- intros [H | [H | [H | (text' & e & H & Hthrow)]]]; try discriminate.
           injection H as <-. congruence.
        -- intros text' v' _ [= <-] _ Hv. congruence.
      * eexists. split; [reflexivity|]. split; [reflexivity|].
        intros text' v' _ [= <-] _ Hv. congruence.
    + eexists. split; [reflexivity|]. split; [reflexivity|]. intros; discriminate.
Qed.

(** C4.  On a healthy storage, saving a collection and then mounting a
    provider on what was saved gives the collection back: the text written
    under the key is [JSON.stringify] of the collection, the first effect
    dispatches the collection it parses from it, and the state then holds
    the same records, in the same order and with the same members. *)
Theorem save_then_load (vs : list Verification) (ls : Storage) :
  healthy ls ->
  let saved := saveEffect {| verifications := collection vs |} ls in
  items saved !! storageKey = Some (JSON_stringify (collection vs)) /\
  loadEffect saved = Some (LOAD_FROM_STORAGE (collection vs)) /\
  exists session,
    mount saved = Normal session /\
    verifications (state session) = collection vs /\
    as_collection (verifications (state session)) = Some vs /\
    items (localStorage session) !! storageKey = Some (JSON_stringify (collection vs)).
Proof.
  intros Hls saved. subst saved. rewrite (saveEffect_healthy _ ls Hls). cbn [verifications].
  set (saved := {| disabled := false; quota := None;
                   items := <[storageKey := JSON_stringify (collection vs)]> (items ls) |}).
  assert (Hget : items saved !! storageKey = Some (JSON_stringify (collection vs)))
    by apply lookup_insert_eq.
  assert (Hload : loadEffect saved = Some (LOAD_FROM_STORAGE (collection vs)))
    by (apply loadEffect_stored; [reflexivity | exact Hget | apply unique_keys_collection]).
  split; [exact Hget|]. split; [exact Hload|].
  unfold mount. rewrite Hload. cbn [verificationReducer bind].
  eexists. split; [reflexivity|]. cbn [state localStorage verifications].
  split; [reflexivity|]. split; [apply as_collection_collection|].
  rewrite !saveEffect_healthy by (split; reflexivity). cbn [items verifications].
  apply lookup_insert_eq.
Qed.

Lemma save_then_load_witness :
  let saved :=
    saveEffect {| verifications := collection [Store.record_B; Store.record_A] |} emptyStorage in
  items saved !! storageKey = Some (JSON_stringify (collection [Store.record_B; Store.record_A])) /\
  loadEffect saved = Some (LOAD_FROM_STORAGE (collection [Store.record_B; Store.record_A])) /\
  exists session,
    mount saved = Normal session /\
    verifications (state session) = collection [Store.record_B; Store.record_A] /\
    as_collection (verifications (state session)) = Some [Store.record_B; Store.record_A] /\
    items (localStorage session) !! storageKey
      = Some (JSON_stringify (collection [Store.record_B; Store.record_A])).
Proof.
  apply (save_then_load [Store.record_B; Store.record_A] emptyStorage).
  split; reflexivity.
Defined.

(** [JSON.parse(JSON.stringify(v))] gives [v] back, for every value whose
    objects have no name twice. *)
Theorem stringify_then_parse (v : value) :
  unique_keys v = true -> JSON_parse (JSON_stringify v) = Normal v.
Proof. apply JSON_parse_stringify. Qed.

Lemma stringify_then_parse_witness :
  JSON_parse (JSON_stringify (collection [Store.record_A; Store.record_B]))
  = Normal (collection [Store.record_A; Store.record_B]).
Proof.
  apply (stringify_then_parse (collection [Store.record_A; Store.record_B])). reflexivity.
Defined.

(** A write that fails changes nothing: when the storage refuses access,
    or the text is longer than the quota allows, the second effect leaves
    the storage as it was. *)
Theorem save_fails_soft (st : VerificationState) (ls : Storage) :
  disabled ls = true \/
  (exists room, quota ls = Some room /\
                (room < length (JSON_stringify (verifications st)))%nat) ->
  saveEffect st ls = ls.
Proof.
  unfold saveEffect, setItem. intros [Hd | (room & Hq & Hroom)].
  - now rewrite Hd.
  - destruct (disabled ls); [reflexivity|]. rewrite Hq.
    apply Nat.ltb_lt in Hroom. now rewrite Hroom.
Qed.

Lemma save_fails_soft_witness :
  saveEffect {| verifications := collection [Store.record_A] |} deniedStorage = deniedStorage.
Proof.
  apply (save_fails_soft {| verifications := collection [Store.record_A] |} deniedStorage).
  now left.
Defined.

(** Every action that the reducer accepts is followed by a save of the
    whole new collection: on a healthy storage the text under the key is
    then [JSON.stringify] of the new state. *)
Theorem dispatch_persists (action : VerificationAction) (session : Session)
    (state' : VerificationState) :
  healthy (localStorage session) ->
  verificationReducer (state session) action = Normal state' ->
  exists session',
    dispatch action session = Normal session' /\
    state session' = state' /\
    items (localStorage session') !! storageKey
      = Some (JSON_stringify (verifications state')) /\
    healthy (localStorage session').
Proof.
  intros Hls Hred. unfold dispatch. rewrite Hred. cbn [bind].
  eexists. split; [reflexivity|]. cbn [state localStorage].
  rewrite saveEffect_healthy by exact Hls. cbn [items].
  split; [reflexivity|]. split; [apply lookup_insert_eq | split; reflexivity].
Qed.

Lemma dispatch_persists_witness :
  exists session',
    dispatch (addVerification Store.record_A)
             {| state := initialState; localStorage := emptyStorage |} = Normal session' /\
    state session' = {| verifications := collection [Store.record_A] |} /\
    items (localStorage session') !! storageKey
      = Some (JSON_stringify (verifications {| verifications := collection [Store.record_A] |})) /\
    healthy (localStorage session').
Proof.
  apply (dispatch_persists (addVerification Store.record_A)
           {| state := initialState; localStorage := emptyStorage |}
           {| verifications := collection [Store.record_A] |}).
  - split; reflexivity.
  - reflexivity.
Defined.

End PersistenceFacts.

(* ===================================================================== *)
(** ** Facts. The verification client *)
(* ===================================================================== *)

Module ApiClientFacts.
Import NewsApi ApiClient.

(** The value of a fallback answer is the value of the record of the store
    it is stored as. *)
Lemma asStored_to_value (r : Api.VerificationResult) :
  Context.VerificationResult_to_value (asStored r) = VerificationResult_to_value r.
Proof.
  destruct r as [vd c e cs l m p].
  unfold Context.VerificationResult_to_value, VerificationResult_to_value, asStored.
  cbn. rewrite List.map_map. reflexivity.
Qed.

(** What a response that is not [ok] and whose body decodes comes to: an
    error, and never the connectivity failure. *)
Lemma verify_try_not_ok (body : value) :
  exists e, verifyHealthClaim_try (Responded false (Normal body)) = Throw e /\
            isConnectivityFailure e = false.
Proof.
  unfold verifyHealthClaim_try. cbn [negb bind].
  destruct body as [ |b|n|t|items|props]; cbn [Get bind throwTypeError];
    try (eexists; split; [reflexivity | reflexivity]).
  destruct (lookup_prop (lit "error") props) as [v|]; cbn [bind];
    [|eexists; split; reflexivity].
  destruct (truthy v); [|eexists; split; reflexivity].
  destruct (ToString v) as [text|e] eqn:E; cbn [bind]; [eexists; split; reflexivity|].
  exists e. split; [reflexivity|].
  revert e E. induction v as [ |b|n|t|items IH|props' _] using value_ind'; intros e E;
    cbn [ToString] in E; try discriminate E.
  - revert e E. induction IH as [|x rest Hx Hrest IHrest]; intros e E; [discriminate E|].
    destruct (match x with JNull => Normal [] | _ => ToString x end) as [first|e'] eqn:Ex;
      cbn [bind] in E.
    + destruct rest as [|y rest']; [discriminate E|].
      match type of E with
      | bind ?j _ = _ => destruct j as [others|e''] eqn:Ej; cbn [bind] in E
      end; [discriminate E|].
      injection E as <-. now apply IHrest.
    + injection E as <-. destruct x; try discriminate Ex; apply Hx; exact Ex.
  - destruct (lookup_prop (lit "toString") props'); [|discriminate E].
    injection E as <-. reflexivity.
Qed.

(** The client answers in two ways only: with the body of a response that
    is [ok], as it is, or, when the request or the decoding of the body
    failed with the connectivity failure, with the answer of the fallback.
    Every other outcome is thrown to the caller. *)
Theorem verify_answers_in_two_ways (input : jsstring) (outcome : FetchOutcome)
    (s : randomness) (r : value) :
  fst (verifyHealthClaim input outcome s) = Normal r <->
  outcome = Responded true (Normal r) \/
  (r = VerificationResult_to_value (fst (Api.getMockVerificationResult input s)) /\
   exists e, isConnectivityFailure e = true /\
     (outcome = Rejected e \/ exists ok, outcome = Responded ok (Throw e))).
Proof.
  assert (Hthrown : forall e,
    verifyHealthClaim_try outcome = Throw e ->
    (fst (verifyHealthClaim input outcome s) = Normal r <->
     r = VerificationResult_to_value (fst (Api.getMockVerificationResult input s)) /\
     isConnectivityFailure e = true)).
  { intros e He. unfold verifyHealthClaim. rewrite He.
    fold (isConnectivityFailure e). destruct (isConnectivityFailure e).
    - unfold rbind. destruct (Api.getMockVerificationResult input s) as [res s'].
      cbn [fst rret]. split; [intros [= <-]; now split | intros [-> _]; reflexivity].
    - cbn [fst rret]. split; [discriminate | intros [_ H]; discriminate H]. }
  destruct outcome as [e | [|] [v|e]].
  - rewrite (Hthrown e eq_refl). split.
    + intros [-> He]. right. split; [reflexivity|]. exists e. split; [exact He | now left].
    + intros [H | (-> & e' & He' & [[= <-] | (ok & H)])]; try discriminate H. now split.
  - cbn. split.
    + intros [= <-]. now left.
    + intros [[= <-] | (_ & e & _ & [H | (ok & H)])]; try discriminate H. reflexivity.
  - rewrite (Hthrown e eq_refl). split.
    + intros [-> He]. right. split; [reflexivity|]. exists e. split; [exact He|].
      right. now exists true.
    + intros [H | (-> & e' & He' & [H | (ok & H)])]; try discriminate H.
      injection H as _ ->. now split.
  - destruct (verify_try_not_ok v) as (e & He & Hno). rewrite (Hthrown e He), Hno. split.
    + intros [_ H]. discriminate H.
    + intros [H | (_ & e' & _ & [H | (ok & H)])]; discriminate H.
  - rewrite (Hthrown e eq_refl). split.
    + intros [-> He]. right. split; [reflexivity|]. exists e. split; [exact He|].
      right. now exists false.
    + intros [H | (-> & e' & He' & [H | (ok & H)])]; try discriminate H.
      injection H as _ ->. now split.
Qed.

(** A response that is not [ok] is never answered: the client throws an
    [Error] with the [error] member of the body as its message, or with the
    words Verification failed when the body has no such member or a falsy
    one, and it draws nothing from the generator. *)
Theorem server_error_is_thrown (input : jsstring) (body : value) (s : randomness) :
  exists e,
    verifyHealthClaim input (Responded false (Normal body)) s = (Throw e, s) /\
    isConnectivityFailure e = false /\
    (forall props text,
       body = JObj props ->
       lookup_prop (lit "error") props = Some (JStr text) -> text <> [] ->
       e = mkError PlainError text) /\
    (forall props,
       body = JObj props ->
       match lookup_prop (lit "error") props with
       | Some v => truthy v = false
       | None => True
       end ->
       e = mkError PlainError (lit "Verification failed")).
Proof.
  destruct (verify_try_not_ok body) as (e & He & Hno). exists e.
  split; [|split; [exact Hno|split]].
  - unfold verifyHealthClaim. rewrite He. fold (isConnectivityFailure e). now rewrite Hno.
  - intros props text -> Herr Htext. unfold verifyHealthClaim_try in He.
    cbn [negb Get bind] in He. rewrite Herr in He. cbn [bind] in He.
    destruct text as [|c text]; [contradiction|]. cbn in He. now injection He as <-.
  - intros props -> Herr. unfold verifyHealthClaim_try in He.
    cbn [negb Get bind] in He. destruct (lookup_prop (lit "error") props) as [v|].
    + cbn [bind] in He. rewrite Herr in He. cbn in He. now injection He as <-.
    + cbn in He. now injection He as <-.
Qed.

(** [x.toFixed(1)] for [x] from 2 up to 4: a digit from 2 to 4, the point,
    a digit. *)
Lemma toFixed_1_from_2_to_4 (x : Q) :
  (2 <= x)%Q -> (x < 4)%Q ->
  exists a b, 2 <= a <= 4 /\ b <= 9 /\ Number_toFixed 1 x = [48 + a; 46; 48 + b].
Proof.
  intros Hlo Hhi. unfold Number_toFixed.
  destruct (Qlt_le_dec x 0) as [Hneg|_]; [exfalso; nra|].
  change (inject_Z (10 ^ Z.of_nat 1)) with 10%Q.
  set (y := (Qabs x * 10 + (1 # 2))%Q).
  assert (Hy : (inject_Z 20 <= y)%Q /\ (y < inject_Z 41)%Q).
  { unfold y. rewrite Qabs_pos by nra.
    change (inject_Z 20) with 20%Q. change (inject_Z 41) with 41%Q. split; nra. }
  destruct Hy as [Hy1 Hy2].
  assert (Hn : (20 <= Qfloor y <= 40)%Z).
  { split.
    - rewrite <- (Qfloor_Z 20). now apply Qfloor_resp_le.
    - enough (Qfloor y < 41)%Z by lia.
      rewrite Zlt_Qlt. eapply Qle_lt_trans; [apply Qfloor_le | exact Hy2]. }
  remember (Z.to_N (Qfloor y)) as n eqn:En.
  assert (Hk : exists k : nat, (k <= 20)%nat /\ n = 20 + N.of_nat k).
  { exists (N.to_nat (n - 20)). subst n. split; lia. }
  clear En Hn Hy1 Hy2 y. destruct Hk as (k & Hk & ->).
  exists ((20 + N.of_nat k) / 10), ((20 + N.of_nat k) mod 10).
  do 21 (destruct k as [|k];
         [split; [vm_compute; split; discriminate
                 |split; [vm_compute; discriminate | vm_compute; reflexivity]]|]).
  lia.
Qed.

(** The shape of every answer of the fallback. *)
Lemma mock_answer_shape (input : jsstring) (s : randomness) :
  let answer := fst (Api.getMockVerificationResult input s) in
  (exists c, (60 <= c <= 95)%Z /\ Api.confidence answer = number_of_Z c) /\
  (exists k, (1 <= k <= 3)%nat /\ Api.citations answer = firstn k Api.mockCitations) /\
  Api.language answer = lit "English" /\
  Api.model answer = lit "BioBERT + GPT-4" /\
  (exists a b, 2 <= a <= 4 /\ b <= 9 /\
     Api.processingTime answer = [48 + a; 46; 48 + b; 115]).
Proof.
  assert (Htime : forall u : sample,
    exists a b, 2 <= a <= 4 /\ b <= 9 /\
      Number_toFixed 1 (2 + outcome u * 2) ++ lit "s" = [48 + a; 46; 48 + b; 115]).
  { intros u. pose proof (FallbackFacts.sample_in_range u) as [H0 H1].
    destruct (toFixed_1_from_2_to_4 (2 + outcome u * 2)) as (a & b & Ha & Hb & E);
      [nra | nra |].
    exists a, b. split; [exact Ha|]. split; [exact Hb|]. now rewrite E. }
  unfold Api.getMockVerificationResult, rbind, Math_random, rret.
  destruct (includes (toLowerCase input) (lit "vaccine")
            && includes (toLowerCase input) (lit "autism"));
    [|destruct (includes (toLowerCase input) (lit "lemon"))];
    cbn [fst Api.confidence Api.citations Api.language Api.model Api.processingTime].
  - split; [exists 95%Z; split; [lia | reflexivity]|].
    split; [apply FallbackFacts.citations_drawn|]. split; [reflexivity|].
    split; [reflexivity | apply Htime].
  - split; [exists 72%Z; split; [lia | reflexivity]|].
    split; [apply FallbackFacts.citations_drawn|]. split; [reflexivity|].
    split; [reflexivity | apply Htime].
  - split.
    + eexists. split; [|reflexivity].
      pose proof (FallbackFacts.floor_of_scaled_sample (s 2%nat) 60 35 eq_refl) as H.
      change (inject_Z 60) with 60%Q in H. change (inject_Z 35) with 35%Q in H. lia.
    + split; [apply FallbackFacts.citations_drawn|]. split; [reflexivity|].
      split; [reflexivity | apply Htime].
Qed.

(** Under the connectivity failure the client answers with a record of
    the schema of the store, whatever the input and the outcomes of the
    generator: a verdict of the taxonomy, a whole confidence from 60 to 95,
    the first one, two or three citations of the fixed list, the language
    English, the model name, and a processing time from 2.0s to 4.0s. *)
Theorem fallback_answer_is_wellformed (input : jsstring) (e : Error) (s : randomness) :
  isConnectivityFailure e = true ->
  exists r : Context.VerificationResult,
    fst (verifyHealthClaim input (Rejected e) s)
      = Normal (Context.VerificationResult_to_value r) /\
    Provider.VerificationResult_of_value (Context.VerificationResult_to_value r) = Some r /\
    In (Context.verdict r) [lit "true"; lit "misleading"; lit "needs review"] /\
    (exists c, (60 <= c <= 95)%Z /\ Context.confidence r = number_of_Z c) /\
    (exists cs, Context.citations r = Some cs /\ (1 <= length cs <= 3)%nat) /\
    Context.language r = Some (lit "English") /\
    Context.model r = Some (lit "BioBERT + GPT-4") /\
    (exists a b, 2 <= a <= 4 /\ b <= 9 /\
       Context.processingTime r = Some [48 + a; 46; 48 + b; 115]).
Proof.
  intros He. unfold verifyHealthClaim, verifyHealthClaim_try.
  fold (isConnectivityFailure e). rewrite He.
  unfold rbind at 1.
  pose proof (mock_answer_shape input s) as Hshape.
  destruct (Api.getMockVerificationResult input s) as [answer s'].
  cbn [fst rret] in *. exists (asStored answer).
  destruct Hshape as ((c & Hc & Econf) & (k & Hk & Ecit) & Elang & Emodel & a & b & Ha & Hb & Etime).
  split; [now rewrite asStored_to_value|].
  split; [apply PersistenceFacts.VerificationResult_of_to_value|].
  unfold asStored; cbn [Context.verdict Context.confidence Context.citations
                        Context.language Context.model Context.processingTime].
  split; [destruct (Api.verdict answer); cbn; auto|].
  split; [now exists c|].
  split.
  { eexists. split; [reflexivity|]. rewrite List.length_map, Ecit, List.length_firstn.
    cbn [length Api.mockCitations]. lia. }
  split; [now rewrite Elang|]. split; [now rewrite Emodel|].
  exists a, b. split; [exact Ha|]. split; [exact Hb|]. now rewrite Etime.
Qed.

Lemma fallback_answer_is_wellformed_witness :
  exists r : Context.VerificationResult,
    fst (verifyHealthClaim (lit "Green tea cures headaches")
           (Rejected (mkError TypeError (lit "Failed to fetch")))
           (fun _ => Fallback.sample_half))
      = Normal (Context.VerificationResult_to_value r) /\
    Provider.VerificationResult_of_value (Context.VerificationResult_to_value r) = Some r /\
    In (Context.verdict r) [lit "true"; lit "misleading"; lit "needs review"] /\
    (exists c, (60 <= c <= 95)%Z /\ Context.confidence r = number_of_Z c) /\
    (exists cs, Context.citations r = Some cs /\ (1 <= length cs <= 3)%nat) /\
    Context.language r = Some (lit "English") /\
    Context.model r = Some (lit "BioBERT + GPT-4") /\
    (exists a b, 2 <= a <= 4 /\ b <= 9 /\
       Context.processingTime r = Some [48 + a; 46; 48 + b; 115]).
Proof.
  apply (fallback_answer_is_wellformed (lit "Green tea cures headaches")
           (mkError TypeError (lit "Failed to fetch")) (fun _ => Fallback.sample_half)).
  reflexivity.
Defined.

(** The body of the request carries the input as it was typed, whatever
    its characters: parsing the body gives back an object whose [input]
    is the input and whose [language] is auto. *)
Theorem request_body_carries_input (input : jsstring) :
  Json.JSON_parse (requestBody input)
  = Normal (JObj [(lit "input", JStr input); (lit "language", JStr (lit "auto"))]).
Proof. unfold requestBody. now apply JsonRoundTripFacts.JSON_parse_stringify. Qed.

End ApiClientFacts.

(* ===================================================================== *)
(** ** Facts. Mounting the provider again *)
(* ===================================================================== *)

Module ReloadFacts.
Import Context Provider Json JsonRoundTrip JsonRoundTripFacts Persistence.

Lemma set_prop_keys_distinct (k : jsstring) (v : value) (props : list (jsstring * value)) :
  distinct (List.map fst props) = true ->
  distinct (List.map fst (set_prop k v props)) = true /\
  forall k', existsb (eqb k') (List.map fst (set_prop k v props))
             = existsb (eqb k') (List.map fst props) || eqb k' k.
Proof.
  induction props as [|[k0 v0] props IH]; cbn [set_prop List.map fst distinct existsb].
  - intros _. split; [reflexivity|]. intros k'. now rewrite orb_false_r.
  - intros H. apply andb_true_iff in H as [Hk0 Hd]. destruct (IH Hd) as [IH1 IH2].
    destruct (eqb k k0) eqn:E; cbn [List.map fst distinct existsb].
    + split; [now rewrite Hk0, Hd|]. intros k'. apply eqb_eq in E. subst k0.
      destruct (eqb k' k); [reflexivity | now rewrite orb_false_r].
    + split.
      * rewrite IH1, IH2. apply negb_true_iff in Hk0. rewrite Hk0.
        rewrite eqb_sym, E. reflexivity.
      * intros k'. rewrite IH2. now rewrite orb_assoc.
Qed.

Lemma set_prop_values (P : value -> bool) (k : jsstring) (v : value)
    (props : list (jsstring * value)) :
  P v = true -> forallb (fun kv => P (snd kv)) props = true ->
  forallb (fun kv => P (snd kv)) (set_prop k v props) = true.
Proof.
  intros Hv. induction props as [|[k0 v0] props IH]; cbn [set_prop forallb snd].
  - intros _. now rewrite Hv.
  - intros H. apply andb_true_iff in H as [H0 H]. destruct (eqb k k0); cbn [forallb snd].
    + now rewrite Hv, H.
    + now rewrite H0, IH.
Qed.

(** An object that the parser builds has no name twice, whatever the
    members of the text. *)
Lemma build_object_unique_keys (members : list (jsstring * value)) :
  forallb (fun kv => unique_keys (snd kv)) members = true ->
  unique_keys (build_object members) = true.
Proof.
  unfold build_object. intros H.
  enough (G : forall acc,
    distinct (List.map fst acc) = true ->
    forallb (fun kv => unique_keys (snd kv)) acc = true ->
    unique_keys (JObj (fold_left (fun props kv => set_prop (fst kv) (snd kv) props)
                                 members acc)) = true)
    by (apply G; reflexivity).
  induction members as [|[k v] members IH]; intros acc Hd Hacc; cbn [fold_left fst snd].
  - cbn [unique_keys]. now rewrite Hd, Hacc.
  - cbn [forallb snd] in H. apply andb_true_iff in H as [Hv H].
    apply IH; [exact H | now apply set_prop_keys_distinct | now apply set_prop_values].
Qed.

(** Every value the parser returns has objects without a repeated name. *)
Lemma parse_unique_keys (fuel : nat) :
  (forall s v rest, parse_value fuel s = Parsed v rest -> unique_keys v = true) /\
  (forall s vs rest, parse_elements fuel s = Parsed vs rest ->
                     forallb unique_keys vs = true) /\
  (forall s ms rest, parse_members fuel s = Parsed ms rest ->
                     forallb (fun kv => unique_keys (snd kv)) ms = true).
Proof.
  induction fuel as [|fuel (IHv & IHe & IHm)]; [repeat split; discriminate|].
  split; [|split]; intros s.
  - intros v rest. rewrite parse_value_S. cbv zeta.
    destruct (startsWith (skip_ws s) (lit "null")); [now intros [= <- _]|].
    destruct (startsWith (skip_ws s) (lit "true")); [now intros [= <- _]|].
    destruct (startsWith (skip_ws s) (lit "false")); [now intros [= <- _]|].
    destruct (skip_ws s) as [|c r0]; [discriminate|].
    destruct (c =? 34).
    { destruct (parse_string r0) as [[str r]|]; [|discriminate]. now intros [= <- _]. }
    destruct (c =? 91).
    { destruct (skip_ws r0) as [|c' r]; [discriminate|].
      destruct (c' =? 93); [now intros [= <- _]|].
      destruct (parse_elements fuel r0) as [items r'| |] eqn:E; try discriminate.
      apply IHe in E. now intros [= <- _]. }
    destruct (c =? 123).
    { destruct (skip_ws r0) as [|c' r]; [discriminate|].
      destruct (c' =? 125); [now intros [= <- _]|].
      destruct (parse_members fuel r0) as [members r'| |] eqn:E; try discriminate.
      apply IHm in E. intros [= <- _]. now apply build_object_unique_keys. }
    destruct (parse_number (c :: r0)) as [[n r]|]; [|discriminate]. now intros [= <- _].
  - intros vs rest. rewrite parse_elements_S.
    destruct (parse_value fuel s) as [v r| |] eqn:E; try discriminate.
    apply IHv in E.
    destruct (skip_ws r) as [|c r1]; [discriminate|].
    destruct (c =? 93); [intros [= <- _]; cbn [forallb]; now rewrite E|].
    destruct (c =? 44); [|discriminate].
    destruct (parse_elements fuel r1) as [vs' r'| |] eqn:E'; try discriminate.
    apply IHe in E'. intros [= <- _]. cbn [forallb]. now rewrite E, E'.
  - intros ms rest. rewrite parse_members_S.
    destruct (skip_ws s) as [|q r0]; [discriminate|].
    destruct (q =? 34); [|discriminate].
    destruct (parse_string r0) as [[key r]|]; [|discriminate].
    destruct (skip_ws r) as [|colon r1]; [discriminate|].
    destruct (colon =? 58); [|discriminate].
    destruct (parse_value fuel r1) as [v r2| |] eqn:Ev; try discriminate.
    apply IHv in Ev.
    destruct (skip_ws r2) as [|c r3]; [discriminate|].
    destruct (c =? 125); [intros [= <- _]; cbn [forallb snd]; now rewrite Ev|].
    destruct (c =? 44); [|discriminate].
    destruct (parse_members fuel r3) as [ms' r4| |] eqn:Em; try discriminate.
    apply IHm in Em. intros [= <- _]. cbn [forallb snd]. now rewrite Ev, Em.
Qed.

Lemma JSON_parse_unique_keys (text : jsstring) (v : value) :
  JSON_parse text = Normal v -> unique_keys v = true.
Proof.
  unfold JSON_parse.
  destruct (parse_value (2 * length text + 2) text) as [v' rest| |] eqn:E; try discriminate.
  destruct (skip_ws rest); [|discriminate]. intros [= <-].
  now apply (proj1 (parse_unique_keys _)) in E.
Qed.

(** Saving touches the key of the provider and no other. *)
Lemma saveEffect_frame (st : VerificationState) (ls : Storage) (k : jsstring) :
  k <> storageKey -> items (saveEffect st ls) !! k = items ls !! k.
Proof.
  intros Hk. unfold saveEffect, setItem.
  destruct (disabled ls); [reflexivity|].
  destruct (quota ls) as [room|]; [destruct (room <? _)%nat; [reflexivity|]|];
    cbn [items]; now apply lookup_insert_ne.
Qed.

(** What mounting comes to on a healthy storage. *)
Lemma mount_healthy (ls : Storage) :
  healthy ls ->
  exists v,
    mount ls = Normal {| state := {| verifications := v |};
                         localStorage :=
                           {| disabled := false; quota := None;
                              items := <[storageKey := JSON_stringify v]> (items ls) |} |} /\
    unique_keys v = true /\
    (v = JArr [] \/
     exists text, items ls !! storageKey = Some text /\ JSON_parse text = Normal v).
Proof.
  intros Hls. pose proof Hls as [Hd Hq].
  unfold mount, loadEffect, loadEffect_try, getItem. rewrite Hd. cbn [bind].
  rewrite !PersistenceFacts.saveEffect_healthy by exact Hls.
  destruct (items ls !! storageKey) as [[|c text]|] eqn:Hget.
  - exists (JArr []). split; [reflexivity|]. split; [reflexivity | now left].
  - destruct (JSON_parse (c :: text)) as [v|e] eqn:Hparse; cbn [bind verificationReducer].
    + exists v. split.
      * rewrite PersistenceFacts.saveEffect_healthy by (split; reflexivity). cbn [items verifications].
        now rewrite insert_insert_eq.
      * split; [now apply JSON_parse_unique_keys in Hparse|].
        right. now exists (c :: text).
    + exists (JArr []). split; [reflexivity|]. split; [reflexivity | now left].
  - exists (JArr []). split; [reflexivity|]. split; [reflexivity | now left].
Qed.

(** After mounting on a healthy storage, the storage holds the text of the
    state the provider ended in, under its key, and every other key as
    before.  A stored text that [JSON.parse] rejects is therefore gone: the
    second effect has written the empty collection over it. *)
Theorem mount_saves_the_state (ls : Storage) :
  healthy ls ->
  exists session,
    mount ls = Normal session /\
    healthy (localStorage session) /\
    items (localStorage session) !! storageKey
      = Some (JSON_stringify (verifications (state session))) /\
    (forall k, k <> storageKey -> items (localStorage session) !! k = items ls !! k) /\
    (forall text e,
       items ls !! storageKey = Some text -> JSON_parse text = Throw e ->
       items (localStorage session) !! storageKey = Some (lit "[]")).
Proof.
  intros Hls. destruct (mount_healthy ls Hls) as (v & Hm & _ & Hv).
  eexists. split; [exact Hm|]. cbn [localStorage state verifications items].
  split; [split; reflexivity|]. split; [apply lookup_insert_eq|].
  split; [intros k Hk; apply lookup_insert_ne; congruence|].
  intros text e Hget Hparse. rewrite lookup_insert_eq.
  destruct Hv as [-> | (text' & Hget' & Hparse')]; [reflexivity|]. congruence.
Qed.

Lemma mount_saves_the_state_witness :
  exists session,
    mount (storageWith "{oops") = Normal session /\
    healthy (localStorage session) /\
    items (localStorage session) !! storageKey
      = Some (JSON_stringify (verifications (state session))) /\
    (forall k, k <> storageKey ->
       items (localStorage session) !! k = items (storageWith "{oops") !! k) /\
    (forall text e,
       items (storageWith "{oops") !! storageKey = Some text -> JSON_parse text = Throw e ->
       items (localStorage session) !! storageKey = Some (lit "[]")).
Proof.
  apply (mount_saves_the_state (storageWith "{oops")). split; reflexivity.
Defined.



(** The provider writes under its own key only: whatever the storage, the
    state and the action, every other key reads after mounting and after a
    dispatch as it did before. *)
Theorem provider_keeps_other_keys (k : jsstring) (ls : Storage)
    (action : VerificationAction) (session : Session) :
  k <> storageKey ->
  (forall mounted, mount ls = Normal mounted ->
     items (localStorage mounted) !! k = items ls !! k) /\
  (forall session', dispatch action session = Normal session' ->
     items (localStorage session') !! k = items (localStorage session) !! k).
Proof.
  intros Hk. split.
  - intros mounted. unfold mount.
    destruct (loadEffect ls) as [a|].
    + destruct (verificationReducer initialState a) as [st|e]; cbn [bind]; [|discriminate].
      intros [= <-]. cbn [localStorage]. now rewrite !saveEffect_frame.
    + intros [= <-]. cbn [localStorage]. now rewrite saveEffect_frame.
  - intros session'. unfold dispatch.
    destruct (verificationReducer (state session) action) as [st|e]; cbn [bind]; [|discriminate].
    intros [= <-]. cbn [localStorage]. now rewrite saveEffect_frame.
Qed.

Lemma provider_keeps_other_keys_witness :
  (forall mounted, mount (storageWith "[1]") = Normal mounted ->
     items (localStorage mounted) !! lit "theme" = items (storageWith "[1]") !! lit "theme") /\
  (forall session',
     dispatch clearHistory {| state := initialState; localStorage := emptyStorage |}
       = Normal session' ->
     items (localStorage session') !! lit "theme"
     = items (localStorage {| state := initialState; localStorage := emptyStorage |})
         !! lit "theme").
Proof.
  apply (provider_keeps_other_keys (lit "theme") (storageWith "[1]") clearHistory
           {| state := initialState; localStorage := emptyStorage |}).
  discriminate.
Defined.

End ReloadFacts.

(* ===================================================================== *)
(** ** Facts. The confidence bar *)
(* ===================================================================== *)

Module ConfidenceBarFacts.
Import ConfidenceBar JsonRoundTripFacts.

(** What [strip_zeros] splits a list into. *)
Lemma strip_zeros_spec (ds : list N) :
  ds = repeat 0 (snd (strip_zeros ds)) ++ fst (strip_zeros ds) /\
  match fst (strip_zeros ds) with
  | [] => True
  | d :: _ => d <> 0
  end.
Proof.
  induction ds as [|d ds IH]; [now split|].
  destruct (N.eq_dec d 0) as [-> | Hd].
  - cbn [strip_zeros]. destruct (strip_zeros ds) as [r k]. cbn [fst snd repeat app] in *.
    destruct IH as [IH1 IH2]. split; [now rewrite <- IH1 | exact IH2].
  - rewrite strip_zeros_nonzero by exact Hd. now split.
Qed.

Lemma of_digits_app_zeros (ds : list N) (k : nat) :
  of_digits (ds ++ repeat 0 k) = of_digits ds * 10 ^ N.of_nat k.
Proof.
  induction k as [|k IH]; [rewrite List.app_nil_r; cbn; lia|].
  replace (repeat 0 (S k)) with (repeat 0 k ++ [0]) by (now rewrite <- List.repeat_cons).
  rewrite List.app_assoc, of_digits_snoc, IH.
  rewrite Nat2N.inj_succ, N.pow_succ_r'. lia.
Qed.

(** The number of a whole literal is that whole number. *)
Lemma Number_value_of_Z (z : Z) : (Number_value (number_of_Z z) == inject_Z z)%Q.
Proof.
  unfold number_of_Z, number_of_decimal.
  set (n := Z.abs_N z).
  pose proof (strip_zeros_spec (rev (digits n))) as [Hsplit Hhead].
  destruct (strip_zeros (rev (digits n))) as [sig zeros]. cbn [fst snd] in *.
  assert (Hds : digits n = rev sig ++ repeat 0 zeros).
  { rewrite <- (List.rev_involutive (digits n)), Hsplit, List.rev_app_distr.
    now rewrite rev_repeat. }
  assert (Hn : n = of_digits (rev sig) * 10 ^ N.of_nat zeros).
  { rewrite <- (of_digits_digits n) at 1. now rewrite Hds, of_digits_app_zeros. }
  assert (Hz : inject_Z z = (if (z <? 0)%Z then - inject_Z (Z.of_N n) else inject_Z (Z.of_N n))%Q).
  { unfold n. rewrite N2Z.inj_abs_N. destruct (Z.ltb_spec z 0).
    - rewrite Z.abs_neq by lia. rewrite <- inject_Z_opp. f_equal. lia.
    - now rewrite Z.abs_eq by lia. }
  rewrite Hz. clear Hz.
  destruct sig as [|d r].
  - cbn in Hn. cbn. rewrite Hn. now destruct (z <? 0)%Z.
  - cbn [rev] in *. set (m := of_digits (rev r ++ [d])) in *.
    assert (Hd : d < 10).
    { pose proof (digits_lt_10 n) as Hall. rewrite Hds in Hall.
      apply List.Forall_app in Hall as [Hall _]. apply List.Forall_app in Hall as [_ Hall].
      now apply List.Forall_inv in Hall. }
    assert (Hm : m = 10 * of_digits (rev r) + d) by apply of_digits_snoc.
    assert (Hmod : m mod 10 = d).
    { rewrite Hm, N.add_comm, N.mul_comm, N.Div0.mod_add. now apply N.mod_small. }
    assert (Hlow : exists low, nzdigit_of_N d = Some low /\ nzdigit_to_N low = d).
    { assert (Hcases : d = 1 \/ d = 2 \/ d = 3 \/ d = 4 \/ d = 5 \/ d = 6 \/ d = 7 \/ d = 8
                       \/ d = 9) by lia.
      destruct Hcases as [->|[->|[->|[->|[->|[->|[->|[->| ->]]]]]]]]; eexists; split; reflexivity. }
    destruct Hlow as (low & Hlow & Hval).
    rewrite Hmod, Hlow. unfold Number_value. rewrite Hval.
    assert (Hdiv : 10 * (m / 10) + d = m).
    { rewrite <- Hmod. symmetry. apply N.div_mod. lia. }
    rewrite Hdiv.
    assert (Hq : (inject_Z (Z.of_N m) * Qpower 10 (0 + Z.of_nat zeros)
                  == inject_Z (Z.of_N n))%Q).
    { rewrite Hn, N2Z.inj_mul, inject_Z_mult. apply Qmult_comp; [reflexivity|].
      rewrite Z.add_0_l, N2Z.inj_pow, nat_N_Z.
      change 10%Q with (inject_Z 10). symmetry. apply Zpower_Qpower. lia. }
    destruct (z <? 0)%Z; [now rewrite Hq | exact Hq].
Qed.

(** [x >= k] on whole numbers. *)
Lemma Number_ge_of_Z (z k : Z) : Number_ge (number_of_Z z) k = (k <=? z)%Z.
Proof.
  unfold Number_ge. apply eq_true_iff_eq. rewrite Qle_bool_iff, Z.leb_le.
  rewrite Number_value_of_Z. now rewrite <- Zle_Qle.
Qed.

(** A number that reaches a threshold reaches the lower ones. *)
Lemma Number_ge_weaken (x : number) (k k' : Z) :
  (k' <= k)%Z -> Number_ge x k = true -> Number_ge x k' = true.
Proof.
  unfold Number_ge. rewrite !Qle_bool_iff. intros Hk H.
  eapply Qle_trans; [|exact H]. now rewrite <- Zle_Qle.
Qed.

(** The colour of the bar and the label beside it agree: the bar is gray
    exactly when the label reads Very Low and yellow exactly when it reads
    Low or Moderate; from High on the bar takes the colour of the verdict
    card, green for the verdicts drawn as Verified True, red for the ones
    drawn as Misleading, amber for the ones drawn as Needs Review. *)
Theorem bar_colour_follows_label (confidence : number) (verdict : jsstring) :
  let colour := getConfidenceColor confidence verdict in
  let label := getConfidenceLabel confidence in
  let card := ResultsPage.label (ResultsPage.getVerdictConfig verdict) in
  (colour = lit "bg-gray-500" <-> label = lit "Very Low") /\
  (colour = lit "bg-yellow-500" <-> label = lit "Low" \/ label = lit "Moderate") /\
  (label = lit "High" \/ label = lit "Very High" <-> Number_ge confidence 80 = true) /\
  (Number_ge confidence 80 = true ->
     (colour = lit "bg-green-500" <-> card = lit "Verified True") /\
     (colour = lit "bg-red-500" <-> card = lit "Misleading") /\
     (colour = lit "bg-amber-500" <-> card = lit "Needs Review")).
Proof.
  unfold getConfidenceColor, getConfidenceLabel, ResultsPage.getVerdictConfig.
  pose proof (Number_ge_weaken confidence 90 80 ltac:(lia)) as H98.
  pose proof (Number_ge_weaken confidence 80 70 ltac:(lia)) as H87.
  pose proof (Number_ge_weaken confidence 70 60 ltac:(lia)) as H76.
  destruct (Number_ge confidence 90); [rewrite H98 by reflexivity|];
    (destruct (Number_ge confidence 80); [rewrite ?H87 by reflexivity|]);
    (destruct (Number_ge confidence 70); [rewrite ?H76 by reflexivity|]);
    try (destruct (Number_ge confidence 60));
    try (specialize (H87 eq_refl); discriminate H87);
    try (specialize (H76 eq_refl); discriminate H76);
    destruct (eqb (toLowerCase verdict) (lit "true"));
    try destruct (eqb (toLowerCase verdict) (lit "misleading"));
    cbv zeta; cbn [ResultsPage.label];
    repeat split; intros; auto;
    repeat match goal with
           | H : _ \/ _ |- _ => destruct H
           | H : lit _ = lit _ |- _ => discriminate H
           | H : false = true |- _ => discriminate H
           end.
Qed.

(** The label of a whole confidence, by its thresholds. *)
Lemma label_of_whole (z : Z) :
  getConfidenceLabel (number_of_Z z)
  = if (90 <=? z)%Z then lit "Very High"
    else if (80 <=? z)%Z then lit "High"
    else if (70 <=? z)%Z then lit "Moderate"
    else if (60 <=? z)%Z then lit "Low"
    else lit "Very Low".
Proof. unfold getConfidenceLabel. now rewrite !Number_ge_of_Z. Qed.

(** The bar of an answer of the fallback is never gray and never reads
    Very Low, whatever the input and the outcomes of the generator; the
    answer on vaccines and autism gets a red bar that reads Very High, the
    answer on lemon a yellow bar that reads Moderate. *)
Theorem fallback_bar_is_never_gray (input : jsstring) (s : randomness) :
  let answer := fst (Api.getMockVerificationResult input s) in
  let colour := getConfidenceColor (Api.confidence answer)
                  (Api.Verdict_to_string (Api.verdict answer)) in
  let label := getConfidenceLabel (Api.confidence answer) in
  label <> lit "Very Low" /\
  colour <> lit "bg-gray-500" /\
  (includes (toLowerCase input) (lit "vaccine") = true ->
   includes (toLowerCase input) (lit "autism") = true ->
   label = lit "Very High" /\ colour = lit "bg-red-500") /\
  (includes (toLowerCase input) (lit "vaccine")
     && includes (toLowerCase input) (lit "autism") = false ->
   includes (toLowerCase input) (lit "lemon") = true ->
   label = lit "Moderate" /\ colour = lit "bg-yellow-500").
Proof.
  cbv zeta. split; [|split; [|split]].
  - destruct (ApiClientFacts.mock_answer_shape input s) as ((c & Hc & E) & _).
    rewrite E, label_of_whole.
    destruct (90 <=? c)%Z; [discriminate|]. destruct (80 <=? c)%Z; [discriminate|].
    destruct (70 <=? c)%Z; [discriminate|].
    destruct (Z.leb_spec 60 c); [discriminate | lia].
  - destruct (ApiClientFacts.mock_answer_shape input s) as ((c & Hc & E) & _).
    rewrite E. unfold getConfidenceColor. rewrite !Number_ge_of_Z.
    destruct (80 <=? c)%Z.
    + destruct (eqb _ _); [discriminate|]. destruct (eqb _ _); discriminate.
    + destruct (Z.leb_spec 60 c); [discriminate | lia].
  - intros Hv Ha. rewrite (FallbackFacts.mock_vaccine_autism input s Hv Ha).
    split; reflexivity.
  - intros Hv Hl. rewrite (FallbackFacts.mock_lemon input s Hv Hl).
    split; reflexivity.
Qed.

End ConfidenceBarFacts.

(* ===================================================================== *)
(** ** Facts. The list of the history page *)
(* ===================================================================== *)

Module HistoryListFacts.
Import Context HistoryPage HistoryList.

(** On the value of a record of the declared type, the callback computes
    the test on the record and throws nothing. *)
Lemma keeps_record (filter : Filter) (term : jsstring) (v : Verification) :
  keeps filter term (Verification_to_value v) = Normal (matches filter term v).
Proof.
  destruct v as [i inp [vd c e cs l m p] t].
  unfold keeps, matches, matchesFilter.
  cbn [result verdict input explanation].
  destruct filter; destruct (eqb term []); cbn [bind orb andb]; try reflexivity;
    change (Get "input" (Verification_to_value ?v)) with (Normal (Some (JStr (Context.input v))));
    change (Get "result" (Verification_to_value ?v))
      with (Normal (Some (VerificationResult_to_value (Context.result v))));
    cbn [bind GetV Context.input Context.result];
    change (Get "verdict" (VerificationResult_to_value ?r))
      with (Normal (Some (JStr (Context.verdict r))));
    change (Get "explanation" (VerificationResult_to_value ?r))
      with (Normal (Some (JStr (Context.explanation r))));
    cbn [bind call_toLowerCase Context.verdict Context.explanation];
    repeat match goal with
           | |- context [includes ?a ?b] => destruct (includes a b); cbn [bind orb andb]
           | |- context [eqb ?a ?b] => destruct (eqb a b); cbn [bind orb andb]
           end; reflexivity.
Qed.

Lemma filterM_keeps (filter : Filter) (term : jsstring) (vs : list Verification) :
  filterM (keeps filter term) (List.map Verification_to_value vs)
  = Normal (List.map Verification_to_value (List.filter (matches filter term) vs)).
Proof.
  induction vs as [|v vs IH]; [reflexivity|].
  cbn [List.map filterM List.filter]. rewrite keeps_record, IH. cbn [bind].
  now destruct (matches filter term v).
Qed.

Lemma filter_sublist {A} (f : A -> bool) (l : list A) : sublist (List.filter f l) l.
Proof.
  induction l as [|x l IH]; [constructor|]. cbn [List.filter].
  destruct (f x); [now apply sublist_skip | now apply sublist_cons].
Qed.

(** On a collection of records of the declared type the list is computed
    without an exception: it holds the records that pass the test, in the
    order of the collection, and under the filter all with an empty search
    term it is the whole collection. *)
Theorem history_list_of_records (filter : Filter) (term : jsstring)
    (vs : list Verification) :
  filteredVerifications filter term (collection vs)
    = Normal (collection (List.filter (matches filter term) vs)) /\
  sublist (List.filter (matches filter term) vs) vs /\
  filteredVerifications filter_all [] (collection vs) = Normal (collection vs).
Proof.
  assert (Hall : List.filter (matches filter_all []) vs = vs).
  { induction vs as [|v vs IH]; [reflexivity|].
    change (List.filter (matches filter_all []) (v :: vs))
      with (v :: List.filter (matches filter_all []) vs). now rewrite IH. }
  unfold filteredVerifications, collection; cbn [Array_filter]. rewrite !filterM_keeps.
  cbn [bind]. split; [reflexivity|]. split; [apply filter_sublist | now rewrite Hall].
Qed.

(** The filters and the badges agree on the verdicts true and misleading:
    a record is listed under such a filter exactly when its card carries
    the badge of the filter.  Every record listed under needs-review
    carries the badge Needs Review, but not the other way round: a verdict
    outside the taxonomy gets that badge and is listed under all only. *)
Theorem filters_agree_with_badges (verdict : jsstring) :
  (matchesFilter filter_true verdict = true
   <-> label (getVerdictConfig verdict) = lit "Verified True") /\
  (matchesFilter filter_misleading verdict = true
   <-> label (getVerdictConfig verdict) = lit "Misleading") /\
  (matchesFilter filter_needs_review verdict = true
   -> label (getVerdictConfig verdict) = lit "Needs Review") /\
  (label (getVerdictConfig (lit "Unverified")) = lit "Needs Review" /\
   matchesFilter filter_needs_review (lit "Unverified") = false).
Proof.
  unfold matchesFilter, getVerdictConfig.
  change (String_replace (lit "-") (lit " ") (Filter_to_string filter_true)) with (lit "true").
  change (String_replace (lit "-") (lit " ") (Filter_to_string filter_misleading))
    with (lit "misleading").
  change (String_replace (lit "-") (lit " ") (Filter_to_string filter_needs_review))
    with (lit "needs review").
  cbv zeta. split; [|split; [|split; [|split; reflexivity]]].
  - destruct (eqb (toLowerCase verdict) (lit "true")); [now split|].
    destruct (eqb (toLowerCase verdict) (lit "misleading")); split; discriminate.
  - destruct (eqb (toLowerCase verdict) (lit "true")) eqn:E.
    + apply eqb_eq in E. rewrite E. split; discriminate.
    + destruct (eqb (toLowerCase verdict) (lit "misleading")); [now split | split; discriminate].
  - intros H. apply eqb_eq in H. rewrite H. reflexivity.
Qed.




Lemma Get_throws (k : string) (v : value) (e : Error) :
  Get k v = Throw e -> kind e = TypeError.
Proof. destruct v; cbn; try discriminate. now intros [= <-]. Qed.

Lemma GetV_throws (k : string) (v : option value) (e : Error) :
  GetV k v = Throw e -> kind e = TypeError.
Proof. destruct v as [v|]; [apply Get_throws | now intros [= <-]]. Qed.

Lemma call_toLowerCase_throws (x : option value) (e : Error) :
  call_toLowerCase x = Throw e -> kind e = TypeError.
Proof. destruct x as [[ | | | | | ]|]; cbn; try discriminate; now intros [= <-]. Qed.

(** The callback throws nothing but a [TypeError]. *)
Lemma keeps_throws (filter : Filter) (term : jsstring) (x : value) (e : Error) :
  keeps filter term x = Throw e -> kind e = TypeError.
Proof.
  unfold keeps.
  assert (Hfilter : forall target (k : bool -> Completion bool),
    (forall b, k b = Throw e -> kind e = TypeError) ->
    (do matchesFilter <-
       (do result <- Get "result" x;
        do verdict <- GetV "verdict" result;
        do lower <- call_toLowerCase verdict;
        Normal (eqb lower target));
     k matchesFilter) = Throw e -> kind e = TypeError).
  { intros target k Hk.
    destruct (Get "result" x) as [r|e1] eqn:E1; cbn [bind];
      [|intros [= <-]; now apply Get_throws in E1].
    destruct (GetV "verdict" r) as [vd|e2] eqn:E2; cbn [bind];
      [|intros [= <-]; now apply GetV_throws in E2].
    destruct (call_toLowerCase vd) as [lower|e3] eqn:E3; cbn [bind];
      [|intros [= <-]; now apply call_toLowerCase_throws in E3].
    apply Hk. }
  assert (Hsearch : forall b,
    (do matchesSearch <-
       (if eqb term [] then Normal true
        else
          do input <- Get "input" x;
          do lowerInput <- call_toLowerCase input;
          if includes lowerInput (toLowerCase term) then Normal true
          else
            do result <- Get "result" x;
            do explanation <- GetV "explanation" result;
            do lowerExplanation <- call_toLowerCase explanation;
            Normal (includes lowerExplanation (toLowerCase term)));
     Normal (b && matchesSearch)) = Throw e -> kind e = TypeError).
  { intros b. destruct (eqb term []); cbn [bind]; [discriminate|].
    destruct (Get "input" x) as [i|e1] eqn:E1; cbn [bind];
      [|intros [= <-]; now apply Get_throws in E1].
    destruct (call_toLowerCase i) as [li|e2] eqn:E2; cbn [bind];
      [|intros [= <-]; now apply call_toLowerCase_throws in E2].
    destruct (includes li (toLowerCase term)); cbn [bind]; [discriminate|].
    destruct (Get "result" x) as [r|e3] eqn:E3; cbn [bind];
      [|intros [= <-]; now apply Get_throws in E3].
    destruct (GetV "explanation" r) as [ex|e4] eqn:E4; cbn [bind];
      [|intros [= <-]; now apply GetV_throws in E4].
    destruct (call_toLowerCase ex) as [le|e5] eqn:E5; cbn [bind];
      [discriminate | intros [= <-]; now apply call_toLowerCase_throws in E5]. }
  destruct filter; [cbn [bind]; apply Hsearch | | | ]; apply Hfilter; exact Hsearch.
Qed.

(** On an element that is no object the callback throws, as soon as a
    filter or a search term makes it look at the element. *)
Lemma keeps_foreign (filter : Filter) (term : jsstring) (x : value) :
  (forall props, x <> JObj props) ->
  filter <> filter_all \/ term <> [] ->
  exists e, keeps filter term x = Throw e.
Proof.
  intros Hx Hactive.
  assert (Hterm : filter = filter_all -> eqb term [] = false).
  { intros ->. destruct Hactive as [H|H]; [contradiction | now apply eqb_neq]. }
  destruct x as [ |b|n|t|items|props]; try (exfalso; now apply (Hx props));
    destruct filter; try (eexists; reflexivity);
    unfold keeps; rewrite Hterm by reflexivity; eexists; reflexivity.
Qed.

(** The list is computed only on what the declared type promises.  On a
    collection that is no array the page throws a [TypeError] whatever the
    filter; on an array that holds an element that is no object (a number,
    a string, a boolean, [null], an array) it throws one as soon as a
    filter other than all is chosen or a search term is typed. *)
Theorem history_list_throws_on_foreign_data (filter : Filter) (term : jsstring) :
  (forall v, (forall items, v <> JArr items) ->
     exists e, filteredVerifications filter term v = Throw e /\ kind e = TypeError) /\
  (filter <> filter_all \/ term <> [] ->
   forall items x, In x items -> (forall props, x <> JObj props) ->
     exists e, filteredVerifications filter term (JArr items) = Throw e /\
               kind e = TypeError).
Proof.
  split.
  - intros v Hv. destruct v as [ |b|n|t|items|props];
      try (eexists; split; reflexivity). exfalso. now apply (Hv items).
  - intros Hactive items x Hin Hx. unfold filteredVerifications. cbn [Array_filter].
    enough (H : exists e, filterM (keeps filter term) items = Throw e /\ kind e = TypeError).
    { destruct H as (e & -> & He). now exists e. }
    induction items as [|y items IH]; [destruct Hin|].
    cbn [filterM]. destruct (keeps filter term y) as [keep|e] eqn:Ey; cbn [bind].
    + destruct Hin as [-> | Hin].
      * destruct (keeps_foreign filter term x Hx Hactive) as (e & He). congruence.
      * destruct (IH Hin) as (e & -> & He). now exists e.
    + exists e. split; [reflexivity|]. now apply keeps_throws in Ey.
Qed.

(** A payload of the wrong schema, once loaded, breaks the list: after
    mounting on the text [[1]], choosing the filter true throws. *)
Example history_list_after_foreign_payload :
  exists session e,
    Provider.mount (Persistence.storageWith "[1]") = Normal session /\
    filteredVerifications filter_true [] (verifications (Provider.state session)) = Throw e /\
    kind e = TypeError.
Proof. eexists _, _. split; [vm_compute; reflexivity|]. split; reflexivity. Qed.

Lemma String_substring_prefix (limit : nat) (text : jsstring) :
  String_substring 0 limit text = firstn limit text.
Proof.
  unfold String_substring. cbn [Nat.min]. rewrite Nat.max_0_l, Nat.sub_0_r.
  change (skipn 0 text) with text.
  destruct (Nat.le_ge_cases limit (length text)) as [H|H].
  - now rewrite Nat.min_l.
  - rewrite Nat.min_r by exact H. now rewrite !List.firstn_all2 by lia.
Qed.

(** The text of a card is the whole text when that has at most [limit]
    code units; a longer text is cut to its first [limit] code units and
    three dots, which makes [limit + 3] code units whatever the length.
    The claim of a card has so at most 203 code units and its explanation
    at most 303. *)
Theorem excerpt_is_bounded (limit : nat) (text : jsstring) (v : Verification) :
  (length (excerpt limit text) <= limit + 3)%nat /\
  firstn limit (excerpt limit text) = firstn limit text /\
  ((length text <= limit)%nat -> excerpt limit text = text) /\
  ((limit < length text)%nat ->
     excerpt limit text = firstn limit text ++ lit "..." /\
     length (excerpt limit text) = (limit + 3)%nat) /\
  (length (claimExcerpt v) <= 203)%nat /\
  (length (explanationExcerpt v) <= 303)%nat.
Proof.
  assert (Hbound : forall n s, (length (excerpt n s) <= n + 3)%nat).
  { intros n s. unfold excerpt. rewrite String_substring_prefix.
    destruct (Nat.ltb_spec n (length s)) as [H|H]; [|lia].
    rewrite List.length_app, List.length_firstn. cbn. lia. }
  split; [apply Hbound|].
  unfold excerpt at 1 2 3 4. rewrite String_substring_prefix.
  destruct (Nat.ltb_spec limit (length text)) as [H|H].
  - assert (Hlen : length (firstn limit text) = limit)
      by (rewrite List.length_firstn; lia).
    split; [rewrite List.firstn_app, Hlen, Nat.sub_diag; cbn [firstn];
            now rewrite List.app_nil_r, List.firstn_firstn, Nat.min_id|].
    split; [lia|]. split.
    + intros _. split; [reflexivity|]. rewrite List.length_app, Hlen. reflexivity.
    + split; [apply (Hbound 200%nat) | apply (Hbound 300%nat)].
  - split; [reflexivity|]. split; [reflexivity|]. split; [lia|].
    split; [apply (Hbound 200%nat) | apply (Hbound 300%nat)].
Qed.



(** Clearing the history takes the confirmation: declined, nothing is
    dispatched and the provider stays as it is; confirmed, the collection
    is empty, the storage holds the text of the empty array, and a provider
    mounted later starts empty. *)
Theorem clear_history_takes_confirmation (session : Provider.Session) :
  Provider.healthy (Provider.localStorage session) ->
  dispatch_each (fst (handleClearHistory false)) session = Normal session /\
  exists session' again,
    dispatch_each (fst (handleClearHistory true)) session = Normal session' /\
    verifications (Provider.state session') = JArr [] /\
    Provider.items (Provider.localStorage session') !! Provider.storageKey = Some (lit "[]") /\
    Provider.mount (Provider.localStorage session') = Normal again /\
    verifications (Provider.state again) = JArr [].
Proof.
  intros Hls. split; [reflexivity|].
  cbn [handleClearHistory fst dispatch_each]. unfold Provider.dispatch.
  cbn [verificationReducer clearHistory bind].
  rewrite PersistenceFacts.saveEffect_healthy by exact Hls. cbn [verifications].
  eexists _, _. split; [reflexivity|]. cbn [Provider.state Provider.localStorage verifications].
  split; [reflexivity|]. cbn [Provider.items]. split; [apply lookup_insert_eq|].
  unfold Provider.mount.
  rewrite (PersistenceFacts.loadEffect_stored _ (JArr []));
    [|reflexivity | apply lookup_insert_eq | reflexivity].
  cbn [verificationReducer bind]. split; reflexivity.
Qed.

Lemma clear_history_takes_confirmation_witness :
  let session :=
    {| Provider.state := {| verifications := collection [Store.record_A] |};
       Provider.localStorage := Persistence.emptyStorage |} in
  dispatch_each (fst (handleClearHistory false)) session = Normal session /\
  exists session' again,
    dispatch_each (fst (handleClearHistory true)) session = Normal session' /\
    verifications (Provider.state session') = JArr [] /\
    Provider.items (Provider.localStorage session') !! Provider.storageKey = Some (lit "[]") /\
    Provider.mount (Provider.localStorage session') = Normal again /\
    verifications (Provider.state again) = JArr [].
Proof.
  apply (clear_history_takes_confirmation
           {| Provider.state := {| verifications := collection [Store.record_A] |};
              Provider.localStorage := Persistence.emptyStorage |}).
  split; reflexivity.
Defined.

End HistoryListFacts.

(* ===================================================================== *)
(** ** Facts. Submitting a claim and looking it up *)
(* ===================================================================== *)

Module LandingPageFacts.
Import Context NewsApi ApiClient LandingPage ResultsPageView.

Lemma trimStart_nil (s : jsstring) :
  String_trimStart s = [] <-> forallb is_white_space s = true.
Proof.
  induction s as [|c s IH]; [now split|]. cbn [String_trimStart forallb].
  destruct (is_white_space c); [exact IH | split; discriminate].
Qed.

Lemma trimStart_head (s : jsstring) :
  match String_trimStart s with
  | [] => True
  | c :: _ => is_white_space c = false
  end.
Proof.
  induction s as [|c s IH]; [exact I|]. cbn [String_trimStart].
  destruct (is_white_space c) eqn:E; [exact IH | exact E].
Qed.

(** [trim] leaves nothing exactly of the strings made of white space. *)
Lemma trim_nil (s : jsstring) :
  String_trim s = [] <-> forallb is_white_space s = true.
Proof.
  unfold String_trim, String_trimEnd. rewrite <- trimStart_nil. split.
  - intros H. apply (f_equal (@rev N)) in H. rewrite List.rev_involutive in H.
    cbn [rev] in H. apply trimStart_nil in H.
    pose proof (trimStart_head s) as Hhead.
    destruct (String_trimStart s) as [|c r]; [reflexivity|].
    rewrite List.forallb_forall in H. specialize (H c).
    rewrite H in Hhead; [discriminate|]. apply List.in_rev. rewrite List.rev_involutive. now left.
  - intros ->. reflexivity.
Qed.

(** A submission that is refused or fails leaves no trace.  An input
    made of white space only, the empty input included, is refused before
    anything else happens: whatever the network would answer, the handler
    shows the one error toast, dispatches nothing, navigates nowhere,
    leaves the spinner alone and draws nothing.  Every other input
    switches the spinner on and off again, and when the client throws, the
    handler dispatches nothing, navigates nowhere and shows the other
    error toast. *)
Theorem unanswered_submission_stores_nothing (input : jsstring) (outcome : FetchOutcome)
    (clock : Clock) (s : randomness) :
  let submission := fst (handleSubmit input outcome clock s) in
  (forallb is_white_space input = true ->
   handleSubmit input outcome clock s
   = ({| dispatched := []; navigated := [];
         toasts := [toast_error (lit "Please enter a health claim or article URL")];
         processing := [] |}, s)) /\
  (forallb is_white_space input = false ->
   processing submission = [true; false] /\
   forall e, fst (verifyHealthClaim input outcome s) = Throw e ->
     dispatched submission = [] /\
     navigated submission = [] /\
     toasts submission
     = [toast_error (lit "Failed to analyze the claim. Please try again.")]).
Proof.
  cbv zeta. unfold handleSubmit. split; intros H.
  - apply trim_nil in H. now rewrite H.
  - destruct (String_trim input) as [|c r] eqn:E.
    + apply trim_nil in E. congruence.
    + unfold rbind. destruct (verifyHealthClaim input outcome s) as [[result|e] s'];
        cbn [fst]; (split; [reflexivity|]); intros e' He'; [discriminate He'|].
      repeat split.
Qed.

(** A claim that the client answers is stored and found again.  The
    handler dispatches one record, built from the input as it was typed
    (not trimmed) and the answer as it came; on a collection that is an
    array the record goes in front, and the page the handler navigates to,
    looking up the id of the record, finds this record, whatever older
    records carry the same id. *)
Theorem submitted_claim_is_shown (input : jsstring) (outcome : FetchOutcome)
    (clock : Clock) (s : randomness) (result : value)
    (session : Provider.Session) (items : list value) :
  forallb is_white_space input = false ->
  fst (verifyHealthClaim input outcome s) = Normal result ->
  verifications (Provider.state session) = JArr items ->
  let submission := fst (handleSubmit input outcome clock s) in
  let id := Json.Number_toString (number_of_Z (now clock)) in
  let record := JObj [(lit "id", JStr id); (lit "input", JStr input);
                      (lit "result", result); (lit "timestamp", JStr (isoString clock))] in
  navigated submission = [lit "/results/" ++ id] /\
  toasts submission = [toast_success (lit "Analysis completed successfully!")] /\
  exists session',
    dispatch_each (dispatched submission) session = Normal session' /\
    verifications (Provider.state session') = JArr (record :: items) /\
    lookupEffect (Some id) (Provider.state session') = Normal (Some record) /\
    screen (Some record) = Details record.
Proof.
  intros Hinput Hanswer Hitems. cbv zeta. unfold handleSubmit.
  destruct (String_trim input) as [|c r] eqn:E; [apply trim_nil in E; congruence|].
  unfold rbind. destruct (verifyHealthClaim input outcome s) as [answer s'].
  cbn [fst] in Hanswer. subst answer. cbn [fst rret navigated toasts dispatched].
  split; [reflexivity|]. split; [reflexivity|].
  cbn [dispatch_each]. unfold Provider.dispatch.
  cbn [verificationReducer]. rewrite Hitems. cbn [spread bind].
  eexists. split; [reflexivity|]. cbn [Provider.state verifications].
  split; [reflexivity|]. split; [|reflexivity].
  unfold lookupEffect.
  destruct (JsonRoundTripFacts.Number_toString_head (number_of_Z (now clock)))
    as (h & tail & Eid & _).
  rewrite Eid. unfold getVerification. cbn [verifications Array_find findM].
  unfold newVerification. rewrite Eid.
  change (Get_id (JObj ((lit "id", JStr (h :: tail)) :: ?rest)))
    with (Normal (Some (JStr (h :: tail)))).
  cbn [bind strict_equals_string]. now rewrite eqb_refl.
Qed.

Lemma submitted_claim_is_shown_witness :
  let input := lit " Green tea cures headaches " in
  let outcome := Rejected (mkError TypeError (lit "Failed to fetch")) in
  let clock := {| now := 1700000000000; isoString := lit "2023-11-14T22:13:20.000Z" |} in
  let s := fun _ : nat => Fallback.sample_half in
  let session := {| Provider.state := {| verifications := collection [Store.record_A] |};
                    Provider.localStorage := Persistence.emptyStorage |} in
  let result := VerificationResult_to_value (fst (Api.getMockVerificationResult input s)) in
  let submission := fst (handleSubmit input outcome clock s) in
  let id := Json.Number_toString (number_of_Z (now clock)) in
  let record := JObj [(lit "id", JStr id); (lit "input", JStr input);
                      (lit "result", result); (lit "timestamp", JStr (isoString clock))] in
  navigated submission = [lit "/results/" ++ id] /\
  toasts submission = [toast_success (lit "Analysis completed successfully!")] /\
  exists session',
    dispatch_each (dispatched submission) session = Normal session' /\
    verifications (Provider.state session')
      = JArr (record :: List.map Verification_to_value [Store.record_A]) /\
    lookupEffect (Some id) (Provider.state session') = Normal (Some record) /\
    screen (Some record) = Details record.
Proof.
  cbv zeta.
  apply (submitted_claim_is_shown (lit " Green tea cures headaches ")
           (Rejected (mkError TypeError (lit "Failed to fetch")))
           {| now := 1700000000000; isoString := lit "2023-11-14T22:13:20.000Z" |}
           (fun _ : nat => Fallback.sample_half)
           (VerificationResult_to_value
              (fst (Api.getMockVerificationResult (lit " Green tea cures headaches ")
                      (fun _ : nat => Fallback.sample_half))))
           {| Provider.state := {| verifications := collection [Store.record_A] |};
              Provider.localStorage := Persistence.emptyStorage |}
           (List.map Verification_to_value [Store.record_A])).
  - reflexivity.
  - reflexivity.
  - reflexivity.
Defined.

End LandingPageFacts.

(* ===================================================================== *)
(** ** Facts. The links of the results page *)
(* ===================================================================== *)

Module ResultsPageViewFacts.
Import ResultsPageView.

(** An unreserved character is a character of ASCII and no surrogate. *)
Lemma unreserved_is_plain (c : N) :
  is_unreserved c = true ->
  c < 128 /\ is_low_surrogate c = false /\ is_high_surrogate c = false.
Proof.
  intros Hc.
  assert (H : c < 128).
  { apply N.lt_nge. intros Hge. revert Hc. unfold is_unreserved.
    repeat match goal with
           | |- context [?x <=? ?y] => destruct (N.leb_spec x y); try lia
           | |- context [?x =? ?y] => destruct (N.eqb_spec x y); try lia
           end; cbn; discriminate. }
  split; [exact H|]. unfold is_low_surrogate, is_high_surrogate.
  split; apply andb_false_iff; left; apply N.leb_gt; lia.
Qed.

Lemma hex_upper_unreserved (n : N) : n < 16 -> is_unreserved (hex_upper n) = true.
Proof.
  intros Hn. unfold hex_upper, is_unreserved.
  destruct (N.ltb_spec n 10).
  - replace ((48 <=? 48 + n) && (48 + n <=? 57)) with true; [now rewrite orb_true_r|].
    symmetry. apply andb_true_iff. split; apply N.leb_le; lia.
  - replace ((65 <=? 55 + n) && (55 + n <=? 90)) with true; [reflexivity|].
    symmetry. apply andb_true_iff. split; apply N.leb_le; lia.
Qed.

Lemma percent_encoded (octet : N) : octet < 256 -> Forall is_encoded_char (percent octet).
Proof.
  intros H. unfold percent.
  apply Forall_cons; split; [now right|].
  apply Forall_cons; split;
    [left; apply hex_upper_unreserved; now apply N.Div0.div_lt_upper_bound|].
  apply Forall_cons; split; [left; apply hex_upper_unreserved; now apply N.mod_lt|].
  constructor.
Qed.

Lemma escape_encoded (cp : N) : cp < 0x110000 -> Forall is_encoded_char (escape cp).
Proof.
  intros Hcp. unfold escape, utf8.
  assert (H64 : forall x, x mod 64 < 64) by (intros x; now apply N.mod_lt).
  destruct (N.ltb_spec cp 0x80); [|destruct (N.ltb_spec cp 0x800);
                                    [|destruct (N.ltb_spec cp 0x10000)]];
    cbn [List.map List.concat]; rewrite ?List.app_nil_r;
    repeat (apply Forall_app; split); apply percent_encoded.
  - lia.
  - assert (cp / 64 < 32) by (apply N.Div0.div_lt_upper_bound; lia). lia.
  - specialize (H64 cp). lia.
  - assert (cp / 4096 < 16) by (apply N.Div0.div_lt_upper_bound; lia). lia.
  - specialize (H64 (cp / 64)). lia.
  - specialize (H64 cp). lia.
  - assert (cp / 262144 < 5) by (apply N.Div0.div_lt_upper_bound; lia). lia.
  - specialize (H64 (cp / 4096)). lia.
  - specialize (H64 (cp / 64)). lia.
  - specialize (H64 cp). lia.
Qed.

(** What [encodeURIComponent] does to a string: it throws exactly on the
    strings that are not well formed, and the text it returns otherwise is
    made of unreserved characters and per cent signs. *)
Lemma encodeURIComponent_spec (s : jsstring) :
  code_units s ->
  match encodeURIComponent s with
  | Encoded text => isWellFormed s = true /\ Forall is_encoded_char text
  | URIError => isWellFormed s = false
  end.
Proof.
  induction s as [| |c d rest IH0 IH1] using JsonRoundTripFacts.list_ind2.
  - intros _. now split.
  - intros Hs. apply Forall_inv in Hs. cbn [encodeURIComponent isWellFormed].
    destruct (is_unreserved a) eqn:Eu.
    + destruct (unreserved_is_plain a Eu) as (_ & -> & ->). cbn. split; [reflexivity|].
      apply Forall_cons; split; [now left | constructor].
    + destruct (is_low_surrogate a); [reflexivity|].
      destruct (is_high_surrogate a); [reflexivity|]. cbn [uri_prepend].
      split; [reflexivity|]. rewrite List.app_nil_r. apply escape_encoded. lia.
  - intros Hs. pose proof (Forall_inv Hs) as Hc. apply Forall_inv_tail in Hs.
    pose proof (Forall_inv Hs) as Hd. pose proof (Forall_inv_tail Hs) as Hrest.
    specialize (IH0 Hrest). specialize (IH1 Hs).
    cbn [encodeURIComponent isWellFormed] in *.
    destruct (is_unreserved c) eqn:Eu.
    + destruct (unreserved_is_plain c Eu) as (_ & -> & ->).
      destruct (if is_unreserved d then _ else _) as [text|]; cbn [uri_prepend].
      * destruct IH1 as [-> H]. split; [reflexivity|]. apply Forall_cons; split; [now left | exact H].
      * exact IH1.
    + destruct (is_low_surrogate c); [reflexivity|].
      destruct (is_high_surrogate c) eqn:Eh.
      * destruct (is_low_surrogate d) eqn:El; [|reflexivity]. cbn [andb].
        destruct (encodeURIComponent rest) as [text|]; cbn [uri_prepend]; [|exact IH0].
        destruct IH0 as [-> H]. split; [reflexivity|]. apply Forall_app. split; [|exact H].
        apply escape_encoded.
        unfold is_high_surrogate, is_low_surrogate in Eh, El.
        apply andb_true_iff in Eh as [H1 H2]. apply andb_true_iff in El as [H3 H4].
        apply N.leb_le in H1, H2, H3, H4. lia.
      * destruct (if is_unreserved d then _ else _) as [text|]; cbn [uri_prepend].
        -- destruct IH1 as [-> H]. split; [reflexivity|]. apply Forall_app. split; [|exact H].
           apply escape_encoded. lia.
        -- exact IH1.
Qed.

(** A string put before a character that is no low surrogate is well
    formed, or not, on its own. *)
Lemma isWellFormed_app (a b : jsstring) :
  match b with
  | [] => True
  | c :: _ => is_low_surrogate c = false
  end ->
  isWellFormed (a ++ b) = isWellFormed a && isWellFormed b.
Proof.
  intros Hb. induction a as [|x|x y l IH0 IH1] using JsonRoundTripFacts.list_ind2.
  - reflexivity.
  - cbn [app isWellFormed]. destruct (is_low_surrogate x); [reflexivity|].
    destruct (is_high_surrogate x); [|reflexivity].
    destruct b as [|d rest]; [reflexivity|]. now rewrite Hb.
  - cbn [app isWellFormed] in *. destruct (is_low_surrogate x); [reflexivity|].
    destruct (is_high_surrogate x); [|exact IH1].
    rewrite IH0. now rewrite andb_assoc.
Qed.

(** The WhatsApp link cannot be bent by the verdict or by the address of
    the page: the text that follows [?text=] is made of unreserved
    characters of ASCII and per cent signs, so it holds no [&], [#], [=],
    [+], space or further [?].  The link is built exactly when neither
    string holds a surrogate that stands alone; otherwise rendering the
    page throws a [URIError]. *)
Theorem whatsapp_link_is_safe (verdict href : jsstring) :
  code_units verdict -> code_units href ->
  match whatsAppLink verdict href with
  | Encoded link =>
      isWellFormed verdict = true /\ isWellFormed href = true /\
      exists query,
        link = lit "https://wa.me/?text=" ++ query /\
        forall c, In c query ->
          c < 128 /\ c <> 38 /\ c <> 35 /\ c <> 61 /\ c <> 43 /\ c <> 32 /\ c <> 63
  | URIError => isWellFormed verdict = false \/ isWellFormed href = false
  end.
Proof.
  intros Hv Hh. unfold whatsAppLink.
  set (text := lit "Health Fact Check: " ++ verdict ++ lit " - " ++ href).
  assert (Hunits : code_units text).
  { unfold text, code_units in *. repeat (apply Forall_app; split); try assumption.
    all: apply List.Forall_forall; intros c Hc; vm_compute in Hc.
    all: repeat (destruct Hc as [<- | Hc]; [reflexivity|]).
    all: destruct Hc. }
  assert (Hwf : isWellFormed text = isWellFormed verdict && isWellFormed href).
  { unfold text.
    change (isWellFormed (lit "Health Fact Check: " ++ ?r)) with (isWellFormed r).
    rewrite (isWellFormed_app verdict) by reflexivity.
    change (isWellFormed (lit " - " ++ ?r)) with (isWellFormed r). reflexivity. }
  pose proof (encodeURIComponent_spec text Hunits) as Hspec.
  destruct (encodeURIComponent text) as [query|]; cbn [uri_prepend].
  - destruct Hspec as [Hwf' Hq]. rewrite Hwf in Hwf'. apply andb_true_iff in Hwf' as [-> ->].
    split; [reflexivity|]. split; [reflexivity|]. exists query. split; [reflexivity|].
    intros c Hc. rewrite List.Forall_forall in Hq. destruct (Hq c Hc) as [Hu | ->].
    + destruct (unreserved_is_plain c Hu) as (Hlt & _). split; [exact Hlt|].
      repeat split; intros ->; discriminate Hu.
    + repeat split; discriminate.
  - rewrite Hwf in Hspec. now apply andb_false_iff in Hspec.
Qed.

Lemma whatsapp_link_is_safe_witness :
  match whatsAppLink (lit "misleading") (lit "https://host.example/results/17?a=1&b=2#top") with
  | Encoded link =>
      isWellFormed (lit "misleading") = true /\
      isWellFormed (lit "https://host.example/results/17?a=1&b=2#top") = true /\
      exists query,
        link = lit "https://wa.me/?text=" ++ query /\
        forall c, In c query ->
          c < 128 /\ c <> 38 /\ c <> 35 /\ c <> 61 /\ c <> 43 /\ c <> 32 /\ c <> 63
  | URIError =>
      isWellFormed (lit "misleading") = false \/
      isWellFormed (lit "https://host.example/results/17?a=1&b=2#top") = false
  end.
Proof.
  apply (whatsapp_link_is_safe (lit "misleading")
           (lit "https://host.example/results/17?a=1&b=2#top"));
    unfold code_units; repeat (apply List.Forall_cons; [reflexivity|]); apply List.Forall_nil.
Defined.

(** A verdict with half a surrogate pair, which a stored record may well
    carry, breaks the page. *)
Example whatsapp_link_of_lone_surrogate :
  whatsAppLink [0xD83D] (lit "https://host.example/results/17") = URIError.
Proof. reflexivity. Qed.

Lemma find_id_none (i : jsstring) (vs : list Context.Verification) :
  Store.find_id i vs = None <-> ~ In i (List.map Context.id vs).
Proof.
  unfold Store.find_id. induction vs as [|v vs IH]; cbn [List.find List.map In].
  - tauto.
  - destruct (eqb (Context.id v) i) eqn:E.
    + apply eqb_eq in E. split; [discriminate | tauto].
    + apply eqb_neq in E. tauto.
Qed.

(** The results page shows Not Found exactly when the route has no id, or
    an empty one, or no record of the collection carries the id of the
    route; otherwise it shows the first record from the front that carries
    it. *)
Theorem results_page_not_found_iff (vs : list Context.Verification) (id : option jsstring) :
  exists found,
    lookupEffect id {| Context.verifications := Context.collection vs |} = Normal found /\
    (screen found = NotFound <->
     id = None \/ id = Some [] \/
     exists i, id = Some i /\ ~ In i (List.map Context.id vs)) /\
    (forall i, id = Some i -> i <> [] ->
       found = option_map Context.Verification_to_value (Store.find_id i vs)).
Proof.
  destruct id as [[|c i]|]; cbn [lookupEffect].
  - exists None. split; [reflexivity|]. split; [|intros i [= <-] H; contradiction].
    split; [auto | reflexivity].
  - rewrite StoreFacts.getVerification_collection. eexists. split; [reflexivity|]. split.
    + destruct (Store.find_id (c :: i) vs) as [v|] eqn:E; cbn [option_map screen].
      * change (truthy (Context.Verification_to_value v)) with true. cbv iota. split.
        -- discriminate.
        -- intros [H | [H | (j & [= <-] & Hj)]]; try discriminate H.
           apply find_id_none in Hj. congruence.
      * split; [|reflexivity]. intros _. right; right. exists (c :: i).
        split; [reflexivity | now apply find_id_none].
    + now intros j [= <-] _.
  - exists None. split; [reflexivity|]. split; [|intros i H; discriminate H].
    split; [auto | reflexivity].
Qed.

End ResultsPageViewFacts.

(* ===================================================================== *)
(** ** Facts. The theme *)
(* ===================================================================== *)

Module AppFacts.
Import Provider App.

Lemma applyThemeEffect_healthy (t : jsstring) (ls : Storage) :
  healthy ls ->
  applyThemeEffect t ls
  = Normal {| theme := t; darkClass := eqb t (lit "dark");
              localStorage := {| disabled := false; quota := None;
                                 items := <[themeKey := t]> (items ls) |} |}.
Proof. intros [Hd Hq]. unfold applyThemeEffect, setItem. now rewrite Hd, Hq. Qed.

(** What mounting comes to on a healthy storage, for the theme [t] that
    the first effect sets. *)
Lemma mount_healthy_theme (prefersDark : bool) (ls : Storage) :
  healthy ls ->
  exists t : jsstring,
    t <> [] /\
    (forall c saved, items ls !! themeKey = Some (c :: saved) -> t = c :: saved) /\
    (items ls !! themeKey = None \/ items ls !! themeKey = Some [] ->
     t = if prefersDark then lit "dark" else lit "light") /\
    mount prefersDark ls
    = Normal {| theme := t; darkClass := eqb t (lit "dark");
                localStorage := {| disabled := false; quota := None;
                                   items := <[themeKey := t]> (items ls) |} |}.
Proof.
  intros Hls. pose proof Hls as [Hd Hq].
  unfold mount, loadThemeEffect, getItem. rewrite Hd. cbn [bind].
  assert (Hfinish : forall t : jsstring,
    (do first <- applyThemeEffect (lit "light") ls;
     if eqb t (lit "light") then Normal first
     else applyThemeEffect t (localStorage first))
    = Normal {| theme := t; darkClass := eqb t (lit "dark");
                localStorage := {| disabled := false; quota := None;
                                   items := <[themeKey := t]> (items ls) |} |}).
  { intros t. rewrite applyThemeEffect_healthy by exact Hls. cbn [bind localStorage].
    destruct (eqb t (lit "light")) eqn:E.
    - apply eqb_eq in E. now rewrite E.
    - rewrite applyThemeEffect_healthy by (split; reflexivity). cbn [items].
      now rewrite insert_insert_eq. }
  destruct (items ls !! themeKey) as [[|c r]|]; cbn [bind].
  - exists (if prefersDark then lit "dark" else lit "light").
    split; [destruct prefersDark; discriminate|]. split; [discriminate|].
    split; [reflexivity | apply Hfinish].
  - exists (c :: r). split; [discriminate|]. split; [now intros c' saved [= -> ->]|].
    split; [intros [H|H]; discriminate H | apply Hfinish].
  - exists (if prefersDark then lit "dark" else lit "light").
    split; [destruct prefersDark; discriminate|]. split; [discriminate|].
    split; [reflexivity | apply Hfinish].
Qed.

(** On a healthy storage the saved theme wins: a theme that is stored and
    not empty becomes the theme as it is, whatever the system prefers, and
    only when none is stored does the preference decide.  The theme is
    then stored, the class [dark] is on the document exactly for the theme
    dark, no other key of the storage has changed, and mounting again, on
    the storage left behind and under any preference, gives the same
    page. *)
Theorem saved_theme_wins (prefersDark : bool) (ls : Storage) :
  healthy ls ->
  exists page,
    mount prefersDark ls = Normal page /\
    (forall c saved, items ls !! themeKey = Some (c :: saved) -> theme page = c :: saved) /\
    (items ls !! themeKey = None \/ items ls !! themeKey = Some [] ->
     theme page = if prefersDark then lit "dark" else lit "light") /\
    items (localStorage page) !! themeKey = Some (theme page) /\
    (darkClass page = true <-> theme page = lit "dark") /\
    (forall k, k <> themeKey -> items (localStorage page) !! k = items ls !! k) /\
    (forall prefersDark', mount prefersDark' (localStorage page) = Normal page).
Proof.
  intros Hls. destruct (mount_healthy_theme prefersDark ls Hls) as (t & Ht & Hsaved & Hnone & Hm).
  eexists. split; [exact Hm|]. cbn [theme darkClass localStorage items].
  split; [exact Hsaved|]. split; [exact Hnone|].
  split; [apply lookup_insert_eq|].
  split; [apply eqb_eq|].
  split; [intros k Hk; apply lookup_insert_ne; congruence|].
  intros prefersDark'.
  destruct (mount_healthy_theme prefersDark'
              {| disabled := false; quota := None; items := <[themeKey := t]> (items ls) |}
              (conj eq_refl eq_refl)) as (t' & _ & Hsaved' & _ & Hm').
  rewrite Hm'. cbn [items] in *.
  destruct t as [|c r]; [contradiction|].
  rewrite (Hsaved' c r) by apply lookup_insert_eq.
  now rewrite insert_insert_eq.
Qed.

Lemma saved_theme_wins_witness :
  exists page,
    mount false {| disabled := false; quota := None; items := {[ themeKey := lit "dark" ]} |}
      = Normal page /\
    (forall c saved,
       items {| disabled := false; quota := None; items := {[ themeKey := lit "dark" ]} |}
         !! themeKey = Some (c :: saved) -> theme page = c :: saved) /\
    (items {| disabled := false; quota := None; items := {[ themeKey := lit "dark" ]} |}
       !! themeKey = None \/
     items {| disabled := false; quota := None; items := {[ themeKey := lit "dark" ]} |}
       !! themeKey = Some [] ->
     theme page = if false then lit "dark" else lit "light") /\
    items (localStorage page) !! themeKey = Some (theme page) /\
    (darkClass page = true <-> theme page = lit "dark") /\
    (forall k, k <> themeKey ->
       items (localStorage page) !! k
       = items {| disabled := false; quota := None; items := {[ themeKey := lit "dark" ]} |}
           !! k) /\
    (forall prefersDark', mount prefersDark' (localStorage page) = Normal page).
Proof.
  apply (saved_theme_wins false
           {| disabled := false; quota := None; items := {[ themeKey := lit "dark" ]} |}).
  split; reflexivity.
Defined.

(** Toggling repairs the theme: whatever string the state holds, a saved
    theme of any spelling included, the theme after [toggleTheme] is light
    or dark, it is dark exactly when the theme before was light, and it is
    what the storage then holds; toggling twice from light or from dark
    gives the theme back. *)
Theorem toggle_repairs_the_theme (page : Page) :
  healthy (localStorage page) ->
  exists page',
    toggleTheme page = Normal page' /\
    (theme page' = lit "light" \/ theme page' = lit "dark") /\
    (theme page' = lit "dark" <-> theme page = lit "light") /\
    (darkClass page' = true <-> theme page' = lit "dark") /\
    items (localStorage page') !! themeKey = Some (theme page') /\
    (forall k, k <> themeKey ->
       items (localStorage page') !! k = items (localStorage page) !! k) /\
    (theme page = lit "light" \/ theme page = lit "dark" ->
     exists page'', toggleTheme page' = Normal page'' /\ theme page'' = theme page).
Proof.
  intros Hls. unfold toggleTheme. rewrite applyThemeEffect_healthy by exact Hls.
  eexists. split; [reflexivity|]. cbn [theme darkClass localStorage items].
  split; [destruct (eqb (theme page) (lit "light")); auto|].
  split.
  { destruct (eqb (theme page) (lit "light")) eqn:E.
    - apply eqb_eq in E. now split.
    - apply eqb_neq in E. split; [discriminate | contradiction]. }
  split; [apply eqb_eq|].
  split; [apply lookup_insert_eq|].
  split; [intros k Hk; apply lookup_insert_ne; congruence|].
  intros Htheme. rewrite applyThemeEffect_healthy by (split; reflexivity).
  eexists. split; [reflexivity|]. cbn [theme].
  destruct Htheme as [-> | ->]; reflexivity.
Qed.

Lemma toggle_repairs_the_theme_witness :
  exists page',
    toggleTheme {| theme := lit "blue"; darkClass := false;
                   localStorage := Persistence.emptyStorage |} = Normal page' /\
    (theme page' = lit "light" \/ theme page' = lit "dark") /\
    (theme page' = lit "dark"
     <-> theme {| theme := lit "blue"; darkClass := false;
                  localStorage := Persistence.emptyStorage |} = lit "light") /\
    (darkClass page' = true <-> theme page' = lit "dark") /\
    items (localStorage page') !! themeKey = Some (theme page') /\
    (forall k, k <> themeKey ->
       items (localStorage page') !! k
       = items (localStorage {| theme := lit "blue"; darkClass := false;
                                localStorage := Persistence.emptyStorage |}) !! k) /\
    (theme {| theme := lit "blue"; darkClass := false;
              localStorage := Persistence.emptyStorage |} = lit "light" \/
     theme {| theme := lit "blue"; darkClass := false;
              localStorage := Persistence.emptyStorage |} = lit "dark" ->
     exists page'', toggleTheme page' = Normal page'' /\
       theme page'' = theme {| theme := lit "blue"; darkClass := false;
                               localStorage := Persistence.emptyStorage |}).
Proof.
  apply (toggle_repairs_the_theme
           {| theme := lit "blue"; darkClass := false;
              localStorage := Persistence.emptyStorage |}).
  split; reflexivity.
Defined.

(** The effects of the theme do not fail soft.  On a storage that refuses
    access, mounting the application and toggling the theme throw what the
    storage throws, where the provider of the history, on the same
    storage, mounts and starts empty. *)
Theorem theme_effects_throw (prefersDark : bool) (page : Page) (ls : Storage) :
  disabled ls = true ->
  (exists e, mount prefersDark ls = Throw e /\ kind e = SecurityError) /\
  (localStorage page = ls ->
   exists e, toggleTheme page = Throw e /\ kind e = SecurityError) /\
  (exists session, Provider.mount ls = Normal session /\
                   Context.verifications (state session) = JArr []).
Proof.
  intros Hd. split; [|split].
  - unfold mount, loadThemeEffect, getItem. rewrite Hd. eexists. split; reflexivity.
  - intros H. unfold toggleTheme, applyThemeEffect, setItem. rewrite H, Hd.
    eexists. split; reflexivity.
  - unfold Provider.mount, loadEffect, loadEffect_try, getItem. rewrite Hd. cbn [bind].
    eexists. split; reflexivity.
Qed.

Lemma theme_effects_throw_witness :
  (exists e, mount true Persistence.deniedStorage = Throw e /\ kind e = SecurityError) /\
  (localStorage {| theme := lit "light"; darkClass := false;
                   localStorage := Persistence.deniedStorage |} = Persistence.deniedStorage ->
   exists e, toggleTheme {| theme := lit "light"; darkClass := false;
                            localStorage := Persistence.deniedStorage |} = Throw e /\
             kind e = SecurityError) /\
  (exists session, Provider.mount Persistence.deniedStorage = Normal session /\
                   Context.verifications (state session) = JArr []).
Proof.
  apply (theme_effects_throw true
           {| theme := lit "light"; darkClass := false;
              localStorage := Persistence.deniedStorage |} Persistence.deniedStorage).
  reflexivity.
Defined.

End AppFacts.

(* ===================================================================== *)
(** ** Facts. The news panel *)
(* ===================================================================== *)

Module TrustedNewsFacts.
Import NewsApi TrustedNews.

Section Refresh.

Variable Array_sort : forall A : Type, (A -> A -> Rand Q) -> list A -> Rand (list A).

Hypothesis Array_sort_permutes :
  forall (A : Type) (cmp : A -> A -> Rand Q) (l : list A) (s : randomness),
    Permutation l (fst (Array_sort A cmp l s)).


(** Every article of the fallback carries the badge colour of its source:
    none falls to the gray of an unknown source. *)
Theorem fallback_articles_have_a_known_source (s : randomness) (a : NewsArticle) :
  In a (fst (getMockNewsArticles Array_sort s)) ->
  In (getSourceColor (source a))
     [getSourceColor (lit "who"); getSourceColor (lit "cdc"); getSourceColor (lit "pubmed")] /\
  getSourceColor (source a) <> getSourceColor (lit "some other source").
Proof using Array_sort_permutes.
  intros Ha.
  pose proof (FallbackFacts.mock_news_is_shuffled_fixture Array_sort Array_sort_permutes s)
    as Hperm.
  apply (Permutation_in _ (Permutation_sym Hperm)) in Ha.
  cbn [mockNewsArticles In] in Ha.
  destruct Ha as [<- | [<- | [<- | [<- | [<- | []]]]]];
    (split; [vm_compute; tauto | vm_compute; discriminate]).
Qed.

End Refresh.


Lemma fallback_articles_have_a_known_source_witness :
  In (getSourceColor (lit "WHO"))
     [getSourceColor (lit "who"); getSourceColor (lit "cdc"); getSourceColor (lit "pubmed")] /\
  getSourceColor (lit "WHO") <> getSourceColor (lit "some other source").
Proof.
  apply (fallback_articles_have_a_known_source insertion_sort
           FallbackFacts.insertion_sort_permutes (fun _ => Fallback.sample_half)
           {| id := lit "1";
              title := lit "New WHO Guidelines on Digital Health Interventions";
              summary := lit "The World Health Organization releases updated guidelines for digital health technologies and their implementation in healthcare systems worldwide.";
              url := lit "https://www.who.int/news/item/01-01-2024-new-digital-health-guidelines";
              publishedAt := lit "2024-01-15T10:00:00Z";
              source := lit "WHO" |}).
  vm_compute. tauto.
Defined.

End TrustedNewsFacts.

(* ===================================================================== *)
(** ** Facts. The citation cards *)
(* ===================================================================== *)

Module CitationCardFacts.

(** The cards of the citations of the fallback: the icon of a source is
    found by looking for abbreviations in it, and the fixed citations
    spell their sources out, so the citations of the Centers for Disease
    Control and of the World Health Organization get the icon of the
    unknown source, the page, and only PubMed Central gets its own, the
    books; no answer of the fallback shows the hospital or the classical
    building. *)
Theorem fallback_citations_get_plain_icons (input : jsstring) (s : randomness)
    (c : Api.Citation) :
  In c (Api.citations (fst (Api.getMockVerificationResult input s))) ->
  (CitationCard.getSourceIcon (Api.source c) = CitationCard.page \/
   CitationCard.getSourceIcon (Api.source c) = CitationCard.books) /\
  (CitationCard.getSourceIcon (Api.source c) = CitationCard.books
   <-> Api.source c = lit "PubMed Central").
Proof.
  intros Hc.
  destruct (ApiClientFacts.mock_answer_shape input s) as (_ & (k & Hk & Ecit) & _).
  cbv zeta in Ecit. rewrite Ecit in Hc.
  assert (Hin : In c Api.mockCitations).
  { assert (Hcases : k = 1%nat \/ k = 2%nat \/ k = 3%nat) by lia.
    destruct Hcases as [-> | [-> | ->]]; cbn [firstn Api.mockCitations In] in *; tauto. }
  clear Hc. cbn [Api.mockCitations In] in Hin.
  destruct Hin as [<- | [<- | [<- | []]]]; cbn [Api.source].
  - split; [left; reflexivity|]. split; intros H; vm_compute in H; discriminate H.
  - split; [left; reflexivity|]. split; intros H; vm_compute in H; discriminate H.
  - split; [right; reflexivity|]. split; reflexivity.
Qed.

Lemma fallback_citations_get_plain_icons_witness :
  (CitationCard.getSourceIcon (lit "Centers for Disease Control and Prevention")
   = CitationCard.page \/
   CitationCard.getSourceIcon (lit "Centers for Disease Control and Prevention")
   = CitationCard.books) /\
  (CitationCard.getSourceIcon (lit "Centers for Disease Control and Prevention")
   = CitationCard.books
   <-> lit "Centers for Disease Control and Prevention" = lit "PubMed Central").
Proof.
  apply (fallback_citations_get_plain_icons (lit "Vaccines cause autism")
           (fun _ => Fallback.sample_0)
           {| Api.title := lit "Vaccines and Autism: A Comprehensive Review";
              Api.source := lit "Centers for Disease Control and Prevention";
              Api.url := lit "https://www.cdc.gov/vaccinesafety/concerns/autism.html";
              Api.publishedAt := lit "2024-01-15";
              Api.summary := lit "Comprehensive analysis of vaccine safety data showing no link between vaccines and autism spectrum disorders." |}).
  vm_compute. tauto.
Defined.

End CitationCardFacts.
